(** * mcufont encoder front end (encoder/main.cc): a shallow embedding

    The command-line front end of the mcufont encoder is embedded
    command by command.  Machine integers are integers of [Z] with the
    wrap-around written out, [std::vector] is [list], [std::set<int>] is
    [gset Z], the standard streams and the files live in an explicit
    [world] that every command threads, and C++ exceptions, traps and
    non-termination are distinguished results.

    The core that the front end calls (data file, encoder, size
    estimator, optimizer) and the importers and writers are not among
    the sources.  The commands take them as parameters, a [Backend] and
    [Tools]; nothing is proved about what is inside them. *)

From Stdlib Require Import ZArith List String Ascii Lia.
From stdpp Require Import base decidable option list sorting gmap sets strings.

Local Open Scope Z_scope.

(* ================================================================= *)
(** * Part I: definitions *)
(* ================================================================= *)

(** ** Machine integers *)

Module Cxx.

(** [size_t] is 64 bits wide, [int] 32 bits. *)
Definition SIZE_MOD : Z := 2 ^ 64.
Definition INT_MIN : Z := - 2 ^ 31.
Definition INT_MAX : Z := 2 ^ 31 - 1.

Definition wrap_size (z : Z) : Z := z mod SIZE_MOD.

(** [j++] and [j--] on a [size_t]. *)
Definition size_inc (j : Z) : Z := wrap_size (j + 1).
Definition size_dec (j : Z) : Z := wrap_size (j - 1).

(** Two's complement wrap-around of an [int]. *)
Definition wrap_int (z : Z) : Z := (z - INT_MIN) mod 2 ^ 32 + INT_MIN.
Definition int_inc (j : Z) : Z := wrap_int (j + 1).

(** [v.size()] of a vector. *)
Definition vsize {A} (v : list A) : Z := Z.of_nat (length v).

(** What a call can end in besides a value. *)
Inductive exception : Type :=
  | invalid_argument
  | out_of_range.

Inductive res (A : Type) : Type :=
  | Ok (a : A)
  | Throw (e : exception)      (* an exception left the call *)
  | DivideError                (* integer division by zero *)
  | OutOfFuel.                 (* the loop was still running *)

Arguments Ok {A} a.
Arguments Throw {A} e.
Arguments DivideError {A}.
Arguments OutOfFuel {A}.

#[export] Instance res_ret : MRet res := fun A a => Ok a.

#[export] Instance res_bind : MBind res := fun A B k r =>
  match r with
  | Ok a => k a
  | Throw e => Throw e
  | DivideError => DivideError
  | OutOfFuel => OutOfFuel
  end.

(** [v.at(i)]: bounds-checked access. *)
Definition at_ {A} (v : list A) (i : Z) : res A :=
  if bool_decide (0 <= i < vsize v) then
    match v !! Z.to_nat i with
    | Some a => Ok a
    | None => Throw out_of_range
    end
  else Throw out_of_range.

(** [v.erase(v.begin() + i)]. *)
Definition erase {A} (v : list A) (i : Z) : list A := delete (Z.to_nat i) v.

End Cxx.

Export Cxx.

(** ** Data model (datafile.hh) *)

Module DataModel.

(** Modelled from the spec: the declarations of datafile.hh are not in
    the sources.  A glyph carries its bitmap (pixel data with width,
    height and advance) and the character codes that map to it; the only
    member main.cc names is [chars]. *)
Record glyphentry_t : Type := mk_glyph {
  data : list Z;
  width : Z;
  height : Z;
  advance : Z;
  chars : list Z
}.

(** Modelled from the spec: a dictionary entry is a byte string tagged
    run-length or reference. *)
Inductive dictkind : Type := RLE | REF.

#[export] Instance dictkind_eq_dec : EqDecision dictkind.
Proof. solve_decision. Defined.

Record dictentry_t : Type := mk_dict {
  kind : dictkind;
  bytes : list Z
}.

(** Modelled from the spec: font info. *)
Record fontinfo_t : Type := mk_fontinfo {
  name : string;
  max_width : Z;
  max_height : Z;
  baseline_x : Z;
  baseline_y : Z;
  line_height : Z;
  flags : Z
}.

(** Modelled from the spec: the data file is the tuple of dictionary,
    glyph table and font info; [DataFile] is the constructor main.cc
    calls with these three, in this order. *)
Record DataFile : Type := mk_DataFile {
  GetDictionary : list dictentry_t;
  GetGlyphTable : list glyphentry_t;
  GetFontInfo : fontinfo_t
}.

Definition GetGlyphCount (f : DataFile) : Z := vsize (GetGlyphTable f).
Definition GetGlyphEntry (f : DataFile) (i : Z) : res glyphentry_t :=
  at_ (GetGlyphTable f) i.

Definition set_chars (g : glyphentry_t) (cs : list Z) : glyphentry_t :=
  mk_glyph (data g) (width g) (height g) (advance g) cs.

(** The bitmap part of a glyph: everything but the character codes. *)
Definition bitmap (g : glyphentry_t) : list Z * Z * Z * Z :=
  (data g, width g, height g, advance g).

(** Vectors have fewer than [2^64] elements. *)
Definition representable (f : DataFile) : Prop :=
  vsize (GetGlyphTable f) < SIZE_MOD /\
  Forall (fun g => vsize (chars g) < SIZE_MOD) (GetGlyphTable f).

(** P7 of the specification: no character code in two different glyphs. *)
Definition codes_unique (gl : list glyphentry_t) : Prop :=
  forall (i j : nat) (g1 g2 : glyphentry_t) (c : Z),
    gl !! i = Some g1 -> gl !! j = Some g2 ->
    c ∈ chars g1 -> c ∈ chars g2 -> i = j.

(** Modelled from the spec: what the construction of a data file
    validates, as far as the glyphs and the size of the dictionary go.
    Every bitmap has the dimensions of the font, the dictionary fits the
    byte space left above index 24, the codes of a glyph are there,
    ascending and without repetition, and no code is in two glyphs. *)
Definition glyph_ok (info : fontinfo_t) (g : glyphentry_t) : Prop :=
  width g = max_width info /\ height g = max_height info /\
  chars g <> [] /\ StronglySorted Z.lt (chars g).

Definition datafile_ok (f : DataFile) : Prop :=
  vsize (GetDictionary f) <= 255 - 24 /\
  Forall (glyph_ok (GetFontInfo f)) (GetGlyphTable f) /\
  codes_unique (GetGlyphTable f).

End DataModel.

Export DataModel.

(** ** cmd_filter, lines 201-222: filtering the glyphs *)

Module Filter.

(** The inner loop
    [for (size_t j = 0; j < g.chars.size(); j++)
       if (!allowed.count(g.chars.at(j))) { erase j; j--; }].
    After an erase the pair [j--], [j++] runs on the unsigned [j]; at
    [j = 0] the decrement wraps to [2^64 - 1] and the increment wraps
    back. *)
Fixpoint erase_loop (fuel : nat) (allowed : gset Z) (cs : list Z) (j : Z)
  : res (list Z) :=
  if bool_decide (j < vsize cs) then
    match fuel with
    | O => OutOfFuel
    | S fuel' =>
        c ← at_ cs j;
        if bool_decide (c ∈ allowed)
        then erase_loop fuel' allowed cs (size_inc j)
        else erase_loop fuel' allowed (erase cs j) (size_inc (size_dec j))
    end
  else Ok cs.

(** The loop runs once per element of the original vector. *)
Definition filter_chars (allowed : gset Z) (cs : list Z) : res (list Z) :=
  erase_loop (length cs) allowed cs 0.

(** The outer loop over [i < f->GetGlyphCount()], from glyph [i] on, with
    [newglyphs] accumulated by [push_back]. *)
Fixpoint glyph_loop (fuel : nat) (allowed : gset Z) (f : DataFile) (i : Z)
  (newglyphs : list glyphentry_t) : res (list glyphentry_t) :=
  if bool_decide (i < GetGlyphCount f) then
    match fuel with
    | O => OutOfFuel
    | S fuel' =>
        g ← GetGlyphEntry f i;
        cs ← filter_chars allowed (chars g);
        let g' := set_chars g cs in
        if bool_decide (vsize (chars g') ≠ 0)
        then glyph_loop fuel' allowed f (size_inc i) (newglyphs ++ [g'])
        else glyph_loop fuel' allowed f (size_inc i) newglyphs
    end
  else Ok newglyphs.

Definition filter_glyphs (allowed : gset Z) (f : DataFile)
  : res (list glyphentry_t) :=
  glyph_loop (length (GetGlyphTable f)) allowed f 0 [].

(** Lines 201-222: the data file that replaces [f]. *)
Definition filter_datafile (allowed : gset Z) (f : DataFile) : res DataFile :=
  newglyphs ← filter_glyphs allowed f;
  Ok (mk_DataFile (GetDictionary f) newglyphs (GetFontInfo f)).

(** The filter as the specification words it, for comparison with the
    loops: a glyph keeps its allowed codes, in order, and is dropped when
    none is left. *)
Definition allowed_codes (allowed : gset Z) (g : glyphentry_t) : list Z :=
  filter (λ c, c ∈ allowed) (chars g).

Definition keep_glyph (allowed : gset Z) (g : glyphentry_t) : option glyphentry_t :=
  match allowed_codes allowed g with
  | [] => None
  | c :: cs => Some (set_chars g (c :: cs))
  end.

Definition survives (allowed : gset Z) (g : glyphentry_t) : Prop :=
  allowed_codes allowed g ≠ [].

#[export] Instance survives_dec allowed g : Decision (survives allowed g).
Proof. unfold survives. apply _. Defined.

End Filter.

(** ** The standard library: string to integer, formatted output *)

Module StdLib.

Local Open Scope char_scope.

(** [isspace] in the C locale. *)
Definition isspace (c : ascii) : bool :=
  let n := Z.of_N (N_of_ascii c) in
  bool_decide (n = 32 \/ 9 <= n <= 13).

(** Value of a digit or letter, whatever the base. *)
Definition digit_value (c : ascii) : option Z :=
  let n := Z.of_N (N_of_ascii c) in
  if bool_decide (48 <= n <= 57) then Some (n - 48)
  else if bool_decide (97 <= n <= 122) then Some (n - 97 + 10)
  else if bool_decide (65 <= n <= 90) then Some (n - 65 + 10)
  else None.

Definition digit_in (base : Z) (c : ascii) : option Z :=
  match digit_value c with
  | Some d => if bool_decide (d < base) then Some d else None
  | None => None
  end.

Fixpoint skip_space (s : string) : string :=
  match s with
  | String c s' => if isspace c then skip_space s' else s
  | EmptyString => s
  end.

(** The longest run of digits of the base at the head of [s]. *)
Fixpoint read_digits (base : Z) (s : string) : list Z :=
  match s with
  | String c s' =>
      match digit_in base c with
      | Some d => d :: read_digits base s'
      | None => []
      end
  | EmptyString => []
  end.

Definition digits_value (base : Z) (ds : list Z) : Z :=
  foldl (fun acc d => acc * base + d) 0 ds.

(** The sign, if any, and the rest. *)
Definition read_sign (s : string) : bool * string :=
  match s with
  | String "-" s' => (true, s')
  | String "+" s' => (false, s')
  | _ => (false, s)
  end.

(** The base in force and the digits' start: a [0x] or [0X] prefix
    followed by a hexadecimal digit selects base 16 (when [base] is 0 or
    16), a leading [0] base 8 (when [base] is 0). *)
Definition read_prefix (base : Z) (s : string) : Z * string :=
  match s with
  | String "0" (String x (String h s')) =>
      if bool_decide (base = 0 \/ base = 16) &&
         bool_decide (x = "x" \/ x = "X") &&
         bool_decide (is_Some (digit_in 16 h))
      then (16, String h s')
      else if bool_decide (base = 0) then (8, s) else (base, s)
  | String "0" _ => if bool_decide (base = 0) then (8, s) else (base, s)
  | _ => if bool_decide (base = 0) then (10, s) else (base, s)
  end.

(** [std::stoi(s, nullptr, base)]: [strtol] on the string, then
    [std::invalid_argument] when no digit was converted and
    [std::out_of_range] when the value is not an [int].  Characters after
    the digits are ignored. *)
Definition stoi (s : string) (base : Z) : res Z :=
  let '(neg, s1) := read_sign (skip_space s) in
  let '(b, s2) := read_prefix base s1 in
  match read_digits b s2 with
  | [] => Throw invalid_argument
  | ds =>
      let v := if neg then - digits_value b ds else digits_value b ds in
      if bool_decide (INT_MIN <= v <= INT_MAX) then Ok v
      else Throw out_of_range
  end.

(** [s.find(c)]: position of the first [c], [npos] as [None]. *)
Fixpoint find (c : ascii) (s : string) : option nat :=
  match s with
  | EmptyString => None
  | String c' s' => if bool_decide (c' = c) then Some O else S <$> find c s'
  end.

(** [s.substr(0, pos)] and [s.substr(pos)], for [pos] within [s]. *)
Fixpoint substr_to (pos : nat) (s : string) : string :=
  match pos, s with
  | S pos', String c s' => String c (substr_to pos' s')
  | _, _ => EmptyString
  end.

Fixpoint substr_from (pos : nat) (s : string) : string :=
  match pos, s with
  | S pos', String _ s' => substr_from pos' s'
  | _, _ => s
  end.

End StdLib.

Export StdLib.

(** ** Formatted output: [std::ostream] *)

Module OStream.

Inductive basefield : Type := dec | hex.

(** The text written so far and the formatting state.  The base and the
    fill character stay as set; the field width goes back to 0 after
    every formatted insertion. *)
Record ostream : Type := mk_ostream {
  text : string;
  base : basefield;
  fill : ascii;
  fieldwidth : nat
}.

Definition fresh_stream : ostream := mk_ostream "" dec " "%char 0.

Definition digit_char (d : Z) : ascii :=
  match String.get (Z.to_nat d) "0123456789abcdef" with
  | Some c => c
  | None => "?"%char
  end.

Fixpoint render_digits (fuel : nat) (b n : Z) (acc : string) : string :=
  match fuel with
  | O => acc
  | S fuel' =>
      let acc' := String (digit_char (n mod b)) acc in
      if bool_decide (n / b = 0) then acc'
      else render_digits fuel' b (n / b) acc'
  end.

(** The numeral of [n >= 0] in base [b]; a number has at most
    [log2 n + 1] digits. *)
Definition render_unsigned (b n : Z) : string :=
  render_digits (S (Z.to_nat (Z.log2 n))) b n "".

(** Numeral of a [bits]-wide integer value: signed decimal, or the
    hexadecimal numeral of its unsigned image. *)
Definition render (bf : basefield) (bits : Z) (z : Z) : string :=
  match bf with
  | dec => if bool_decide (z < 0) then "-" +:+ render_unsigned 10 (- z)
           else render_unsigned 10 z
  | hex => render_unsigned 16 (z mod 2 ^ bits)
  end.

Fixpoint replicate_char (n : nat) (c : ascii) : string :=
  match n with
  | O => ""
  | S n' => String c (replicate_char n' c)
  end.

(** Right adjustment in the field, then the width is reset. *)
Definition put_field (s : string) (o : ostream) : ostream :=
  let pad := replicate_char (fieldwidth o - String.length s) (fill o) in
  mk_ostream (text o +:+ pad +:+ s) (base o) (fill o) 0.

(** [o << s] for a string. *)
Definition put_str (s : string) (o : ostream) : ostream := put_field s o.

(** [o << n] for an [int]. *)
Definition put_int (n : Z) (o : ostream) : ostream :=
  put_field (render (base o) 32 n) o.

(** [o << n] for a [size_t]. *)
Definition put_size (n : Z) (o : ostream) : ostream :=
  put_field (render (base o) 64 n) o.

(** [o << std::setfill(c)], [o << std::setw(n)], [o << std::hex]. *)
Definition setfill (c : ascii) (o : ostream) : ostream :=
  mk_ostream (text o) (base o) c (fieldwidth o).
Definition setw (n : nat) (o : ostream) : ostream :=
  mk_ostream (text o) (base o) (fill o) n.
Definition set_hex (o : ostream) : ostream :=
  mk_ostream (text o) hex (fill o) (fieldwidth o).

(** [o << std::endl]: a newline, unformatted. *)
Definition newline : string := String (ascii_of_nat 10) "".
Definition endl (o : ostream) : ostream :=
  mk_ostream (text o +:+ newline) (base o) (fill o) (fieldwidth o).

(** The string of the digits [ds], most significant first. *)
Fixpoint numeral (ds : list Z) : string :=
  match ds with
  | [] => ""
  | d :: ds' => String (digit_char d) (numeral ds')
  end.

End OStream.

Export OStream.

Notation "o << f" := (f o) (at level 50, left associativity, only parsing).

(** ** The core behind main.cc, and the world the commands run in *)

Module World.

(** [encoded_font_t] (encode.hh): three sequences of byte strings. *)
Record encoded_font_t : Type := mk_encoded_font {
  rle_dictionary : list (list Z);
  ref_dictionary : list (list Z);
  glyphs : list (list Z)
}.

(** The functions main.cc calls and does not define: the serializer of
    datafile.cc, the encoder and size estimator of encode.cc and the
    optimizer of optimize.cc, the last with whatever random state it
    keeps between calls. *)
Class Backend : Type := {
  rnd_t : Type;
  DataFile_Load : string -> option DataFile;
  DataFile_Save : DataFile -> string;
  get_encoded_size : DataFile -> Z;
  optimize : DataFile -> rnd_t -> DataFile * rnd_t;
  encode_font : DataFile -> encoded_font_t
}.

(** How one save goes: well, or the stream cannot be opened, or it
    fails while written and leaves [partial] in the file. *)
Inductive save_fault : Type :=
  | NoFault
  | OpenFails
  | WriteFails (partial : string).

(** Calls worth recording: of the optimizer, and saves of a data file. *)
Inductive event : Type :=
  | EvOptimize (before after : DataFile)
  | EvSave (path : string) (f : DataFile) (ok : bool).

Inductive status_t : Type :=
  | STATUS_OK         (* All good *)
  | STATUS_INVALID    (* Invalid command or args *)
  | STATUS_ERROR.     (* Error when executing command *)

Definition status_code (s : status_t) : Z :=
  match s with
  | STATUS_OK => 0
  | STATUS_INVALID => 1
  | STATUS_ERROR => 2
  end.

Section WithBackend.
Context `{Backend}.

(** Files by path, the two output streams, the optimizer's random
    state, the fate of the [k]-th save, the [k]-th reading of the clock,
    and the record of calls. *)
Record world : Type := mk_world {
  files : gmap string string;
  cout : ostream;
  cerr : ostream;
  rnd : rnd_t;
  faults : nat -> save_fault;
  nsaves : nat;
  clock : nat -> Z;
  nticks : nat;
  events : list event
}.

(** A command runs in a world and leaves a world, also when it does not
    return. *)
Definition cmd (A : Type) : Type := world -> res A * world.

Definition cret {A} (a : A) : cmd A := fun w => (Ok a, w).

Definition cbind {A B} (c : cmd A) (k : A -> cmd B) : cmd B := fun w =>
  match c w with
  | (Ok a, w') => k a w'
  | (Throw e, w') => (Throw e, w')
  | (DivideError, w') => (DivideError, w')
  | (OutOfFuel, w') => (OutOfFuel, w')
  end.

Definition lift {A} (r : res A) : cmd A := fun w => (r, w).

(** [std::cout << ...] and [std::cerr << ...]. *)
Definition print (f : ostream -> ostream) : cmd unit := fun w =>
  (Ok tt, mk_world (files w) (f (cout w)) (cerr w) (rnd w) (faults w)
            (nsaves w) (clock w) (nticks w) (events w)).

Definition eprint (f : ostream -> ostream) : cmd unit := fun w =>
  (Ok tt, mk_world (files w) (cout w) (f (cerr w)) (rnd w) (faults w)
            (nsaves w) (clock w) (nticks w) (events w)).

(** [time(NULL)]. *)
Definition time : cmd Z := fun w =>
  (Ok (clock w (nticks w)),
   mk_world (files w) (cout w) (cerr w) (rnd w) (faults w)
     (nsaves w) (clock w) (S (nticks w)) (events w)).

(** The call of [optimize] on the data file, which it changes in place. *)
Definition call_optimize (f : DataFile) : cmd DataFile := fun w =>
  let '(f', r') := optimize f (rnd w) in
  (Ok f', mk_world (files w) (cout w) (cerr w) r' (faults w)
            (nsaves w) (clock w) (nticks w)
            (events w ++ [EvOptimize f f'])).

(** [std::ofstream outfile(dest)]: the file is created or emptied,
    unless it cannot be opened; the result is [outfile.good()]. *)
Definition open_out (dest : string) : cmd bool := fun w =>
  match faults w (nsaves w) with
  | OpenFails => (Ok false, w)
  | NoFault | WriteFails _ =>
      (Ok true, mk_world (<[dest := ""]> (files w)) (cout w) (cerr w) (rnd w)
                  (faults w) (nsaves w) (clock w) (nticks w) (events w))
  end.

(** [f->Save(outfile)] on the open stream: the file holds the
    serialized data file, or what was written before the stream failed;
    the result is [outfile.good()]. *)
Definition write_out (dest : string) (f : DataFile) : cmd bool := fun w =>
  match faults w (nsaves w) with
  | WriteFails partial =>
      (Ok false, mk_world (<[dest := partial]> (files w)) (cout w) (cerr w)
                   (rnd w) (faults w) (nsaves w) (clock w) (nticks w) (events w))
  | NoFault | OpenFails =>
      (Ok true, mk_world (<[dest := DataFile_Save f]> (files w)) (cout w)
                  (cerr w) (rnd w) (faults w) (nsaves w) (clock w) (nticks w)
                  (events w))
  end.

(** The end of a save, for the record. *)
Definition note_save (dest : string) (f : DataFile) (ok : bool) : cmd unit := fun w =>
  (Ok tt, mk_world (files w) (cout w) (cerr w) (rnd w) (faults w)
            (S (nsaves w)) (clock w) (nticks w)
            (events w ++ [EvSave dest f ok])).

End WithBackend.

End World.

Export World.

Notation "'let!' x ':=' c 'in' k" := (cbind c (fun x => k))
  (at level 10, x name, c at level 100, k at level 200).
Notation "c ';;;' k" := (cbind c (fun _ => k))
  (at level 100, k at level 200, right associativity).

(** ** The commands of main.cc *)

Module Commands.

Section WithBackend.
Context `{Backend}.

Definition read_file (src : string) : cmd (option string) := fun w =>
  (Ok (files w !! src), w).

(** [load_dat], lines 31-49. *)
Definition load_dat (src : string) : cmd (option DataFile) :=
  let! content := read_file src in
  match content with
  | None =>
      eprint (fun o => o << put_str "Could not open " << put_str src << endl) ;;;
      cret None
  | Some t =>
      match DataFile_Load t with
      | None =>
          eprint (fun o => o << put_str "Invalid format for .dat file: "
                             << put_str src << endl) ;;;
          cret None
      | Some f => cret (Some f)
      end
  end.

(** [save_dat], lines 51-70. *)
Definition save_dat (dest : string) (f : DataFile) : cmd bool :=
  let! opened := open_out dest in
  if negb opened then
    eprint (fun o => o << put_str "Could not open " << put_str dest << endl) ;;;
    note_save dest f false ;;;
    cret false
  else
    let! written := write_out dest f in
    if negb written then
      eprint (fun o => o << put_str "Could not write to " << put_str dest << endl) ;;;
      note_save dest f false ;;;
      cret false
    else
      note_save dest f true ;;;
      cret true.

(** *** cmd_filter, lines 164-229 *)

(** [for (int j = start; j <= end; j++) allowed.insert(j);] *)
Fixpoint range_loop (fuel : nat) (allowed : gset Z) (j end_ : Z) : res (gset Z) :=
  if bool_decide (j <= end_) then
    match fuel with
    | O => OutOfFuel
    | S fuel' => range_loop fuel' ({[j]} ∪ allowed) (int_inc j) end_
    end
  else Ok allowed.

(** One argument, lines 174-191. *)
Definition parse_arg (fuel : nat) (allowed : gset Z) (s : string) : res (gset Z) :=
  match find "-" s with
  | None =>
      v ← stoi s 0;
      Ok ({[v]} ∪ allowed)
  | Some pos =>
      start ← stoi (substr_to pos s) 0;
      end_ ← stoi (substr_from (S pos) s) 0;
      range_loop fuel allowed start end_
  end.

(** The loop of lines 172-192 over [args.at(i)] from [i = 2] on: the
    arguments from the third on, in order. *)
Fixpoint parse_args (fuel : nat) (allowed : gset Z) (args : list string)
  : res (gset Z) :=
  match args with
  | [] => Ok allowed
  | s :: rest =>
      allowed' ← parse_arg fuel allowed s;
      parse_args fuel allowed' rest
  end.

Definition cmd_filter (fuel : nat) (args : list string) : cmd status_t :=
  if bool_decide (vsize args < 3) then cret STATUS_INVALID else
  let! allowed := lift (parse_args fuel ∅ (drop 2 args)) in
  let! src := lift (at_ args 1) in
  let! loaded := load_dat src in
  match loaded with
  | None => cret STATUS_ERROR
  | Some f =>
      print (fun o => o << put_str "Font originally had "
                        << put_size (GetGlyphCount f)
                        << put_str " glyphs." << endl) ;;;
      let! f' := lift (Filter.filter_datafile allowed f) in
      print (fun o => o << put_str "After filtering, "
                        << put_size (GetGlyphCount f')
                        << put_str " glyphs remain." << endl) ;;;
      let! saved := save_dat src f' in
      if negb saved then cret STATUS_ERROR else cret STATUS_OK
  end.

(** *** cmd_size, lines 231-253 *)

(** Division of two [size_t]. *)
Definition size_div (a b : Z) : res Z :=
  if bool_decide (b = 0) then DivideError else Ok (a / b).

Definition cmd_size (args : list string) : cmd status_t :=
  if bool_decide (vsize args ≠ 2) then cret STATUS_INVALID else
  let! src := lift (at_ args 1) in
  let! loaded := load_dat src in
  match loaded with
  | None => cret STATUS_ERROR
  | Some f =>
      let size := get_encoded_size f in
      let info := GetFontInfo f in
      print (fun o => o << put_str "Glyph count:       "
                        << put_size (GetGlyphCount f) << endl) ;;;
      print (fun o => o << put_str "Glyph bbox:        "
                        << put_int (max_width info) << put_str "x"
                        << put_int (max_height info)
                        << put_str " pixels" << endl) ;;;
      print (fun o => o << put_str "Uncompressed size: "
                        << put_size
                             (wrap_size
                                (wrap_size (GetGlyphCount f * max_width info)
                                 * max_height info) / 2)
                        << put_str " bytes" << endl) ;;;
      print (fun o => o << put_str "Compressed size:   "
                        << put_size size << put_str " bytes" << endl) ;;;
      print (fun o => o << put_str "Bytes per glyph:   ") ;;;
      let! per_glyph := lift (size_div size (GetGlyphCount f)) in
      print (fun o => o << put_size per_glyph << endl) ;;;
      cret STATUS_OK
  end.

(** *** cmd_optimize, lines 255-304 *)

(** Where the loop of lines 283-301 stands between two of its
    statements: before the test of its condition, or past the report of
    line 293 and before the save of line 298.  Here the call of
    [save_dat] is taken whole, which is what a run that is not stopped
    does; [fine_step] below has the point inside it. *)
Inductive loop_pc : Type := AtTest | AtSave.

(** The locals of the loop: the data file in memory and the counter. *)
Record loop_state : Type := mk_loop_state {
  ls_file : DataFile;
  ls_i : Z;
  ls_pc : loop_pc
}.

(** Line 290: [(oldsize - newsize) * 60 / (newtime - oldtime + 1)], in
    [size_t] arithmetic, the result stored in an [int]. *)
Definition bytes_per_min (oldsize newsize oldtime newtime : Z) : res Z :=
  q ← size_div (wrap_size (wrap_size (oldsize - newsize) * 60))
               (wrap_size (newtime - oldtime + 1));
  Ok (wrap_int q).

(** One half of an iteration.  [inl] is the status the command returns
    with, [inr] the state the loop goes on from. *)
Definition loop_step (src : string) (limit oldsize oldtime : Z) (st : loop_state)
  : cmd (status_t + loop_state) :=
  match ls_pc st with
  | AtTest =>
      if bool_decide (limit = 0 \/ ls_i st < limit) then
        let! f' := call_optimize (ls_file st) in
        let newsize := get_encoded_size f' in
        let! newtime := time in
        let! speed := lift (bytes_per_min oldsize newsize oldtime newtime) in
        let i' := int_inc (ls_i st) in
        print (fun o => o << put_str "iteration " << put_int i'
                          << put_str ", size " << put_size newsize
                          << put_str " bytes, speed " << put_int speed
                          << put_str " B/min" << endl) ;;;
        cret (inr (mk_loop_state f' i' AtSave))
      else cret (inl STATUS_OK)
  | AtSave =>
      let! saved := save_dat src (ls_file st) in
      if negb saved then cret (inl STATUS_ERROR)
      else cret (inr (mk_loop_state (ls_file st) (ls_i st) AtTest))
  end.

(** [n] steps of the loop, or fewer when it returns earlier. *)
Fixpoint loop_steps (n : nat) (src : string) (limit oldsize oldtime : Z)
  (st : loop_state) : cmd (status_t + loop_state) :=
  match n with
  | O => cret (inr st)
  | S n' =>
      let! r := loop_step src limit oldsize oldtime st in
      match r with
      | inl status => cret (inl status)
      | inr st' => loop_steps n' src limit oldsize oldtime st'
      end
  end.

(** The loop with [fuel] steps to spend. *)
Definition run_loop (fuel : nat) (src : string) (limit oldsize oldtime : Z)
  (st : loop_state) : cmd status_t :=
  let! r := loop_steps fuel src limit oldsize oldtime st in
  match r with
  | inl status => cret status
  | inr _ => lift OutOfFuel
  end.

Definition cmd_optimize (fuel : nat) (args : list string) : cmd status_t :=
  if bool_decide (vsize args ≠ 2 /\ vsize args ≠ 3) then cret STATUS_INVALID else
  let! src := lift (at_ args 1) in
  let! loaded := load_dat src in
  match loaded with
  | None => cret STATUS_ERROR
  | Some f =>
      let oldsize := get_encoded_size f in
      print (fun o => o << put_str "Original size is " << put_size oldsize
                        << put_str " bytes" << endl) ;;;
      print (fun o => o << put_str "Press ctrl-C at any time to stop." << endl) ;;;
      print (fun o => o << put_str "Results are saved automatically after each iteration."
                        << endl) ;;;
      let! limit :=
        (if bool_decide (vsize args = 3)
         then let! s := lift (at_ args 2) in lift (stoi s 10)
         else cret 100) in
      (if bool_decide (limit > 0)
       then print (fun o => o << put_str "Limit is " << put_int limit
                              << put_str " iterations" << endl)
       else cret tt) ;;;
      let! oldtime := time in
      run_loop fuel src limit oldsize oldtime (mk_loop_state f 0 AtTest)
  end.

(** *** Conditions on the world and on the record of calls *)

(** Every save goes well. *)
Definition saves_succeed (w : world) : Prop :=
  forall k, faults w k = NoFault.

(** The divisor of line 290 is not zero at any reading of the clock:
    the clock never shows the second before [oldtime]. *)
Definition speed_defined (w : world) (oldtime : Z) : Prop :=
  forall k, wrap_size (clock w k - oldtime + 1) <> 0.

Definition is_optimize (e : event) : bool :=
  match e with EvOptimize _ _ => true | EvSave _ _ _ => false end.

Definition is_save (e : event) : bool :=
  match e with EvOptimize _ _ => false | EvSave _ _ _ => true end.

Definition count_optimize (tr : list event) : nat :=
  length (List.filter is_optimize tr).

Definition count_save (tr : list event) : nat :=
  length (List.filter is_save tr).



(** *** The loop with the points where the program can be stopped *)









(** *** cmd_show_encoded, lines 306-346 *)

(** [for (uint8_t v : d) std::cout << std::setfill('0') << std::setw(2)
    << std::hex << (int)v << " ";] *)
Fixpoint put_bytes (d : list Z) (o : ostream) : ostream :=
  match d with
  | [] => o
  | v :: d' =>
      put_bytes d'
        (o << setfill "0" << setw 2 << set_hex << put_int v << put_str " ")
  end.

(** One of the three loops: every string of [ds] on a line of its own,
    after the label and the number [number i] made from the counter,
    which is incremented where it is read. *)
Fixpoint put_entries (label : string) (number : Z -> Z) (ds : list (list Z))
  (i : Z) (o : ostream) : Z * ostream :=
  match ds with
  | [] => (i, o)
  | d :: ds' =>
      let o1 := o << put_str label << put_int (number i) << put_str ": " in
      let o2 := o1 << put_bytes d << endl in
      put_entries label number ds' (int_inc i) o2
  end.

Definition show_encoded (e : encoded_font_t) (o : ostream) : ostream :=
  let '(i, o1) := put_entries "Dict RLE " (fun i => wrap_int (24 + i))
                    (rle_dictionary e) 0 o in
  let '(i, o2) := put_entries "Dict Ref " (fun i => wrap_int (24 + i))
                    (ref_dictionary e) i o1 in
  let '(_, o3) := put_entries "Glyph " (fun i => i) (glyphs e) 0 o2 in
  o3.

(** The text the three loops add, as a function of the strings and of
    the base the stream is in: a byte is two hexadecimal digits and a
    space; a line is the label, the number in the base in force, a
    colon and the bytes; from the first byte printed the base in force
    is hexadecimal. *)
Definition byte_text (v : Z) : string :=
  replicate_char (2 - String.length (render hex 32 v)) "0"
  +:+ render hex 32 v +:+ " ".

Fixpoint bytes_text (d : list Z) : string :=
  match d with
  | [] => ""
  | v :: d' => byte_text v +:+ bytes_text d'
  end.

Definition after_bytes (bf : basefield) (d : list Z) : basefield :=
  match d with
  | [] => bf
  | _ :: _ => hex
  end.

Fixpoint entries_text (bf : basefield) (label : string) (number : Z -> Z)
  (ds : list (list Z)) (i : Z) : string :=
  match ds with
  | [] => ""
  | d :: ds' =>
      label +:+ render bf 32 (number i) +:+ ": " +:+ bytes_text d +:+ newline
      +:+ entries_text (after_bytes bf d) label number ds' (i + 1)
  end.

Fixpoint entries_base (bf : basefield) (ds : list (list Z)) : basefield :=
  match ds with
  | [] => bf
  | d :: ds' => entries_base (after_bytes bf d) ds'
  end.

Definition show_encoded_text (bf : basefield) (e : encoded_font_t) : string :=
  let bf1 := entries_base bf (rle_dictionary e) in
  let bf2 := entries_base bf1 (ref_dictionary e) in
  entries_text bf "Dict RLE " (fun i => 24 + i) (rle_dictionary e) 0
  +:+ entries_text bf1 "Dict Ref " (fun i => 24 + i) (ref_dictionary e)
        (vsize (rle_dictionary e))
  +:+ entries_text bf2 "Glyph " (fun i => i) (glyphs e) 0.

Definition cmd_show_encoded (args : list string) : cmd status_t :=
  if bool_decide (vsize args ≠ 2) then cret STATUS_INVALID else
  let! src := lift (at_ args 1) in
  let! loaded := load_dat src in
  match loaded with
  | None => cret STATUS_ERROR
  | Some f =>
      let e := encode_font f in
      print (show_encoded e) ;;;
      cret STATUS_OK
  end.

End WithBackend.

End Commands.

Export Commands.

(** ** A small font and backend for the examples *)

Module Demo.

Definition demo_info : fontinfo_t := mk_fontinfo "demo" 2 2 0 2 3 0.

Definition glyph_A : glyphentry_t := mk_glyph [0; 15; 15; 0] 2 2 3 [65; 97].
Definition glyph_B : glyphentry_t := mk_glyph [15; 15; 0; 0] 2 2 3 [66].
Definition glyph_C : glyphentry_t := mk_glyph [0; 0; 0; 0] 2 2 3 [32; 67; 160].

Definition demo_font : DataFile :=
  mk_DataFile [mk_dict RLE [1; 17]; mk_dict REF [24; 24]]
    [glyph_A; glyph_B; glyph_C] demo_info.

(** A backend that stores a font under a one-line text, counts bytes
    without compressing and whose optimizer drops the last dictionary
    entry. *)
Definition demo_load (t : string) : option DataFile :=
  if bool_decide (t = "demo") then Some demo_font
  else if bool_decide (t = "empty")
       then Some (mk_DataFile (GetDictionary demo_font) [] demo_info)
  else None.

Definition demo_save (f : DataFile) : string :=
  match GetGlyphTable f with
  | [] => "empty"
  | _ :: _ => "demo"
  end.

Definition demo_size (f : DataFile) : Z :=
  16 + vsize (GetDictionary f) + 4 * vsize (GetGlyphTable f).

Definition demo_optimize (f : DataFile) (r : unit) : DataFile * unit :=
  (mk_DataFile (removelast (GetDictionary f)) (GetGlyphTable f) (GetFontInfo f), r).

Definition demo_encode (f : DataFile) : encoded_font_t :=
  mk_encoded_font
    (bytes <$> filter (fun d => kind d = RLE) (GetDictionary f))
    (bytes <$> filter (fun d => kind d = REF) (GetDictionary f))
    (data <$> GetGlyphTable f).

#[export] Instance demo_backend : Backend := {|
  rnd_t := unit;
  DataFile_Load := demo_load;
  DataFile_Save := demo_save;
  get_encoded_size := demo_size;
  optimize := demo_optimize;
  encode_font := demo_encode
|}.

(** A world with the font in [font.dat], where every save succeeds and
    the clock advances by a second per reading, for an hour. *)
Definition demo_clock (k : nat) : Z := 1000 + Z.of_nat (Nat.min k 3600).

Definition demo_world : world :=
  mk_world {[ "font.dat" := "demo" ]} fresh_stream fresh_stream tt
    (fun _ => NoFault) 0 demo_clock 0 [].

(** The same world after a filter that left no glyph. *)
Definition empty_world : world :=
  mk_world {[ "font.dat" := "empty" ]} fresh_stream fresh_stream tt
    (fun _ => NoFault) 0 demo_clock 0 [].

End Demo.

(** ** The rest of main.cc: import, export, show_glyph and the dispatch *)

Module Frontend.

Local Open Scope char_scope.

(** [s.find_last_of(c)]: position of the last [c], [npos] as [None]. *)
Fixpoint find_last_of (c : ascii) (s : string) : option nat :=
  match s with
  | EmptyString => None
  | String c' s' =>
      match find_last_of c s' with
      | Some pos => Some (S pos)
      | None => if bool_decide (c' = c) then Some O else None
      end
  end.

(** [strip_extension], lines 17-29. *)
Definition strip_extension (filename : string) : string :=
  match find_last_of "." filename with
  | None => filename
  | Some pos => substr_to pos filename
  end.

Local Close Scope char_scope.

(** [std::to_string] of an [int]: the signed decimal numeral. *)
Definition to_string (n : Z) : string := render dec 32 n.

(** [long] is 64 bits wide. *)
Definition LONG_MIN : Z := - 2 ^ 63.
Definition LONG_MAX : Z := 2 ^ 63 - 1.

(** [strtol(s, nullptr, base)]: 0 when no digit is converted, the
    nearest [long] when the value is not one.  The caller looks at
    neither the end pointer nor [errno]. *)
Definition strtol (s : string) (base : Z) : Z :=
  let '(neg, s1) := read_sign (skip_space s) in
  let '(b, s2) := read_prefix base s1 in
  match read_digits b s2 with
  | [] => 0
  | ds =>
      let v := if neg then - digits_value b ds else digits_value b ds in
      if bool_decide (v < LONG_MIN) then LONG_MIN
      else if bool_decide (LONG_MAX < v) then LONG_MAX
      else v
  end.

(** The other functions main.cc calls and does not define: the
    importers of freetype_import.cc and bdf_import.cc on the text of the
    font file, [init_dictionary] of optimize.cc, which changes the data
    file in place, the writers of c_export.cc as the text they write for
    a name and a data file, and [DataFile::GlyphToText]. *)
Class Tools : Type := {
  LoadFreetype : string -> Z -> bool -> DataFile;
  LoadBDF : string -> DataFile;
  init_dictionary : DataFile -> DataFile;
  write_header : string -> DataFile -> string;
  write_source : string -> DataFile -> string;
  GlyphToText : DataFile -> Z -> string
}.

Section WithBackend.
Context `{Backend} `{Tools}.

(** A [std::ofstream] on [dest] that is written to and closed without
    a look at its state: the file holds the text, or what was written
    before the stream failed, or is as before when it cannot be opened.
    It is one more use of the file system, counted with the saves. *)
Definition written (fault : save_fault) (dest content : string)
  (fs : gmap string string) : gmap string string :=
  match fault with
  | NoFault => <[dest := content]> fs
  | OpenFails => fs
  | WriteFails partial => <[dest := partial]> fs
  end.

Definition write_text (dest content : string) : cmd unit := fun w =>
  (Ok tt, mk_world (written (faults w (nsaves w)) dest content (files w))
            (cout w) (cerr w) (rnd w) (faults w)
            (S (nsaves w)) (clock w) (nticks w) (events w)).

(** *** cmd_import_ttf, lines 79-107 *)

Definition import_ttf_dest (src : string) (size : Z) (bw : bool) : string :=
  strip_extension src +:+ to_string size +:+ (if bw then "bw" else "") +:+ ".dat".

Definition cmd_import_ttf (args : list string) : cmd status_t :=
  if bool_decide (vsize args ≠ 3 /\ vsize args ≠ 4) then cret STATUS_INVALID else
  let! src := lift (at_ args 1) in
  let! s := lift (at_ args 2) in
  let! size := lift (stoi s 10) in
  let! bw :=
    (if bool_decide (vsize args = 4)
     then let! a := lift (at_ args 3) in cret (bool_decide (a = "bw"))
     else cret false) in
  let dest := import_ttf_dest src size bw in
  let! content := read_file src in
  match content with
  | None =>
      eprint (fun o => o << put_str "Could not open " << put_str src << endl) ;;;
      cret STATUS_ERROR
  | Some t =>
      print (fun o => o << put_str "Importing " << put_str src
                        << put_str " to " << put_str dest << endl) ;;;
      let f := init_dictionary (LoadFreetype t size bw) in
      let! saved := save_dat dest f in
      if negb saved then cret STATUS_ERROR else
      print (fun o => o << put_str "Done: " << put_size (GetGlyphCount f)
                        << put_str " unique glyphs." << endl) ;;;
      cret STATUS_OK
  end.

(** *** cmd_import_bdf, lines 109-135 *)

Definition cmd_import_bdf (args : list string) : cmd status_t :=
  if bool_decide (vsize args ≠ 2) then cret STATUS_INVALID else
  let! src := lift (at_ args 1) in
  let! a1 := lift (at_ args 1) in
  let dest := strip_extension a1 +:+ ".dat" in
  let! content := read_file src in
  match content with
  | None =>
      eprint (fun o => o << put_str "Could not open " << put_str src << endl) ;;;
      cret STATUS_ERROR
  | Some t =>
      print (fun o => o << put_str "Importing " << put_str src
                        << put_str " to " << put_str dest << endl) ;;;
      let f := init_dictionary (LoadBDF t) in
      let! saved := save_dat dest f in
      if negb saved then cret STATUS_ERROR else
      print (fun o => o << put_str "Done: " << put_size (GetGlyphCount f)
                        << put_str " unique glyphs." << endl) ;;;
      cret STATUS_OK
  end.

(** *** cmd_export, lines 137-162 *)

Definition cmd_export (args : list string) : cmd status_t :=
  if bool_decide (vsize args ≠ 3) then cret STATUS_INVALID else
  let! src := lift (at_ args 1) in
  let! dst := lift (at_ args 2) in
  let! loaded := load_dat src in
  match loaded with
  | None => cret STATUS_ERROR
  | Some f =>
      write_text (dst +:+ ".h") (write_header dst f) ;;;
      print (fun o => o << put_str "Wrote " << put_str dst << put_str ".h" << endl) ;;;
      write_text (dst +:+ ".c") (write_source dst f) ;;;
      print (fun o => o << put_str "Wrote " << put_str dst << put_str ".c" << endl) ;;;
      cret STATUS_OK
  end.

(** *** cmd_show_glyph, lines 348-390 *)

(** The loop of lines 365-373 over the encoded glyphs from number [i]
    on; the result is [index] and [maxlen]. *)
Fixpoint largest_loop (gs : list (list Z)) (maxlen index i : Z) : Z * Z :=
  match gs with
  | [] => (index, maxlen)
  | g :: gs' =>
      if bool_decide (vsize g > maxlen)
      then largest_loop gs' (vsize g) i (size_inc i)
      else largest_loop gs' maxlen index (size_inc i)
  end.

(** [index] is a [size_t]: the [long] of [strtol] is converted, and
    [index < 0] compares an unsigned number. *)
Definition cmd_show_glyph (args : list string) : cmd status_t :=
  if bool_decide (vsize args ≠ 3) then cret STATUS_INVALID else
  let! src := lift (at_ args 1) in
  let! loaded := load_dat src in
  match loaded with
  | None => cret STATUS_ERROR
  | Some f =>
      let! a := lift (at_ args 2) in
      let! index :=
        (if bool_decide (a = "largest") then
           let e := encode_font f in
           let r := largest_loop (glyphs e) 0 0 0 in
           print (fun o => o << put_str "Index " << put_size r.1
                             << put_str ", length " << put_size r.2 << endl) ;;;
           cret r.1
         else cret (wrap_size (strtol a 0))) in
      if bool_decide (index < 0 \/ index >= GetGlyphCount f) then
        eprint (fun o => o << put_str "No such glyph " << put_size index << endl) ;;;
        cret STATUS_ERROR
      else
        print (fun o => o << put_str (GlyphToText f index)) ;;;
        cret STATUS_OK
  end.

(** *** The dispatch, lines 392-433 *)

Definition usage_msg : string :=
  "Usage: mcufont <command> [options] ..." +:+ newline +:+
  "   import_ttf <ttffile> <size> [bw]   Import a .ttf font into a data file." +:+ newline +:+
  "   import_bdf <bdffile>               Import a .bdf font into a data file." +:+ newline +:+
  "   export <datfile> <basename>        Export to .c and .h source code." +:+ newline +:+
  "   filter <datfile> <range> ...       Remove everything except specified characters." +:+ newline +:+
  "   size <datfile>                     Check the encoded size of the data file." +:+ newline +:+
  "   optimize <datfile>                 Perform an optimization pass on the data file." +:+ newline +:+
  "   show_encoded <datfile>             Show the encoded data for debugging." +:+ newline +:+
  "   show_glyph <datfile> <index>       Show the glyph at index." +:+ newline.

Definition cmd_t : Type := list string -> cmd status_t.

(** The commands by name; [fuel] is what the loops of [cmd_filter] and
    [cmd_optimize] may spend. *)
Definition command_table (fuel : nat) : list (string * cmd_t) :=
  [ ("import_ttf", cmd_import_ttf);
    ("import_bdf", cmd_import_bdf);
    ("export", cmd_export);
    ("filter", cmd_filter fuel);
    ("size", cmd_size);
    ("optimize", cmd_optimize fuel);
    ("show_encoded", cmd_show_encoded);
    ("show_glyph", cmd_show_glyph) ].

Definition command_list (fuel : nat) : gmap string cmd_t :=
  list_to_map (command_table fuel).

(** [main] on [argv], the name of the program first; the result is the
    exit code. *)
Definition main (fuel : nat) (argv : list string) : cmd Z :=
  let args := drop 1 argv in
  let! status :=
    (if bool_decide (vsize args >= 1) then
       let! a0 := lift (at_ args 0) in
       match command_list fuel !! a0 with
       | Some command => command args
       | None => cret STATUS_INVALID
       end
     else cret STATUS_INVALID) in
  (match status with
   | STATUS_INVALID => print (fun o => o << put_str usage_msg << endl)
   | _ => cret tt
   end) ;;;
  cret (status_code status).

End WithBackend.

End Frontend.

Export Frontend.

(** ** Conditions on worlds and results, for the statements *)

Module Outcomes.

Section WithBackend.
Context `{Backend}.

(** The world after the line [msg src] on [std::cerr]. *)
Definition complain (msg src : string) (w : world) : world :=
  mk_world (files w) (cout w) (cerr w << put_str msg << put_str src << endl)
    (rnd w) (faults w) (nsaves w) (clock w) (nticks w) (events w).

(** The world after [f] on [std::cout]. *)
Definition printed (f : ostream -> ostream) (w : world) : world :=
  mk_world (files w) (f (cout w)) (cerr w) (rnd w) (faults w) (nsaves w)
    (clock w) (nticks w) (events w).

(** The world after [f] on [std::cerr]. *)
Definition eprinted (f : ostream -> ostream) (w : world) : world :=
  mk_world (files w) (cout w) (f (cerr w)) (rnd w) (faults w) (nsaves w)
    (clock w) (nticks w) (events w).

(** A stream with no field width set that prints numbers in decimal. *)
Definition plain (o : ostream) : Prop := fieldwidth o = 0%nat /\ base o = dec.

(** The world after the usage message. *)
Definition usage_shown (w : world) : world :=
  printed (fun o => o << put_str usage_msg << endl) w.

(** What [load_dat] complains of, if of anything. *)
Definition load_error (src : string) (w : world) : option string :=
  match files w !! src with
  | None => Some "Could not open "
  | Some t =>
      match DataFile_Load t with
      | None => Some "Invalid format for .dat file: "
      | Some _ => None
      end
  end.

(** A command that does not return [bad], in any world. *)
Definition never_returns {A} (bad : A) (c : cmd A) : Prop :=
  forall w w', c w <> (Ok bad, w').

Definition never_invalid (c : cmd status_t) : Prop :=
  never_returns STATUS_INVALID c.

End WithBackend.

(** The numbers of arguments, the name of the command included, that
    the checks at the head of the commands let pass. *)
Definition accepts (name : string) (n : Z) : bool :=
  if bool_decide (name = "import_ttf") then bool_decide (n = 3 \/ n = 4)
  else if bool_decide (name = "import_bdf") then bool_decide (n = 2)
  else if bool_decide (name = "export") then bool_decide (n = 3)
  else if bool_decide (name = "filter") then bool_decide (3 <= n)
  else if bool_decide (name = "size") then bool_decide (n = 2)
  else if bool_decide (name = "optimize") then bool_decide (n = 2 \/ n = 3)
  else if bool_decide (name = "show_encoded") then bool_decide (n = 2)
  else if bool_decide (name = "show_glyph") then bool_decide (n = 3)
  else false.

(** No command, or one that is not in the list or does not get a
    number of arguments it lets pass. *)
Definition usage_error (args : list string) : bool :=
  match args with
  | [] => true
  | a0 :: _ => negb (accepts a0 (vsize args))
  end.

(** [index] is the first of the strings of [gs] that has the greatest
    length [maxlen], or 0 when all are empty. *)
Definition first_longest (gs : list (list Z)) (index maxlen : Z) : Prop :=
  (forall g, g ∈ gs -> vsize g <= maxlen) /\
  (maxlen = 0 -> index = 0) /\
  (0 < maxlen ->
   0 <= index /\
   exists g, gs !! Z.to_nat index = Some g /\ vsize g = maxlen /\
     forall (j : nat) g', (j < Z.to_nat index)%nat -> gs !! j = Some g' ->
                          vsize g' < maxlen).

End Outcomes.

Export Outcomes.

(** Tools for the examples: both importers give the small font, the
    dictionary is left as imported, and the writers and the glyph
    printer give one line each. *)
Module FrontendDemo.
Import Demo.

Definition demo_glyph_text (f : DataFile) (i : Z) : string :=
  match GetGlyphTable f !! Z.to_nat i with
  | Some g => "glyph of " +:+ to_string (vsize (chars g)) +:+ " codes" +:+ newline
  | None => ""
  end.

#[export] Instance demo_tools : Tools := {|
  LoadFreetype := fun _ _ _ => demo_font;
  LoadBDF := fun _ => demo_font;
  init_dictionary := fun f => f;
  write_header := fun name _ => "header " +:+ name;
  write_source := fun name _ => "source " +:+ name;
  GlyphToText := demo_glyph_text
|}.

(** A world with a data file, a BDF font in a directory whose name has a
    dot, and a TrueType font. *)
Definition front_world : world :=
  mk_world {[ "font.dat" := "demo"; "fonts.d/six" := "bdf"; "sans.ttf" := "ttf" ]}
    fresh_stream fresh_stream tt (fun _ => NoFault) 0 demo_clock 0 [].

(** The same where no file can be opened for writing. *)
Definition readonly_world : world :=
  mk_world {[ "font.dat" := "demo"; "fonts.d/six" := "bdf"; "sans.ttf" := "ttf" ]}
    fresh_stream fresh_stream tt (fun _ => OpenFails) 0 demo_clock 0 [].

(** A world with the data file where the third save cannot open its
    file. *)
Definition flaky_world : world :=
  mk_world {[ "font.dat" := "demo" ]} fresh_stream fresh_stream tt
    (fun k => if Nat.eqb k 2 then OpenFails else NoFault) 0 demo_clock 0 [].

(** A world where every save succeeds and the clock, read at the start
    of the loop, then shows the second before. *)
Definition rewind_clock (k : nat) : Z := if Nat.eqb k 0 then 1000 else 999.

Definition rewind_world : world :=
  mk_world {[ "font.dat" := "demo" ]} fresh_stream fresh_stream tt
    (fun _ => NoFault) 0 rewind_clock 0 [].

End FrontendDemo.

(* ================================================================= *)
(** * Part II: theorems *)
(* ================================================================= *)

(** ** Machine arithmetic *)

Lemma size_inc_small (j : Z) : 0 <= j -> j + 1 < SIZE_MOD -> size_inc j = j + 1.
Proof.
  intros H0 H1. unfold size_inc, wrap_size. apply Z.mod_small. lia.
Qed.

(** [j--; j++] gives [j] back, also at [j = 0] where the decrement wraps. *)
Lemma size_inc_dec (j : Z) : 0 <= j < SIZE_MOD -> size_inc (size_dec j) = j.
Proof.
  intros Hj. unfold size_inc, size_dec, wrap_size.
  rewrite Zplus_mod_idemp_l.
  replace (j - 1 + 1) with j by lia. apply Z.mod_small. lia.
Qed.

Lemma int_inc_small (j : Z) : INT_MIN <= j -> j < INT_MAX -> int_inc j = j + 1.
Proof.
  unfold int_inc, wrap_int, INT_MIN, INT_MAX. intros H0 H1.
  rewrite Z.mod_small by lia. lia.
Qed.

Example size_dec_zero_wraps : size_dec 0 = 18446744073709551615.
Proof. reflexivity. Qed.

Lemma vsize_app {A} (u v : list A) : vsize (u ++ v) = vsize u + vsize v.
Proof. unfold vsize. rewrite length_app. lia. Qed.

Lemma vsize_nonneg {A} (v : list A) : 0 <= vsize v.
Proof. unfold vsize. lia. Qed.

Lemma at_middle {A} (u v : list A) (x : A) :
  at_ (u ++ x :: v) (vsize u) = Ok x.
Proof.
  unfold at_. rewrite bool_decide_eq_true_2.
  - unfold vsize at 1. rewrite Nat2Z.id.
    by rewrite list_lookup_middle.
  - rewrite vsize_app. unfold vsize. simpl. lia.
Qed.

Lemma erase_middle {A} (u v : list A) (x : A) :
  erase (u ++ x :: v) (vsize u) = u ++ v.
Proof.
  unfold erase, vsize. rewrite Nat2Z.id.
  rewrite delete_middle. reflexivity.
Qed.

(** ** The filter loops *)

Module FilterFacts.
Import Filter.

(** Loop invariant of [erase_loop]: the first [j] codes are settled. *)
Lemma erase_loop_inv (allowed : gset Z) (suf : list Z) :
  forall (pre : list Z) (fuel : nat),
    (length suf <= fuel)%nat ->
    vsize (pre ++ suf) < SIZE_MOD ->
    erase_loop fuel allowed (pre ++ suf) (vsize pre)
    = Ok (pre ++ filter (λ c, c ∈ allowed) suf).
Proof.
  induction suf as [|c suf IH]; intros pre fuel Hfuel Hsize.
  - destruct fuel; simpl;
      (rewrite bool_decide_eq_false_2; [reflexivity | rewrite vsize_app; unfold vsize; simpl; lia]).
  - destruct fuel as [|fuel]; [simpl in Hfuel; lia|].
    simpl in Hfuel.
    cbn [erase_loop].
    rewrite bool_decide_eq_true_2
      by (rewrite vsize_app; unfold vsize; simpl; lia).
    rewrite at_middle. cbn [mbind res_bind].
    rewrite vsize_app in Hsize. pose proof (vsize_nonneg pre) as Hpre.
    assert (vsize (c :: suf) = 1 + vsize suf) as Hc by (unfold vsize; simpl; lia).
    pose proof (vsize_nonneg suf) as Hsuf.
    destruct (decide (c ∈ allowed)) as [Hin|Hout].
    + rewrite bool_decide_eq_true_2 by done.
      rewrite filter_cons_True by done.
      rewrite size_inc_small by lia.
      replace (vsize pre + 1) with (vsize (pre ++ [c]))
        by (rewrite vsize_app; unfold vsize; simpl; lia).
      replace (pre ++ c :: suf) with ((pre ++ [c]) ++ suf)
        by (by rewrite <- app_assoc).
      rewrite IH.
      * by rewrite <- app_assoc.
      * lia.
      * rewrite !vsize_app. unfold vsize at 2. simpl. lia.
    + rewrite bool_decide_eq_false_2 by done.
      rewrite filter_cons_False by done.
      rewrite erase_middle, size_inc_dec by lia.
      apply IH; [lia|]. rewrite vsize_app. lia.
Qed.

Lemma filter_chars_spec (allowed : gset Z) (cs : list Z) :
  vsize cs < SIZE_MOD ->
  filter_chars allowed cs = Ok (filter (λ c, c ∈ allowed) cs).
Proof.
  intros H. unfold filter_chars.
  apply (erase_loop_inv allowed cs [] (length cs)); [lia | done].
Qed.

End FilterFacts.

Module FilterTheorems.
Import Filter FilterFacts.

Lemma keep_glyph_Some (allowed : gset Z) (g g' : glyphentry_t) :
  keep_glyph allowed g = Some g' ->
  survives allowed g /\ bitmap g' = bitmap g /\
  chars g' = allowed_codes allowed g.
Proof.
  unfold keep_glyph, survives. destruct (allowed_codes allowed g) eqn:E; [done|].
  intros [= <-]. done.
Qed.

Lemma keep_glyph_None (allowed : gset Z) (g : glyphentry_t) :
  keep_glyph allowed g = None <-> ¬ survives allowed g.
Proof.
  unfold keep_glyph, survives. destruct (allowed_codes allowed g); naive_solver.
Qed.

(** Loop invariant of [glyph_loop]: glyphs before [i] are settled. *)
Lemma glyph_loop_inv (allowed : gset Z) (f : DataFile) (suf : list glyphentry_t) :
  forall (pre acc : list glyphentry_t) (fuel : nat),
    GetGlyphTable f = pre ++ suf ->
    representable f ->
    (length suf <= fuel)%nat ->
    glyph_loop fuel allowed f (vsize pre) acc
    = Ok (acc ++ omap (keep_glyph allowed) suf).
Proof.
  induction suf as [|g suf IH]; intros pre acc fuel Htab Hrep Hfuel.
  - destruct fuel; simpl; unfold GetGlyphCount; rewrite Htab, app_nil_r;
      (rewrite bool_decide_eq_false_2 by lia); by rewrite app_nil_r.
  - destruct fuel as [|fuel]; [simpl in Hfuel; lia|]. simpl in Hfuel.
    destruct Hrep as [Hcount Hall].
    assert (vsize (chars g) < SIZE_MOD) as Hg.
    { rewrite Forall_forall in Hall. apply Hall. rewrite Htab.
      apply elem_of_app. right. apply elem_of_cons. by left. }
    pose proof (vsize_nonneg pre) as Hpre.
    assert (vsize pre + 1 + vsize suf < SIZE_MOD) as Hlt.
    { rewrite Htab, vsize_app in Hcount. unfold vsize in *. simpl in Hcount. lia. }
    pose proof (vsize_nonneg suf) as Hsuf.
    cbn [glyph_loop]. unfold GetGlyphCount, GetGlyphEntry. rewrite Htab.
    rewrite bool_decide_eq_true_2
      by (rewrite vsize_app; unfold vsize; simpl; lia).
    rewrite at_middle. cbn [mbind res_bind].
    rewrite filter_chars_spec by done. cbn [mbind res_bind].
    rewrite size_inc_small by lia.
    replace (vsize pre + 1) with (vsize (pre ++ [g]))
      by (rewrite vsize_app; unfold vsize; simpl; lia).
    assert (GetGlyphTable f = (pre ++ [g]) ++ suf) as Htab'
      by (by rewrite <- app_assoc).
    change (omap (keep_glyph allowed) (g :: suf))
      with (match keep_glyph allowed g with
            | Some y => y :: omap (keep_glyph allowed) suf
            | None => omap (keep_glyph allowed) suf
            end).
    unfold keep_glyph at 1, allowed_codes.
    destruct (filter (λ c, c ∈ allowed) (chars g)) as [|c cs] eqn:E.
    + rewrite bool_decide_eq_false_2 by (simpl; unfold vsize; simpl; lia).
      apply IH; [done | done | lia].
    + rewrite bool_decide_eq_true_2 by (simpl; unfold vsize; simpl; lia).
      rewrite (IH (pre ++ [g]) _ fuel Htab' (conj Hcount Hall)) by lia.
      by rewrite <- app_assoc.
Qed.

Lemma filter_glyphs_spec (allowed : gset Z) (f : DataFile) :
  representable f ->
  filter_glyphs allowed f = Ok (omap (keep_glyph allowed) (GetGlyphTable f)).
Proof.
  intros Hrep. unfold filter_glyphs.
  apply (glyph_loop_inv allowed f (GetGlyphTable f) [] [] _ eq_refl Hrep).
  lia.
Qed.

Lemma filter_datafile_spec (allowed : gset Z) (f : DataFile) :
  representable f ->
  filter_datafile allowed f
  = Ok (mk_DataFile (GetDictionary f)
          (omap (keep_glyph allowed) (GetGlyphTable f)) (GetFontInfo f)).
Proof.
  intros Hrep. unfold filter_datafile. by rewrite filter_glyphs_spec.
Qed.

Lemma omap_keep_bitmaps (allowed : gset Z) (gl : list glyphentry_t) :
  bitmap <$> omap (keep_glyph allowed) gl
  = bitmap <$> filter (survives allowed) gl.
Proof.
  induction gl as [|g gl IH]; [done|].
  cbn [omap list_omap]. destruct (keep_glyph allowed g) as [g'|] eqn:E.
  - apply keep_glyph_Some in E as (Hs & Hb & _).
    rewrite filter_cons_True by done. cbn [fmap list_fmap].
    f_equal; [done|]. apply IH.
  - apply keep_glyph_None in E. by rewrite filter_cons_False.
Qed.

Lemma omap_keep_chars (allowed : gset Z) (gl : list glyphentry_t) :
  chars <$> omap (keep_glyph allowed) gl
  = allowed_codes allowed <$> filter (survives allowed) gl.
Proof.
  induction gl as [|g gl IH]; [done|].
  cbn [omap list_omap]. destruct (keep_glyph allowed g) as [g'|] eqn:E.
  - apply keep_glyph_Some in E as (Hs & _ & Hc).
    rewrite filter_cons_True by done. cbn [fmap list_fmap].
    f_equal; [done|]. apply IH.
  - apply keep_glyph_None in E. by rewrite filter_cons_False.
Qed.

(** A kept glyph comes from a glyph of the input. *)
Lemma omap_keep_origin (allowed : gset Z) (gl : list glyphentry_t) (g' : glyphentry_t) :
  g' ∈ omap (keep_glyph allowed) gl ->
  exists g, g ∈ gl /\ bitmap g' = bitmap g /\
            chars g' = allowed_codes allowed g.
Proof.
  intros H. apply list_elem_of_omap in H as (g & Hg & Hk).
  exists g. apply keep_glyph_Some in Hk as (_ & Hb & Hc). done.
Qed.

Lemma allowed_codes_elem (allowed : gset Z) (g : glyphentry_t) (c : Z) :
  c ∈ allowed_codes allowed g <-> c ∈ chars g /\ c ∈ allowed.
Proof.
  unfold allowed_codes. rewrite list_elem_of_filter. tauto.
Qed.

(** Uniqueness of codes, glyph by glyph. *)
Lemma codes_unique_cons (g : glyphentry_t) (gl : list glyphentry_t) :
  codes_unique (g :: gl) <->
  (forall c g2, c ∈ chars g -> g2 ∈ gl -> c ∉ chars g2) /\ codes_unique gl.
Proof.
  unfold codes_unique. split.
  - intros H. split.
    + intros c g2 Hc Hg2 Hc2.
      apply list_elem_of_lookup in Hg2 as [j Hj].
      specialize (H 0%nat (S j) g g2 c eq_refl Hj Hc Hc2). discriminate.
    + intros i j g1 g2 c Hi Hj H1 H2.
      specialize (H (S i) (S j) g1 g2 c Hi Hj H1 H2). by injection H.
  - intros [Hhead Htail] i j g1 g2 c Hi Hj H1 H2.
    destruct i as [|i], j as [|j]; simpl in Hi, Hj.
    + done.
    + injection Hi as <-. exfalso.
      eapply Hhead; [exact H1 | | exact H2].
      apply list_elem_of_lookup. by exists j.
    + injection Hj as <-. exfalso.
      eapply Hhead; [exact H2 | | exact H1].
      apply list_elem_of_lookup. by exists i.
    + f_equal. by eapply Htail.
Qed.

Lemma omap_keep_unique (allowed : gset Z) (gl : list glyphentry_t) :
  codes_unique gl -> codes_unique (omap (keep_glyph allowed) gl).
Proof.
  induction gl as [|g gl IH]; [done|].
  intros [Hhead Htail]%codes_unique_cons.
  cbn [omap list_omap]. destruct (keep_glyph allowed g) as [g'|] eqn:E; [|auto].
  apply keep_glyph_Some in E as (_ & _ & Hc).
  apply codes_unique_cons. split; [|auto].
  intros c g2' Hc1 Hg2' Hc2.
  apply omap_keep_origin in Hg2' as (g2 & Hg2 & _ & Hc2').
  rewrite Hc in Hc1. rewrite Hc2' in Hc2.
  apply allowed_codes_elem in Hc1 as [Hc1 _].
  apply allowed_codes_elem in Hc2 as [Hc2 _].
  by eapply Hhead.
Qed.

Lemma StronglySorted_filter_lt (allowed : gset Z) (cs : list Z) :
  StronglySorted Z.lt cs ->
  StronglySorted Z.lt (filter (λ c, c ∈ allowed) cs).
Proof.
  induction 1 as [|c cs Hs IH Hall]; [constructor|].
  destruct (decide (c ∈ allowed)).
  - rewrite filter_cons_True by done. constructor; [done|].
    rewrite Forall_forall in *. intros x [_ Hx]%list_elem_of_filter. by apply Hall.
  - by rewrite filter_cons_False.
Qed.

(** The filtered data file passes the validation of the constructor
    when the input did. *)
Lemma filter_keeps_invariants (allowed : gset Z) (f f' : DataFile) :
  representable f -> datafile_ok f ->
  filter_datafile allowed f = Ok f' -> datafile_ok f'.
Proof.
  intros Hrep (Hdict & Hglyphs & Huniq) Hf.
  rewrite filter_datafile_spec in Hf by done. injection Hf as <-.
  unfold datafile_ok. cbn [GetDictionary GetGlyphTable GetFontInfo].
  split; [done|]. split; [|by apply omap_keep_unique].
  rewrite Forall_forall in *. intros g' Hg'.
  apply list_elem_of_omap in Hg' as (g & Hg & Hk).
  destruct (Hglyphs g Hg) as (Hw & Hh & _ & Hsorted).
  apply keep_glyph_Some in Hk as (Hsurv & Hb & Hc).
  injection Hb as _ Hw' Hh' _.
  unfold glyph_ok. rewrite Hc. repeat split; try congruence.
  by apply StronglySorted_filter_lt.
Qed.

(** C1: on every data file and for every allowed set the filter drops
    exactly the glyphs that are left without a character code once the
    disallowed codes are removed; the bitmap (data, width, height,
    advance) of every glyph that stays, in the same order, the
    dictionary and the font info are those of the input. *)
Theorem filter_frame (allowed : gset Z) (f : DataFile) :
  representable f ->
  exists f' : DataFile,
    filter_datafile allowed f = Ok f' /\
    GetDictionary f' = GetDictionary f /\
    GetFontInfo f' = GetFontInfo f /\
    GetGlyphTable f' = omap (keep_glyph allowed) (GetGlyphTable f) /\
    (forall g, keep_glyph allowed g = None <-> ¬ survives allowed g) /\
    (forall g g', keep_glyph allowed g = Some g' -> bitmap g' = bitmap g) /\
    bitmap <$> GetGlyphTable f'
    = bitmap <$> filter (survives allowed) (GetGlyphTable f).
Proof.
  intros Hrep. eexists. split; [by apply filter_datafile_spec|].
  cbn [GetDictionary GetFontInfo GetGlyphTable].
  split; [done|]. split; [done|]. split; [done|].
  split; [apply keep_glyph_None|].
  split; [|apply omap_keep_bitmaps].
  intros g g' Hk. by apply keep_glyph_Some in Hk as (_ & ? & _).
Qed.

(** C2: after the filter the code list of every glyph that stays is
    its original list without the codes outside the allowed set, in the
    original order; every code in the result is allowed; and codes that
    were unique to one glyph in the input are so in the result. *)
Theorem filter_codes (allowed : gset Z) (f : DataFile) :
  representable f ->
  exists f' : DataFile,
    filter_datafile allowed f = Ok f' /\
    chars <$> GetGlyphTable f'
    = filter (λ c, c ∈ allowed) <$>
        (chars <$> filter (survives allowed) (GetGlyphTable f)) /\
    (forall g' c, g' ∈ GetGlyphTable f' -> c ∈ chars g' -> c ∈ allowed) /\
    (codes_unique (GetGlyphTable f) -> codes_unique (GetGlyphTable f')).
Proof.
  intros Hrep. eexists. split; [by apply filter_datafile_spec|].
  cbn [GetGlyphTable]. split; [|split].
  - rewrite omap_keep_chars. by rewrite <- list_fmap_compose.
  - intros g' c Hg' Hc. apply omap_keep_origin in Hg' as (g & _ & _ & Hcs).
    rewrite Hcs in Hc. by apply allowed_codes_elem in Hc as [_ ?].
  - apply omap_keep_unique.
Qed.

End FilterTheorems.

(** ** Parsing the character set of the filter command *)

Module ParseTheorems.

(** The range loop, when the upper end is below [INT_MAX]. *)
Lemma range_loop_spec (fuel : nat) :
  forall (allowed : gset Z) (j e : Z),
    INT_MIN <= j -> e < INT_MAX ->
    (Z.to_nat (e - j + 1) <= fuel)%nat ->
    exists S : gset Z,
      range_loop fuel allowed j e = Ok S /\
      forall x, x ∈ S <-> x ∈ allowed \/ j <= x <= e.
Proof.
  induction fuel as [|fuel IH]; intros allowed j e Hj He Hfuel.
  - exists allowed. simpl. rewrite bool_decide_eq_false_2 by lia.
    split; [done|]. intros x. split; [auto|]. intros [?|?]; [done|lia].
  - cbn [range_loop]. destruct (decide (j <= e)) as [Hle|Hgt].
    + rewrite bool_decide_eq_true_2 by done.
      rewrite int_inc_small by lia.
      destruct (IH ({[j]} ∪ allowed) (j + 1) e) as (S & HS & Hmem); [lia|lia|lia|].
      exists S. split; [done|]. intros x. rewrite Hmem.
      rewrite elem_of_union, elem_of_singleton.
      destruct (decide (x = j)) as [->|Hne]; [split; intros _; [right; lia | auto]|].
      split; [intros [[?|?]|?]|intros [?|?]]; try done; auto; right; lia.
    + exists allowed. rewrite bool_decide_eq_false_2 by done.
      split; [done|]. intros x. split; [auto|]. intros [?|?]; [done|lia].
Qed.

(** At the upper end [INT_MAX] the loop condition never fails. *)
Lemma range_loop_int_max (fuel : nat) :
  forall (allowed : gset Z) (j : Z),
    INT_MIN <= j <= INT_MAX ->
    range_loop fuel allowed j INT_MAX = OutOfFuel.
Proof.
  induction fuel as [|fuel IH]; intros allowed j Hj; cbn [range_loop];
    rewrite bool_decide_eq_true_2 by lia; [done|].
  apply IH. unfold int_inc, wrap_int, INT_MIN, INT_MAX in *.
  pose proof (Z.mod_pos_bound (j + 1 - - 2 ^ 31) (2 ^ 32)). lia.
Qed.

(** What [stoi] returns is an [int]. *)
Lemma stoi_in_int (s : string) (base v : Z) :
  stoi s base = Ok v -> INT_MIN <= v <= INT_MAX.
Proof.
  unfold stoi. destruct (read_sign (skip_space s)) as [neg s1].
  destruct (read_prefix base s1) as [b s2].
  destruct (read_digits b s2) as [|d ds]; [done|].
  case_bool_decide; [|done]. by intros [= <-].
Qed.

Lemma stoi_empty (base : Z) : stoi "" base = Throw invalid_argument.
Proof.
  unfold stoi. cbn [skip_space read_sign].
  unfold read_prefix. by repeat case_bool_decide.
Qed.

Lemma digit_in_digit_char (b d : Z) :
  0 <= d < b -> b <= 16 -> digit_in b (digit_char d) = Some d.
Proof.
  intros Hd Hb. unfold digit_in.
  assert (d = 0 \/ d = 1 \/ d = 2 \/ d = 3 \/ d = 4 \/ d = 5 \/ d = 6 \/ d = 7 \/
          d = 8 \/ d = 9 \/ d = 10 \/ d = 11 \/ d = 12 \/ d = 13 \/ d = 14 \/ d = 15)
    as Hcases by lia.
  repeat (destruct Hcases as [->|Hcases]); try subst d;
    match goal with
    | |- context [digit_value (digit_char ?k)] =>
        let v := eval vm_compute in (digit_value (digit_char k)) in
        change (digit_value (digit_char k)) with v
    end;
    cbv beta iota; by rewrite bool_decide_eq_true_2 by lia.
Qed.

Lemma read_digits_numeral (b : Z) (ds : list Z) :
  b <= 16 -> Forall (fun d => 0 <= d < b) ds ->
  read_digits b (numeral ds) = ds.
Proof.
  intros Hb Hall. induction Hall as [|d ds Hd Hall IH]; [done|].
  cbn [numeral read_digits]. rewrite digit_in_digit_char by done.
  by rewrite IH.
Qed.

(** A digit is no space, no sign, and not the letter of a prefix. *)
Lemma digit_char_plain (d : Z) :
  0 <= d < 16 ->
  isspace (digit_char d) = false /\
  digit_char d <> "-"%char /\ digit_char d <> "+"%char /\
  digit_char d <> "x"%char /\ digit_char d <> "X"%char /\
  (digit_char d = "0"%char <-> d = 0).
Proof.
  intros Hd.
  assert (d = 0 \/ d = 1 \/ d = 2 \/ d = 3 \/ d = 4 \/ d = 5 \/ d = 6 \/ d = 7 \/
          d = 8 \/ d = 9 \/ d = 10 \/ d = 11 \/ d = 12 \/ d = 13 \/ d = 14 \/ d = 15)
    as Hcases by lia.
  repeat (destruct Hcases as [->|Hcases]); try subst d;
    do 5 (split; [by vm_compute|]);
    (split; [vm_compute; intros; (done || lia) | intros; (done || lia)]).
Qed.

Lemma read_sign_plain (c : ascii) (s : string) :
  c <> "-"%char -> c <> "+"%char -> read_sign (String c s) = (false, String c s).
Proof.
  intros Hm Hp.
  destruct c as [[] [] [] [] [] [] [] []]; try reflexivity; congruence.
Qed.

Lemma read_prefix_decimal (c : ascii) (s : string) :
  c <> "0"%char -> read_prefix 0 (String c s) = (10, String c s).
Proof.
  intros H0.
  destruct c as [[] [] [] [] [] [] [] []]; try reflexivity; congruence.
Qed.

Lemma read_prefix_octal (c : ascii) (s : string) :
  c <> "x"%char -> c <> "X"%char ->
  read_prefix 0 (String "0" (String c s)) = (8, String "0" (String c s)).
Proof.
  intros Hx HX. cbn [read_prefix]. destruct s as [|h s].
  - reflexivity.
  - rewrite (bool_decide_eq_false_2 (c = "x"%char \/ c = "X"%char)) by tauto.
    by rewrite andb_false_r.
Qed.

Lemma read_prefix_hex (d : Z) (s : string) :
  0 <= d < 16 ->
  read_prefix 0 (String "0" (String "x" (String (digit_char d) s)))
  = (16, String (digit_char d) s).
Proof.
  intros Hd. cbn [read_prefix].
  rewrite digit_in_digit_char by lia.
  rewrite (bool_decide_eq_true_2 (0 = 0 \/ 0 = 16)) by (by left).
  rewrite (bool_decide_eq_true_2 (_ \/ _)) by (by left).
  by rewrite (bool_decide_eq_true_2 (is_Some _)) by (by eexists).
Qed.

Lemma digits_value_nonneg (b : Z) (ds : list Z) :
  0 <= b -> Forall (fun d => 0 <= d < b) ds -> 0 <= digits_value b ds.
Proof.
  intros Hb Hall. unfold digits_value.
  assert (forall acc, 0 <= acc -> 0 <= foldl (fun acc d => acc * b + d) acc ds) as Hgen.
  { induction Hall as [|d ds Hd Hall IH]; intros acc Hacc; [done|].
    cbn [foldl]. apply IH. nia. }
  apply Hgen. lia.
Qed.

(** [stoi] at the numeral of the digits [ds] in base [b], read in base
    [b], once space, sign and prefix are dealt with. *)
Lemma stoi_digits (s : string) (base b : Z) (ds : list Z) :
  read_sign (skip_space s) = (false, s) ->
  read_prefix base s = (b, numeral ds) ->
  ds <> [] -> 2 <= b <= 16 ->
  Forall (fun d => 0 <= d < b) ds ->
  digits_value b ds <= INT_MAX ->
  stoi s base = Ok (digits_value b ds).
Proof.
  intros Hsign Hprefix Hne Hb Hall Hmax. unfold stoi.
  rewrite Hsign, Hprefix, read_digits_numeral by (done || lia).
  destruct ds as [|d ds']; [done|].
  pose proof (digits_value_nonneg b (d :: ds')) as Hnn.
  rewrite bool_decide_eq_true_2; [done|].
  unfold INT_MIN. split; [|done]. etrans; [|apply Hnn]; [lia|lia|done].
Qed.

Lemma stoi_decimal (d : Z) (ds : list Z) :
  1 <= d -> Forall (fun x => 0 <= x < 10) (d :: ds) ->
  digits_value 10 (d :: ds) <= INT_MAX ->
  stoi (numeral (d :: ds)) 0 = Ok (digits_value 10 (d :: ds)).
Proof.
  intros Hd Hall Hmax.
  assert (0 <= d < 16) as Hd16 by (inversion Hall; lia).
  destruct (digit_char_plain d Hd16) as (Hsp & Hm & Hp & _ & _ & H0).
  apply stoi_digits; try done; try lia.
  - cbn [numeral skip_space]. rewrite Hsp. by apply read_sign_plain.
  - cbn [numeral]. apply read_prefix_decimal. rewrite H0. lia.
Qed.

Lemma stoi_hex (ds : list Z) :
  ds <> [] -> Forall (fun x => 0 <= x < 16) ds ->
  digits_value 16 ds <= INT_MAX ->
  stoi ("0x" +:+ numeral ds) 0 = Ok (digits_value 16 ds).
Proof.
  intros Hne Hall Hmax. destruct ds as [|d ds]; [done|].
  assert (0 <= d < 16) as Hd16 by (by inversion Hall).
  apply stoi_digits; try done; try lia.
  cbn [String.append numeral]. by apply read_prefix_hex.
Qed.

Lemma stoi_octal (ds : list Z) :
  Forall (fun x => 0 <= x < 8) ds ->
  digits_value 8 ds <= INT_MAX ->
  stoi ("0" +:+ numeral ds) 0 = Ok (digits_value 8 ds).
Proof.
  intros Hall Hmax.
  change (digits_value 8 ds) with (digits_value 8 (0 :: ds)) in *.
  apply stoi_digits; try done; try lia.
  - cbn [String.append]. destruct ds as [|d ds]; [done|].
    assert (0 <= d < 16) as Hd16 by (inversion Hall; lia).
    destruct (digit_char_plain d Hd16) as (_ & _ & _ & Hx & HX & _).
    cbn [numeral]. change (digit_char 0) with "0"%char.
    by apply read_prefix_octal.
  - by constructor.
Qed.

(** Splitting an argument at its first dash. *)
Lemma find_dash_app (sa sb : string) :
  find "-" sa = None ->
  find "-" (sa +:+ String "-" sb) = Some (String.length sa) /\
  substr_to (String.length sa) (sa +:+ String "-" sb) = sa /\
  substr_from (S (String.length sa)) (sa +:+ String "-" sb) = sb.
Proof.
  induction sa as [|c sa IH]; intros Hfind.
  - done.
  - cbn [find] in Hfind. case_bool_decide as Hc; [done|].
    destruct (find "-" sa) eqn:E; [done|].
    destruct IH as (IH1 & IH2 & IH3); [done|].
    change (String c sa +:+ String "-" sb)
      with (String c (sa +:+ String "-" sb)).
    change (String.length (String c sa)) with (S (String.length sa)).
    split; [|split].
    + cbn [find]. rewrite bool_decide_eq_false_2 by done. by rewrite IH1.
    + cbn [substr_to]. by rewrite IH2.
    + change (substr_from (S (S (String.length sa)))
                (String c (sa +:+ String "-" sb)))
        with (substr_from (S (String.length sa)) (sa +:+ String "-" sb)).
      done.
Qed.

Section WithBackend.
Context `{Backend}.

Lemma parse_arg_single (fuel : nat) (allowed : gset Z) (s : string) (v : Z) :
  find "-" s = None -> stoi s 0 = Ok v ->
  parse_arg fuel allowed s = Ok ({[v]} ∪ allowed).
Proof. intros Hf Hs. unfold parse_arg. by rewrite Hf, Hs. Qed.

Lemma parse_arg_range (fuel : nat) (allowed : gset Z) (sa sb : string) (a b : Z) :
  find "-" sa = None -> stoi sa 0 = Ok a -> stoi sb 0 = Ok b ->
  b < INT_MAX -> (Z.to_nat (b - a + 1) <= fuel)%nat ->
  exists S : gset Z,
    parse_arg fuel allowed (sa +:+ String "-" sb) = Ok S /\
    forall x, x ∈ S <-> x ∈ allowed \/ a <= x <= b.
Proof.
  intros Hf Ha Hb Hmax Hfuel.
  destruct (find_dash_app sa sb Hf) as (H1 & H2 & H3).
  unfold parse_arg. rewrite H1, H2, H3, Ha, Hb. cbn [mbind res_bind].
  apply range_loop_spec; [|done|done].
  by apply stoi_in_int in Ha as [? _].
Qed.

Lemma parse_arg_dash (fuel : nat) (allowed : gset Z) (rest : string) :
  parse_arg fuel allowed (String "-" rest) = Throw invalid_argument.
Proof.
  unfold parse_arg. cbn [find]. rewrite bool_decide_eq_true_2 by done.
  cbn [substr_to]. by rewrite stoi_empty.
Qed.

Lemma parse_args_dash (fuel : nat) (args : list string) (rest : string) :
  String "-" rest ∈ args ->
  forall allowed S, parse_args fuel allowed args <> Ok S.
Proof.
  induction args as [|s args IH]; intros Hin allowed S.
  - by apply not_elem_of_nil in Hin.
  - cbn [parse_args]. apply elem_of_cons in Hin as [<-|Hin].
    + by rewrite parse_arg_dash.
    + destruct (parse_arg fuel allowed s); try done. cbn [mbind res_bind]. by apply IH.
Qed.

Lemma cmd_filter_dash (fuel : nat) (args : list string) (w : world)
  (i : nat) (rest : string) :
  (2 <= i)%nat -> args !! i = Some (String "-" rest) ->
  forall status, (cmd_filter fuel args w).1 <> Ok status.
Proof.
  intros Hi Hlook status.
  assert (String "-" rest ∈ drop 2 args) as Hin.
  { apply list_elem_of_lookup. exists (i - 2)%nat. rewrite lookup_drop.
    by replace (2 + (i - 2))%nat with i by lia. }
  unfold cmd_filter.
  apply lookup_lt_Some in Hlook.
  rewrite bool_decide_eq_false_2 by (unfold vsize; lia).
  unfold cbind at 1, lift at 1.
  pose proof (parse_args_dash fuel (drop 2 args) rest Hin ∅) as Hno.
  destruct (parse_args fuel ∅ (drop 2 args)); try done. by specialize (Hno a).
Qed.

(** The dash argument first among the character sets: the exception
    leaves before anything is read or written. *)
Lemma cmd_filter_dash_first (fuel : nat) (a0 src rest : string)
  (more : list string) (w : world) :
  cmd_filter fuel (a0 :: src :: String "-" rest :: more) w
  = (Throw invalid_argument, w).
Proof.
  unfold cmd_filter.
  rewrite bool_decide_eq_false_2 by (unfold vsize; cbn [length]; lia).
  cbn [drop parse_args]. rewrite parse_arg_dash. done.
Qed.

Lemma parse_arg_empty_range (fuel : nat) (allowed : gset Z) (sa sb : string) (a b : Z) :
  find "-" sa = None -> stoi sa 0 = Ok a -> stoi sb 0 = Ok b ->
  b < a ->
  parse_arg fuel allowed (sa +:+ String "-" sb) = Ok allowed.
Proof.
  intros Hf Ha Hb Hlt.
  destruct (find_dash_app sa sb Hf) as (H1 & H2 & H3).
  unfold parse_arg. rewrite H1, H2, H3, Ha, Hb. cbn [mbind res_bind].
  destruct fuel; cbn [range_loop]; by rewrite bool_decide_eq_false_2 by lia.
Qed.

(** A range up to [INT_MAX] keeps the loop running: its counter cannot
    pass the bound. *)
Lemma parse_arg_range_int_max (fuel : nat) (allowed : gset Z) (sa sb : string) (a : Z) :
  find "-" sa = None -> stoi sa 0 = Ok a -> stoi sb 0 = Ok INT_MAX ->
  parse_arg fuel allowed (sa +:+ String "-" sb) = OutOfFuel.
Proof.
  intros Hf Ha Hb.
  destruct (find_dash_app sa sb Hf) as (H1 & H2 & H3).
  unfold parse_arg. rewrite H1, H2, H3, Ha, Hb. cbn [mbind res_bind].
  apply range_loop_int_max. by apply stoi_in_int in Ha.
Qed.

(** C10: the arguments of the filter command are read in base 0, so
    decimal numerals, hexadecimal ones after 0x and octal ones after 0 are
    accepted; an argument without a dash adds its one code to the allowed
    set; an argument a-b adds every integer from a to b, both included
    (the upper end below [INT_MAX], where the loop counter can pass it),
    and none when a > b; an argument that starts with a dash has nothing
    before the dash, [std::stoi] throws [std::invalid_argument] on it,
    and the command returns no status. *)
Theorem filter_charset_parsing :
  (forall d ds,
      1 <= d -> Forall (fun x => 0 <= x < 10) (d :: ds) ->
      digits_value 10 (d :: ds) <= INT_MAX ->
      stoi (numeral (d :: ds)) 0 = Ok (digits_value 10 (d :: ds))) /\
  (forall ds,
      ds <> [] -> Forall (fun x => 0 <= x < 16) ds ->
      digits_value 16 ds <= INT_MAX ->
      stoi ("0x" +:+ numeral ds) 0 = Ok (digits_value 16 ds)) /\
  (forall ds,
      Forall (fun x => 0 <= x < 8) ds ->
      digits_value 8 ds <= INT_MAX ->
      stoi ("0" +:+ numeral ds) 0 = Ok (digits_value 8 ds)) /\
  (forall fuel allowed s v,
      find "-" s = None -> stoi s 0 = Ok v ->
      parse_arg fuel allowed s = Ok ({[v]} ∪ allowed)) /\
  (forall fuel allowed sa sb a b,
      find "-" sa = None -> stoi sa 0 = Ok a -> stoi sb 0 = Ok b ->
      b < INT_MAX -> (Z.to_nat (b - a + 1) <= fuel)%nat ->
      exists S : gset Z,
        parse_arg fuel allowed (sa +:+ String "-" sb) = Ok S /\
        forall x, x ∈ S <-> x ∈ allowed \/ a <= x <= b) /\
  (forall fuel allowed sa sb a b,
      find "-" sa = None -> stoi sa 0 = Ok a -> stoi sb 0 = Ok b ->
      b < a ->
      parse_arg fuel allowed (sa +:+ String "-" sb) = Ok allowed) /\
  (forall fuel allowed rest,
      find "-" (String "-" rest) = Some 0%nat /\
      substr_to 0 (String "-" rest) = "" /\
      stoi "" 0 = Throw invalid_argument /\
      parse_arg fuel allowed (String "-" rest) = Throw invalid_argument) /\
  (forall fuel args (w : world) (i : nat) rest,
      (2 <= i)%nat -> args !! i = Some (String "-" rest) ->
      forall status, (cmd_filter fuel args w).1 <> Ok status) /\
  (forall fuel a0 src rest more (w : world),
      cmd_filter fuel (a0 :: src :: String "-" rest :: more) w
      = (Throw invalid_argument, w)).
Proof.
  split; [exact stoi_decimal|].
  split; [exact stoi_hex|].
  split; [exact stoi_octal|].
  split; [exact parse_arg_single|].
  split; [exact parse_arg_range|].
  split; [exact parse_arg_empty_range|].
  split; [|split; [exact cmd_filter_dash | exact cmd_filter_dash_first]].
  intros fuel allowed rest.
  split; [done|]. split; [done|]. split; [apply stoi_empty|apply parse_arg_dash].
Qed.

End WithBackend.

End ParseTheorems.

Module ParseWitness.
Import ParseTheorems Demo.

Lemma filter_charset_parsing_witness :
  stoi "65" 0 = Ok 65 /\ stoi "0x41" 0 = Ok 65 /\ stoi "0101" 0 = Ok 65 /\
  parse_arg 0 ∅ "65" = Ok ({[65]} ∪ ∅) /\
  (exists S : gset Z,
      parse_arg 3 ∅ "65-67" = Ok S /\
      forall x, x ∈ S <-> x ∈ (∅ : gset Z) \/ 65 <= x <= 67) /\
  parse_arg 0 {[1]} "9-3" = Ok {[1]} /\
  parse_arg 0 ∅ "-5" = Throw invalid_argument /\
  (forall status,
      (cmd_filter 0 ["filter"; "font.dat"; "65"; "-5"] demo_world).1 <> Ok status) /\
  cmd_filter 0 ["filter"; "font.dat"; "-5"] demo_world
  = (Throw invalid_argument, demo_world).
Proof.
  destruct (filter_charset_parsing (H := demo_backend))
    as (Hdec & Hhex & Hoct & Hsingle & Hrange & Hempty & Hdash & Hcmd & Hfirst).
  split.
  { apply (Hdec 6 [5]); [lia | repeat constructor; lia | by vm_compute]. }
  split.
  { apply (Hhex [4; 1]); [done | repeat constructor; lia | by vm_compute]. }
  split.
  { apply (Hoct [1; 0; 1]); [repeat constructor; lia | by vm_compute]. }
  split.
  { apply (Hsingle 0%nat ∅ "65" 65); reflexivity. }
  split.
  { apply (Hrange 3%nat ∅ "65" "67" 65 67);
      [reflexivity | reflexivity | reflexivity | by vm_compute | by vm_compute]. }
  split.
  { apply (Hempty 0%nat {[1]} "9" "3" 9 3); [reflexivity | reflexivity | reflexivity | lia]. }
  split.
  { apply (Hdash 0%nat ∅ "5"). }
  split.
  { apply (Hcmd 0%nat ["filter"; "font.dat"; "65"; "-5"] demo_world 3%nat "5");
      [lia | reflexivity]. }
  apply (Hfirst 0%nat "filter" "font.dat" "5" [] demo_world).
Defined.

End ParseWitness.

Module FilterWitness.
Import Filter FilterTheorems Demo.

Lemma demo_font_representable : representable demo_font.
Proof.
  split; [by vm_compute|]. repeat constructor; by vm_compute.
Defined.

Lemma filter_frame_witness :
  representable demo_font /\
  exists f' : DataFile,
    filter_datafile {[65; 66]} demo_font = Ok f' /\
    GetDictionary f' = GetDictionary demo_font /\
    GetFontInfo f' = GetFontInfo demo_font /\
    GetGlyphTable f' = omap (keep_glyph {[65; 66]}) (GetGlyphTable demo_font) /\
    (forall g, keep_glyph {[65; 66]} g = None <-> ¬ survives {[65; 66]} g) /\
    (forall g g', keep_glyph {[65; 66]} g = Some g' -> bitmap g' = bitmap g) /\
    bitmap <$> GetGlyphTable f'
    = bitmap <$> filter (survives {[65; 66]}) (GetGlyphTable demo_font).
Proof.
  split; [exact demo_font_representable|].
  apply (filter_frame {[65; 66]} demo_font). exact demo_font_representable.
Defined.

Lemma filter_codes_witness :
  representable demo_font /\
  exists f' : DataFile,
    filter_datafile {[97; 160]} demo_font = Ok f' /\
    chars <$> GetGlyphTable f'
    = filter (λ c, c ∈ ({[97; 160]} : gset Z)) <$>
        (chars <$> filter (survives {[97; 160]}) (GetGlyphTable demo_font)) /\
    (forall g' c, g' ∈ GetGlyphTable f' -> c ∈ chars g' ->
                  c ∈ ({[97; 160]} : gset Z)) /\
    (codes_unique (GetGlyphTable demo_font) -> codes_unique (GetGlyphTable f')).
Proof.
  split; [exact demo_font_representable|].
  apply (filter_codes {[97; 160]} demo_font). exact demo_font_representable.
Defined.

(** The glyph B of the example loses its only code and is dropped. *)
Example filter_demo :
  filter_datafile {[97; 160]} demo_font
  = Ok (mk_DataFile (GetDictionary demo_font)
          [set_chars glyph_A [97]; set_chars glyph_C [160]] demo_info).
Proof. by vm_compute. Qed.

End FilterWitness.

(** ** The size command *)

Module SizeTheorems.
Import Filter FilterTheorems.

Section WithBackend.
Context `{Backend}.

Lemma load_dat_ok (src t : string) (f : DataFile) (w : world) :
  files w !! src = Some t -> DataFile_Load t = Some f ->
  load_dat src w = (Ok (Some f), w).
Proof.
  intros Hfile Hload. unfold load_dat, cbind, read_file.
  by rewrite Hfile, Hload.
Qed.

Lemma at_1 {A} (a0 a1 : A) (rest : list A) : at_ (a0 :: a1 :: rest) 1 = Ok a1.
Proof.
  unfold at_. rewrite bool_decide_eq_true_2; [done|].
  unfold vsize. cbn [length]. lia.
Qed.

(** With a glyph in the file the command prints the quotient. *)
Lemma cmd_size_ok (a0 src t : string) (f : DataFile) (w : world) :
  files w !! src = Some t -> DataFile_Load t = Some f ->
  GetGlyphCount f <> 0 ->
  exists o : ostream,
    cmd_size [a0; src] w
    = (Ok STATUS_OK,
       mk_world (files w)
         (o << put_str "Bytes per glyph:   "
            << put_size (get_encoded_size f / GetGlyphCount f) << endl)
         (cerr w) (rnd w) (faults w) (nsaves w) (clock w) (nticks w) (events w)).
Proof.
  intros Hfile Hload Hcount. eexists.
  unfold cmd_size. rewrite bool_decide_eq_false_2 by (by vm_compute; intros []).
  rewrite at_1. unfold cbind at 1, lift at 1.
  unfold cbind at 1. rewrite (load_dat_ok src t f w Hfile Hload).
  unfold size_div. rewrite bool_decide_eq_false_2 by done.
  reflexivity.
Qed.

(** Without glyphs the division has divisor zero. *)
Lemma cmd_size_zero (a0 src t : string) (f : DataFile) (w : world) :
  files w !! src = Some t -> DataFile_Load t = Some f ->
  GetGlyphCount f = 0 ->
  (cmd_size [a0; src] w).1 = DivideError.
Proof.
  intros Hfile Hload Hcount.
  unfold cmd_size. rewrite bool_decide_eq_false_2 by (by vm_compute; intros []).
  rewrite at_1. unfold cbind at 1, lift at 1.
  unfold cbind at 1. rewrite (load_dat_ok src t f w Hfile Hload).
  unfold size_div. rewrite bool_decide_eq_true_2 by done.
  reflexivity.
Qed.

(** What a save does, by the fate the world has for it. *)
Lemma save_dat_spec (dest : string) (f : DataFile) (w : world) :
  save_dat dest f w
  = match faults w (nsaves w) with
    | NoFault =>
        (Ok true,
         mk_world (<[dest := DataFile_Save f]> (files w)) (cout w) (cerr w)
           (rnd w) (faults w) (S (nsaves w)) (clock w) (nticks w)
           (events w ++ [EvSave dest f true]))
    | OpenFails =>
        (Ok false,
         mk_world (files w) (cout w)
           (cerr w << put_str "Could not open " << put_str dest << endl)
           (rnd w) (faults w) (S (nsaves w)) (clock w) (nticks w)
           (events w ++ [EvSave dest f false]))
    | WriteFails partial =>
        (Ok false,
         mk_world (<[dest := partial]> (files w)) (cout w)
           (cerr w << put_str "Could not write to " << put_str dest << endl)
           (rnd w) (faults w) (S (nsaves w)) (clock w) (nticks w)
           (events w ++ [EvSave dest f false]))
    end.
Proof.
  unfold save_dat. unfold cbind at 1. unfold open_out.
  destruct (faults w (nsaves w)) as [| |partial] eqn:E.
  - cbn [negb]. unfold cbind at 1. unfold write_out. cbn [faults nsaves].
    rewrite E. cbn [negb]. unfold cbind, note_save, cret. cbn.
    by rewrite insert_insert_eq.
  - destruct w. reflexivity.
  - cbn [negb]. unfold cbind at 1. unfold write_out. cbn [faults nsaves].
    rewrite E. cbn [negb]. unfold cbind, eprint, note_save, cret. cbn.
    by rewrite insert_insert_eq.
Qed.

(** The filter command on a loadable file, when the arguments parse
    and the save goes well: the file is replaced by the filtered one. *)
Lemma cmd_filter_run (fuel : nat) (a0 src s : string) (rest : list string)
  (allowed : gset Z) (t : string) (f : DataFile) (w : world) :
  parse_args fuel ∅ (s :: rest) = Ok allowed ->
  files w !! src = Some t -> DataFile_Load t = Some f ->
  representable f ->
  faults w (nsaves w) = NoFault ->
  let f' := mk_DataFile (GetDictionary f)
              (omap (keep_glyph allowed) (GetGlyphTable f)) (GetFontInfo f) in
  cmd_filter fuel (a0 :: src :: s :: rest) w
  = (Ok STATUS_OK,
     mk_world (<[src := DataFile_Save f']> (files w))
       (cout w << put_str "Font originally had "
               << put_size (GetGlyphCount f) << put_str " glyphs." << endl
               << put_str "After filtering, "
               << put_size (GetGlyphCount f') << put_str " glyphs remain."
               << endl)
       (cerr w) (rnd w) (faults w) (S (nsaves w)) (clock w) (nticks w)
       (events w ++ [EvSave src f' true])).
Proof.
  intros Hparse Hfile Hload Hrep Hfault f'.
  unfold cmd_filter.
  rewrite bool_decide_eq_false_2
    by (unfold vsize; cbn [length]; lia).
  cbn [drop]. rewrite Hparse, at_1.
  unfold cbind at 1, lift at 1. unfold cbind at 1, lift at 1.
  unfold cbind at 1. rewrite (load_dat_ok src t f w Hfile Hload).
  rewrite (filter_datafile_spec allowed f Hrep). fold f'.
  unfold cbind at 1, print at 1. unfold cbind at 1, lift at 1.
  unfold cbind at 1, print at 1. unfold cbind at 1.
  rewrite save_dat_spec. cbn [faults nsaves]. rewrite Hfault. reflexivity.
Qed.

Lemma cmd_filter_ok (fuel : nat) (a0 src s : string) (rest : list string)
  (allowed : gset Z) (t : string) (f : DataFile) (w : world) :
  parse_args fuel ∅ (s :: rest) = Ok allowed ->
  files w !! src = Some t -> DataFile_Load t = Some f ->
  representable f ->
  faults w (nsaves w) = NoFault ->
  let f' := mk_DataFile (GetDictionary f)
              (omap (keep_glyph allowed) (GetGlyphTable f)) (GetFontInfo f) in
  let r := cmd_filter fuel (a0 :: src :: s :: rest) w in
  r.1 = Ok STATUS_OK /\
  files r.2 = <[src := DataFile_Save f']> (files w) /\
  faults r.2 = faults w /\ nsaves r.2 = S (nsaves w).
Proof.
  intros Hparse Hfile Hload Hrep Hfault f' r. subst r.
  rewrite (cmd_filter_run fuel a0 src s rest allowed t f w) by done.
  done.
Qed.

Lemma omap_keep_nil (allowed : gset Z) (gl : list glyphentry_t) :
  (forall g c, g ∈ gl -> c ∈ chars g -> c ∉ allowed) ->
  omap (keep_glyph allowed) gl = [].
Proof.
  induction gl as [|g gl IH]; intros Hnone; [done|].
  cbn [omap list_omap].
  assert (keep_glyph allowed g = None) as ->.
  { apply keep_glyph_None. unfold survives. intros Hne. apply Hne.
    destruct (allowed_codes allowed g) as [|c cs] eqn:E; [done|].
    assert (c ∈ allowed_codes allowed g) as Hc by (rewrite E; apply elem_of_cons; by left).
    apply allowed_codes_elem in Hc as [Hc1 Hc2].
    exfalso. eapply Hnone; [|exact Hc1|exact Hc2]. apply elem_of_cons. by left. }
  apply IH. intros g' c Hg'. apply Hnone. apply elem_of_cons. by right.
Qed.

(** C8: the size command divides the encoded size by the glyph count
    without a guard.  On a loaded file with a glyph it prints the
    integer quotient and returns; on a loaded file without glyphs the
    divisor is zero and the division error is the result; and the filter
    command writes such a file when none of the character codes is
    allowed, so a size command on the file it leaves meets the error. *)
Theorem size_division :
  (forall (a0 src t : string) (f : DataFile) (w : world),
      files w !! src = Some t -> DataFile_Load t = Some f ->
      GetGlyphCount f <> 0 ->
      size_div (get_encoded_size f) (GetGlyphCount f)
      = Ok (get_encoded_size f / GetGlyphCount f) /\
      exists o : ostream,
        cmd_size [a0; src] w
        = (Ok STATUS_OK,
           mk_world (files w)
             (o << put_str "Bytes per glyph:   "
                << put_size (get_encoded_size f / GetGlyphCount f) << endl)
             (cerr w) (rnd w) (faults w) (nsaves w) (clock w) (nticks w)
             (events w))) /\
  (forall (a0 src t : string) (f : DataFile) (w : world),
      files w !! src = Some t -> DataFile_Load t = Some f ->
      GetGlyphCount f = 0 ->
      (cmd_size [a0; src] w).1 = DivideError) /\
  (forall (allowed : gset Z) (f : DataFile),
      representable f ->
      (forall g c, g ∈ GetGlyphTable f -> c ∈ chars g -> c ∉ allowed) ->
      exists f', filter_datafile allowed f = Ok f' /\ GetGlyphCount f' = 0) /\
  (forall (fuel : nat) (a0 b0 src s : string) (rest : list string)
          (allowed : gset Z) (t : string) (f : DataFile) (w : world),
      parse_args fuel ∅ (s :: rest) = Ok allowed ->
      files w !! src = Some t -> DataFile_Load t = Some f ->
      representable f ->
      faults w (nsaves w) = NoFault ->
      (forall g c, g ∈ GetGlyphTable f -> c ∈ chars g -> c ∉ allowed) ->
      DataFile_Load
        (DataFile_Save (mk_DataFile (GetDictionary f) [] (GetFontInfo f)))
      = Some (mk_DataFile (GetDictionary f) [] (GetFontInfo f)) ->
      let r := cmd_filter fuel (a0 :: src :: s :: rest) w in
      r.1 = Ok STATUS_OK /\
      (cmd_size [b0; src] r.2).1 = DivideError).
Proof.
  split; [|split; [|split]].
  - intros a0 src t f w Hfile Hload Hcount. split.
    + unfold size_div. by rewrite bool_decide_eq_false_2.
    + by eapply cmd_size_ok.
  - intros. by eapply cmd_size_zero.
  - intros allowed f Hrep Hnone. eexists.
    split; [by apply filter_datafile_spec|].
    unfold GetGlyphCount. cbn [GetGlyphTable].
    by rewrite omap_keep_nil.
  - intros fuel a0 b0 src s rest allowed t f w Hparse Hfile Hload Hrep Hfault
      Hnone Hround r.
    destruct (cmd_filter_ok fuel a0 src s rest allowed t f w
                Hparse Hfile Hload Hrep Hfault) as (Hst & Hfiles & _).
    fold r in Hst, Hfiles. split; [done|].
    rewrite omap_keep_nil in Hfiles by done.
    eapply cmd_size_zero; [|exact Hround|done].
    rewrite Hfiles. apply lookup_insert_eq.
Qed.

End WithBackend.

End SizeTheorems.

Module SizeWitness.
Import Filter FilterTheorems SizeTheorems Demo FilterWitness.

Lemma demo_no_code_5 :
  forall g c, g ∈ GetGlyphTable demo_font -> c ∈ chars g ->
              c ∉ ({[5]} ∪ ∅ : gset Z).
Proof.
  assert (Forall (fun g => Forall (fun c => c ∉ ({[5]} ∪ ∅ : gset Z)) (chars g))
            (GetGlyphTable demo_font)) as Hall.
  { repeat constructor; by vm_compute. }
  intros g c Hg Hc. rewrite Forall_forall in Hall.
  specialize (Hall g Hg). rewrite Forall_forall in Hall. by apply Hall.
Defined.

Lemma size_division_witness :
  (exists o : ostream,
      cmd_size ["size"; "font.dat"] demo_world
      = (Ok STATUS_OK,
         mk_world (files demo_world)
           (o << put_str "Bytes per glyph:   " << put_size (30 / 3) << endl)
           (cerr demo_world) (rnd demo_world) (faults demo_world)
           (nsaves demo_world) (clock demo_world) (nticks demo_world)
           (events demo_world))) /\
  (cmd_size ["size"; "font.dat"] empty_world).1 = DivideError /\
  (exists f', filter_datafile ∅ demo_font = Ok f' /\ GetGlyphCount f' = 0) /\
  (let r := cmd_filter 0 ["filter"; "font.dat"; "5"] demo_world in
   r.1 = Ok STATUS_OK /\ (cmd_size ["size"; "font.dat"] r.2).1 = DivideError).
Proof.
  destruct (size_division (H := demo_backend)) as (Hok & Hzero & Hfilter & Hboth).
  split.
  { apply (Hok "size" "font.dat" "demo" demo_font demo_world);
      [reflexivity | reflexivity | by vm_compute]. }
  split.
  { apply (Hzero "size" "font.dat" "empty"
             (mk_DataFile (GetDictionary demo_font) [] demo_info) empty_world);
      reflexivity. }
  split.
  { apply (Hfilter ∅ demo_font demo_font_representable).
    intros g c _ _. apply not_elem_of_empty. }
  apply (Hboth 0%nat "filter" "size" "font.dat" "5" [] ({[5]} ∪ ∅) "demo"
           demo_font demo_world);
    [reflexivity | reflexivity | reflexivity | exact demo_font_representable
    | reflexivity | exact demo_no_code_5 | reflexivity].
Defined.

End SizeWitness.

(** ** The optimize command *)

Module OptimizeTheorems.
Import ParseTheorems SizeTheorems.

Section WithBackend.
Context `{Backend}.

Variables (src : string) (limit oldsize oldtime : Z).

Lemma loop_steps_one (st : loop_state) (w : world) :
  loop_steps 1 src limit oldsize oldtime st w
  = loop_step src limit oldsize oldtime st w.
Proof.
  cbn [loop_steps]. unfold cbind, cret.
  by destruct (loop_step src limit oldsize oldtime st w) as [[[s|st']| | |] w'].
Qed.

(** The last of [n + 1] steps on its own. *)
Lemma loop_steps_last (n : nat) :
  forall (st : loop_state) (w : world),
    loop_steps (S n) src limit oldsize oldtime st w
    = match loop_steps n src limit oldsize oldtime st w with
      | (Ok (inr st'), w') => loop_step src limit oldsize oldtime st' w'
      | other => other
      end.
Proof.
  induction n as [|n IH]; intros st w.
  - by rewrite loop_steps_one.
  - change (loop_steps (S (S n)) src limit oldsize oldtime st w)
      with (cbind (loop_step src limit oldsize oldtime st)
              (fun r => match r with
                        | inl status => cret (inl status)
                        | inr st' => loop_steps (S n) src limit oldsize oldtime st'
                        end) w).
    change (loop_steps (S n) src limit oldsize oldtime st w)
      with (cbind (loop_step src limit oldsize oldtime st)
              (fun r => match r with
                        | inl status => cret (inl status)
                        | inr st' => loop_steps n src limit oldsize oldtime st'
                        end) w).
    unfold cbind.
    destruct (loop_step src limit oldsize oldtime st w) as [[[s|st']| | |] w'];
      try reflexivity.
    apply IH.
Qed.

(** The step before the test, when the loop goes on. *)
Lemma loop_step_test (f : DataFile) (i : Z) (w : world) :
  limit = 0 \/ i < limit ->
  let f' := (optimize f (rnd w)).1 in
  let r := loop_step src limit oldsize oldtime (mk_loop_state f i AtTest) w in
  (r.1 = Ok (inr (mk_loop_state f' (int_inc i) AtSave)) \/
   (r.1 = DivideError /\ wrap_size (clock w (nticks w) - oldtime + 1) = 0)) /\
  (wrap_size (clock w (nticks w) - oldtime + 1) <> 0 ->
   r.1 = Ok (inr (mk_loop_state f' (int_inc i) AtSave))) /\
  events r.2 = events w ++ [EvOptimize f f'] /\
  files r.2 = files w /\ faults r.2 = faults w /\ clock r.2 = clock w /\
  nsaves r.2 = nsaves w /\ nticks r.2 = S (nticks w).
Proof.
  intros Hcond f' r. subst f' r.
  unfold loop_step. cbn [ls_pc ls_file ls_i].
  rewrite bool_decide_eq_true_2 by done.
  unfold cbind, call_optimize, time, lift, print, cret, bytes_per_min, size_div.
  destruct (optimize f (rnd w)) as [f' r'] eqn:E. cbn.
  destruct (decide (wrap_size (clock w (nticks w) - oldtime + 1) = 0)) as [Hz|Hnz].
  - rewrite bool_decide_eq_true_2 by done. cbn. tauto.
  - rewrite bool_decide_eq_false_2 by done. cbn. tauto.
Qed.

(** The step before the test, when the loop ends. *)
Lemma loop_step_exit (f : DataFile) (i : Z) (w : world) :
  ¬ (limit = 0 \/ i < limit) ->
  loop_step src limit oldsize oldtime (mk_loop_state f i AtTest) w
  = (Ok (inl STATUS_OK), w).
Proof.
  intros Hcond. unfold loop_step. cbn [ls_pc ls_i].
  by rewrite bool_decide_eq_false_2.
Qed.

(** The step before the save. *)
Lemma loop_step_save (f : DataFile) (i : Z) (w : world) :
  let r := loop_step src limit oldsize oldtime (mk_loop_state f i AtSave) w in
  match faults w (nsaves w) with
  | NoFault =>
      r.1 = Ok (inr (mk_loop_state f i AtTest)) /\
      files r.2 = <[src := DataFile_Save f]> (files w) /\
      events r.2 = events w ++ [EvSave src f true]
  | OpenFails =>
      r.1 = Ok (inl STATUS_ERROR) /\
      files r.2 = files w /\
      events r.2 = events w ++ [EvSave src f false]
  | WriteFails partial =>
      r.1 = Ok (inl STATUS_ERROR) /\
      files r.2 = <[src := partial]> (files w) /\
      events r.2 = events w ++ [EvSave src f false]
  end /\
  faults r.2 = faults w /\ clock r.2 = clock w /\
  nsaves r.2 = S (nsaves w) /\ nticks r.2 = nticks w.
Proof.
  intros r. subst r. unfold loop_step. cbn [ls_pc ls_file ls_i].
  unfold cbind. rewrite save_dat_spec.
  destruct (faults w (nsaves w)); cbn; tauto.
Qed.

(** Steps one after the other. *)
Lemma loop_steps_add (a b : nat) :
  forall (st : loop_state) (w : world),
    loop_steps (a + b) src limit oldsize oldtime st w
    = match loop_steps a src limit oldsize oldtime st w with
      | (Ok (inr st'), w') => loop_steps b src limit oldsize oldtime st' w'
      | other => other
      end.
Proof.
  induction a as [|a IH]; intros st w; [done|].
  cbn [Nat.add loop_steps]. unfold cbind.
  destruct (loop_step src limit oldsize oldtime st w) as [[[s|st']| | |] w'];
    try reflexivity.
  apply IH.
Qed.

(** A whole iteration, when the save goes well and line 290 divides. *)
Lemma loop_iteration (f : DataFile) (i : Z) (w : world) :
  limit = 0 \/ i < limit ->
  saves_succeed w -> speed_defined w oldtime ->
  exists f' w',
    loop_steps 2 src limit oldsize oldtime (mk_loop_state f i AtTest) w
    = (Ok (inr (mk_loop_state f' (int_inc i) AtTest)), w') /\
    faults w' = faults w /\ clock w' = clock w /\
    events w' = events w ++ [EvOptimize f f'; EvSave src f' true].
Proof.
  intros Hcond Hsaves Hspeed.
  destruct (loop_step_test f i w Hcond) as (_ & Hres & Hev & _ & Hfaults & Hclock & _).
  specialize (Hres (Hspeed _)).
  destruct (loop_step src limit oldsize oldtime (mk_loop_state f i AtTest) w)
    as [r1 w1] eqn:E1. cbn [fst snd] in *. subst r1.
  destruct (loop_step_save (optimize f (rnd w)).1 (int_inc i) w1)
    as (Hsave & Hfaults' & Hclock' & _). cbv zeta in *.
  assert (faults w1 (nsaves w1) = NoFault) as Hno
    by (rewrite Hfaults; apply Hsaves).
  rewrite Hno in Hsave. destruct Hsave as (Hres' & _ & Hev').
  destruct (loop_step src limit oldsize oldtime
              (mk_loop_state (optimize f (rnd w)).1 (int_inc i) AtSave) w1)
    as [r2 w2] eqn:E2. cbn [fst snd] in *. subst r2.
  exists (optimize f (rnd w)).1, w2.
  split; [|split; [congruence|split; [congruence|]]].
  - change 2%nat with (1 + 1)%nat. rewrite loop_steps_add, loop_steps_one, E1.
    by rewrite loop_steps_one.
  - rewrite Hev', Hev. by rewrite <- app_assoc.
Qed.

Lemma count_optimize_app (tr1 tr2 : list event) :
  count_optimize (tr1 ++ tr2) = (count_optimize tr1 + count_optimize tr2)%nat.
Proof. unfold count_optimize. by rewrite List.filter_app, length_app. Qed.

Lemma count_save_app (tr1 tr2 : list event) :
  count_save (tr1 ++ tr2) = (count_save tr1 + count_save tr2)%nat.
Proof. unfold count_save. by rewrite List.filter_app, length_app. Qed.

(** [k] whole iterations below a positive limit. *)
Lemma loop_iterations (k : nat) :
  forall (f : DataFile) (i : Z) (w : world),
    0 <= i -> i + Z.of_nat k <= limit -> limit <= INT_MAX ->
    saves_succeed w -> speed_defined w oldtime ->
    exists f' w' tr,
      loop_steps (2 * k) src limit oldsize oldtime (mk_loop_state f i AtTest) w
      = (Ok (inr (mk_loop_state f' (i + Z.of_nat k) AtTest)), w') /\
      faults w' = faults w /\ clock w' = clock w /\
      events w' = events w ++ tr /\
      count_optimize tr = k /\ count_save tr = k.
Proof.
  induction k as [|k IH]; intros f i w Hi Hlim Hmax Hsaves Hspeed.
  - exists f, w, []. rewrite Z.add_0_r, app_nil_r. done.
  - destruct (loop_iteration f i w) as (f1 & w1 & Hrun & Hf1 & Hc1 & He1);
      [right; lia|done|done|].
    rewrite int_inc_small in Hrun by (unfold INT_MIN; lia).
    destruct (IH f1 (i + 1) w1) as (f' & w' & tr & Hrun' & Hf' & Hc' & He' & Hco & Hcs).
    { lia. } { lia. } { done. }
    { intros j. rewrite Hf1. apply Hsaves. }
    { intros j. rewrite Hc1. apply Hspeed. }
    exists f', w', ([EvOptimize f f1; EvSave src f1 true] ++ tr).
    split; [|split; [congruence|split; [congruence|split; [|split]]]].
    + replace (2 * S k)%nat with (2 + 2 * k)%nat by lia.
      rewrite loop_steps_add, Hrun, Hrun'.
      by replace (i + 1 + Z.of_nat k) with (i + Z.of_nat (S k)) by lia.
    + rewrite He', He1. by rewrite <- app_assoc.
    + rewrite count_optimize_app, Hco. done.
    + rewrite count_save_app, Hcs. done.
Qed.

(** With a positive limit the loop returns after that many iterations. *)
Lemma run_loop_positive (fuel : nat) (f : DataFile) (w : world) :
  0 < limit <= INT_MAX ->
  saves_succeed w -> speed_defined w oldtime ->
  (2 * Z.to_nat limit + 1 <= fuel)%nat ->
  exists w' tr,
    run_loop fuel src limit oldsize oldtime (mk_loop_state f 0 AtTest) w
    = (Ok STATUS_OK, w') /\
    events w' = events w ++ tr /\
    count_optimize tr = Z.to_nat limit /\ count_save tr = Z.to_nat limit.
Proof.
  intros Hlim Hsaves Hspeed Hfuel.
  destruct (loop_iterations (Z.to_nat limit) f 0 w)
    as (f' & w' & tr & Hrun & _ & _ & Hev & Hco & Hcs); [lia|lia|lia|done|done|].
  exists w', tr. split; [|done].
  unfold run_loop, cbind.
  replace fuel with (2 * Z.to_nat limit + S (fuel - 2 * Z.to_nat limit - 1))%nat by lia.
  rewrite loop_steps_add, Hrun. cbn [loop_steps]. unfold cbind.
  rewrite loop_step_exit by lia. done.
Qed.

(** No step touches the fate of the saves or the clock. *)
Lemma loop_step_frame (st : loop_state) (w : world) :
  let r := loop_step src limit oldsize oldtime st w in
  faults r.2 = faults w /\ clock r.2 = clock w.
Proof.
  destruct st as [f i pc]. intros r. subst r. destruct pc.
  - destruct (decide (limit = 0 \/ i < limit)) as [Hcond|Hcond].
    + by destruct (loop_step_test f i w Hcond) as (_ & _ & _ & _ & ? & ? & _).
    + by rewrite loop_step_exit.
  - by destruct (loop_step_save f i w) as (_ & ? & ? & _).
Qed.

(** With limit 0 the loop is still running after any number of steps. *)
Lemma loop_steps_unlimited (n : nat) :
  limit = 0 ->
  forall (st : loop_state) (w : world),
    saves_succeed w -> speed_defined w oldtime ->
    exists st' w',
      loop_steps n src limit oldsize oldtime st w = (Ok (inr st'), w') /\
      faults w' = faults w /\ clock w' = clock w.
Proof.
  intros Hzero. induction n as [|n IH]; intros st w Hsaves Hspeed.
  - by exists st, w.
  - rewrite loop_steps_last.
    destruct (IH st w Hsaves Hspeed) as (st' & w' & Hrun & Hf & Hc).
    rewrite Hrun.
    destruct (loop_step_frame st' w') as [Hf' Hc']. cbv zeta in *.
    destruct st' as [f i pc]. destruct pc.
    + destruct (loop_step_test f i w') as (_ & Hres & _); [by left|].
      cbv zeta in Hres.
      destruct (loop_step src limit oldsize oldtime (mk_loop_state f i AtTest) w')
        as [r2 w2]. cbn [fst snd] in *.
      rewrite Hres by (rewrite Hc; apply Hspeed).
      eexists _, w2. split; [done|]. split; congruence.
    + destruct (loop_step_save f i w') as (Hsave & _). cbv zeta in Hsave.
      rewrite Hf, Hsaves in Hsave. destruct Hsave as (Hres & _).
      destruct (loop_step src limit oldsize oldtime (mk_loop_state f i AtSave) w')
        as [r2 w2]. cbn [fst snd] in *. subst r2.
      eexists _, w2. split; [done|]. split; congruence.
Qed.

Lemma run_loop_unlimited (fuel : nat) (st : loop_state) (w : world) :
  limit = 0 -> saves_succeed w -> speed_defined w oldtime ->
  (run_loop fuel src limit oldsize oldtime st w).1 = OutOfFuel.
Proof.
  intros Hzero Hsaves Hspeed. unfold run_loop, cbind.
  destruct (loop_steps_unlimited fuel Hzero st w Hsaves Hspeed)
    as (st' & w' & -> & _). done.
Qed.

(** With limit 0 the loop never ends well, whatever the saves and the
    clock do. *)
Lemma loop_steps_unlimited_not_ok (n : nat) :
  limit = 0 ->
  forall (st : loop_state) (w : world),
    (loop_steps n src limit oldsize oldtime st w).1 <> Ok (inl STATUS_OK).
Proof.
  intros Hzero. induction n as [|n IH]; intros st w; [done|].
  rewrite loop_steps_last. specialize (IH st w).
  destruct (loop_steps n src limit oldsize oldtime st w)
    as [[[s|[f i pc]]| | |] w']; try done.
  destruct pc.
  - destruct (loop_step_test f i w') as ([Hres|[Hres _]] & _); [by left|..];
      cbv zeta in Hres; by rewrite Hres.
  - destruct (loop_step_save f i w') as (Hsave & _). cbv zeta in Hsave.
    destruct (faults w' (nsaves w')); destruct Hsave as (Hres & _);
      by rewrite Hres.
Qed.

Lemma run_loop_unlimited_not_ok (fuel : nat) (st : loop_state) (w : world) :
  limit = 0 ->
  (run_loop fuel src limit oldsize oldtime st w).1 <> Ok STATUS_OK.
Proof.
  intros Hzero. unfold run_loop, cbind.
  pose proof (loop_steps_unlimited_not_ok fuel Hzero st w) as Hno.
  destruct (loop_steps fuel src limit oldsize oldtime st w)
    as [[[s|st']| | |] w']; try done.
  cbn [fst] in *. unfold cret. cbn [fst]. congruence.
Qed.

(** With a negative limit the loop ends at its first test. *)
Lemma run_loop_negative (fuel : nat) (f : DataFile) (w : world) :
  limit < 0 ->
  run_loop (S fuel) src limit oldsize oldtime (mk_loop_state f 0 AtTest) w
  = (Ok STATUS_OK, w).
Proof.
  intros Hneg. unfold run_loop, cbind. cbn [loop_steps]. unfold cbind.
  rewrite loop_step_exit by lia. done.
Qed.

End WithBackend.

Section Command.
Context `{Backend}.

(** The command up to its loop: the limit is 100, or the third
    argument read in base 10; the loop starts from the loaded file with
    the clock read once. *)
Lemma cmd_optimize_prelude (fuel : nat) (args : list string) (a0 src t : string)
  (f : DataFile) (limit : Z) (w : world) :
  files w !! src = Some t -> DataFile_Load t = Some f ->
  (args = [a0; src] /\ limit = 100) \/
  (exists s, args = [a0; src; s] /\ stoi s 10 = Ok limit) ->
  exists w1,
    cmd_optimize fuel args w
    = run_loop fuel src limit (get_encoded_size f) (clock w (nticks w))
        (mk_loop_state f 0 AtTest) w1 /\
    events w1 = events w /\ files w1 = files w /\
    faults w1 = faults w /\ clock w1 = clock w.
Proof.
  intros Hfile Hload Hargs. unfold cmd_optimize.
  destruct Hargs as [[-> ->]|(s & -> & Hs)].
  - rewrite bool_decide_eq_false_2 by (vm_compute; intros [? ?]; congruence).
    rewrite at_1. unfold cbind at 1, lift at 1.
    unfold cbind at 1. rewrite (load_dat_ok src t f w Hfile Hload).
    rewrite (bool_decide_eq_false_2 (vsize _ = 3)) by (by vm_compute).
    unfold cbind, print, cret, time. cbn [fst snd].
    rewrite (bool_decide_eq_true_2 (100 > 0)) by lia.
    eexists. split; [reflexivity|]. done.
  - rewrite bool_decide_eq_false_2 by (vm_compute; intros [? ?]; congruence).
    rewrite at_1. unfold cbind at 1, lift at 1.
    unfold cbind at 1. rewrite (load_dat_ok src t f w Hfile Hload).
    rewrite (bool_decide_eq_true_2 (vsize _ = 3)) by (by vm_compute).
    assert (at_ [a0; src; s] 2 = Ok s) as -> by (by vm_compute).
    unfold cbind, print, cret, time, lift. cbn [fst snd].
    rewrite Hs.
    destruct (decide (limit > 0)).
    + rewrite bool_decide_eq_true_2 by done.
      eexists. split; [reflexivity|]. done.
    + rewrite bool_decide_eq_false_2 by done.
      eexists. split; [reflexivity|]. done.
Qed.

(** C9: the loop of the optimize command runs while the limit is 0 or
    the counter is below it, the limit being 100 without a third
    argument.  On a loadable file: with saves that succeed and a clock
    that never shows the second before the start, a third argument
    that reads as a positive [n], or none and [n = 100], makes the
    command run exactly [n] iterations and return status 0; a third
    argument that reads as 0 never lets the command return status 0, and
    with such saves and clock leaves the loop running whatever the
    number of steps; a negative one makes the command return status 0
    without an iteration. *)
Theorem optimize_iteration_count (a0 src t : string) (f : DataFile) (w : world) :
  files w !! src = Some t -> DataFile_Load t = Some f ->
  (forall fuel s n,
      saves_succeed w -> speed_defined w (clock w (nticks w)) ->
      stoi s 10 = Ok n -> 0 < n -> (2 * Z.to_nat n + 1 <= fuel)%nat ->
      exists w' tr,
        cmd_optimize fuel [a0; src; s] w = (Ok STATUS_OK, w') /\
        status_code STATUS_OK = 0 /\
        events w' = events w ++ tr /\
        count_optimize tr = Z.to_nat n /\ count_save tr = Z.to_nat n) /\
  (forall fuel,
      saves_succeed w -> speed_defined w (clock w (nticks w)) ->
      (201 <= fuel)%nat ->
      exists w' tr,
        cmd_optimize fuel [a0; src] w = (Ok STATUS_OK, w') /\
        events w' = events w ++ tr /\
        count_optimize tr = 100%nat /\ count_save tr = 100%nat) /\
  (forall fuel s,
      stoi s 10 = Ok 0 ->
      (cmd_optimize fuel [a0; src; s] w).1 <> Ok STATUS_OK /\
      (saves_succeed w -> speed_defined w (clock w (nticks w)) ->
       (cmd_optimize fuel [a0; src; s] w).1 = OutOfFuel)) /\
  (forall fuel s n,
      stoi s 10 = Ok n -> n < 0 ->
      exists w',
        cmd_optimize (S fuel) [a0; src; s] w = (Ok STATUS_OK, w') /\
        events w' = events w /\ files w' = files w).
Proof.
  intros Hfile Hload.
  assert (forall w1, saves_succeed w -> faults w1 = faults w -> saves_succeed w1)
    as Hs1.
  { intros w1 Hsaves Hf k. rewrite Hf. apply Hsaves. }
  assert (forall w1, speed_defined w (clock w (nticks w)) -> clock w1 = clock w ->
                     speed_defined w1 (clock w (nticks w))) as Hc1.
  { intros w1 Hspeed Hc k. rewrite Hc. apply Hspeed. }
  split; [|split; [|split]].
  - intros fuel s n Hsaves Hspeed Hstoi Hpos Hfuel.
    destruct (cmd_optimize_prelude fuel [a0; src; s] a0 src t f n w Hfile Hload)
      as (w1 & -> & Hev & _ & Hf & Hc); [right; by exists s|].
    destruct (run_loop_positive src n (get_encoded_size f) (clock w (nticks w))
                fuel f w1) as (w' & tr & Hrun & Hev' & Hco & Hcs); auto.
    { apply stoi_in_int in Hstoi. lia. }
    exists w', tr. rewrite Hrun, Hev', Hev. done.
  - intros fuel Hsaves Hspeed Hfuel.
    destruct (cmd_optimize_prelude fuel [a0; src] a0 src t f 100 w Hfile Hload)
      as (w1 & -> & Hev & _ & Hf & Hc); [by left|].
    destruct (run_loop_positive src 100 (get_encoded_size f) (clock w (nticks w))
                fuel f w1) as (w' & tr & Hrun & Hev' & Hco & Hcs); auto.
    { unfold INT_MAX. lia. }
    exists w', tr. rewrite Hrun, Hev', Hev. done.
  - intros fuel s Hstoi.
    destruct (cmd_optimize_prelude fuel [a0; src; s] a0 src t f 0 w Hfile Hload)
      as (w1 & -> & Hev & _ & Hf & Hc); [right; by exists s|].
    split; [by apply run_loop_unlimited_not_ok|].
    intros Hsaves Hspeed. apply run_loop_unlimited; auto.
  - intros fuel s n Hstoi Hneg.
    destruct (cmd_optimize_prelude (S fuel) [a0; src; s] a0 src t f n w Hfile Hload)
      as (w1 & -> & Hev & Hfiles & Hf & Hc); [right; by exists s|].
    exists w1. by rewrite run_loop_negative.
Qed.

End Command.

End OptimizeTheorems.

Module OptimizeWitness.
Import OptimizeTheorems Demo.

Lemma demo_saves_succeed : saves_succeed demo_world.
Proof. intros k. reflexivity. Defined.

Lemma demo_speed_defined :
  speed_defined demo_world (clock demo_world (nticks demo_world)).
Proof.
  intros k. cbn [clock demo_world nticks]. unfold demo_clock, wrap_size, SIZE_MOD.
  rewrite Z.mod_small; lia.
Defined.

Lemma optimize_iteration_count_witness :
  (exists w' tr,
      cmd_optimize 5 ["optimize"; "font.dat"; "2"] demo_world = (Ok STATUS_OK, w') /\
      status_code STATUS_OK = 0 /\
      events w' = events demo_world ++ tr /\
      count_optimize tr = 2%nat /\ count_save tr = 2%nat) /\
  (exists w' tr,
      cmd_optimize 201 ["optimize"; "font.dat"] demo_world = (Ok STATUS_OK, w') /\
      events w' = events demo_world ++ tr /\
      count_optimize tr = 100%nat /\ count_save tr = 100%nat) /\
  (cmd_optimize 1000 ["optimize"; "font.dat"; "0"] demo_world).1 <> Ok STATUS_OK /\
  (cmd_optimize 1000 ["optimize"; "font.dat"; "0"] demo_world).1 = OutOfFuel /\
  (exists w',
      cmd_optimize 1 ["optimize"; "font.dat"; "-3"] demo_world = (Ok STATUS_OK, w') /\
      events w' = events demo_world /\ files w' = files demo_world).
Proof.
  destruct (optimize_iteration_count (H := demo_backend)
              "optimize" "font.dat" "demo" demo_font demo_world
              eq_refl eq_refl)
    as (Hpos & Hdefault & Hzero & Hneg).
  split.
  { apply (Hpos 5%nat "2" 2 demo_saves_succeed demo_speed_defined);
      [reflexivity | lia | by vm_compute]. }
  split.
  { apply (Hdefault 201%nat demo_saves_succeed demo_speed_defined). lia. }
  split.
  { apply (Hzero 1000%nat "0"). reflexivity. }
  split.
  { apply (Hzero 1000%nat "0"); [reflexivity | exact demo_saves_succeed
                                 | exact demo_speed_defined]. }
  apply (Hneg 0%nat "-3" (-3)); [reflexivity | lia].
Defined.

(** The command with limit 2 on the example, as it runs. *)
Example optimize_demo_run :
  let r := cmd_optimize 5 ["optimize"; "font.dat"; "2"] demo_world in
  r.1 = Ok STATUS_OK /\
  text (cout r.2)
  = "Original size is 30 bytes" +:+ newline +:+
    "Press ctrl-C at any time to stop." +:+ newline +:+
    "Results are saved automatically after each iteration." +:+ newline +:+
    "Limit is 2 iterations" +:+ newline +:+
    "iteration 1, size 29 bytes, speed 30 B/min" +:+ newline +:+
    "iteration 2, size 28 bytes, speed 40 B/min" +:+ newline.
Proof. by vm_compute. Qed.

End OptimizeWitness.

(** ** The show_encoded command *)

Module ShowEncodedTheorems.
Import Demo.

Lemma append_cons (c : ascii) (s1 s2 : string) :
  String c s1 +:+ s2 = String c (s1 +:+ s2).
Proof. reflexivity. Qed.

Lemma append_assoc (s1 s2 s3 : string) :
  (s1 +:+ s2) +:+ s3 = s1 +:+ (s2 +:+ s3).
Proof.
  induction s1 as [|c s1 IH]; [done|]. by rewrite !append_cons, IH.
Qed.

Lemma append_nil_r (s : string) : s +:+ "" = s.
Proof.
  induction s as [|c s IH]; [done|]. by rewrite append_cons, IH.
Qed.

(** The bytes of one string: their text, and the stream in hexadecimal
    from the first one on. *)
Lemma put_bytes_spec (d : list Z) :
  forall o : ostream,
    fieldwidth o = 0%nat ->
    text (put_bytes d o) = text o +:+ bytes_text d /\
    base (put_bytes d o) = after_bytes (base o) d /\
    fieldwidth (put_bytes d o) = 0%nat.
Proof.
  induction d as [|v d IH]; intros o Hw.
  - cbn [put_bytes bytes_text after_bytes]. by rewrite append_nil_r.
  - cbn [put_bytes].
    destruct (IH (o << setfill "0" << setw 2 << set_hex << put_int v << put_str " "))
      as (Ht & Hb & Hw'); [done|].
    rewrite Ht, Hb, Hw'. split; [|split; [|done]].
    + cbn [bytes_text]. unfold byte_text, put_str, put_int, put_field, set_hex,
        setw, setfill. cbn [text base fill fieldwidth Nat.sub replicate_char].
      cbn [String.append]. by rewrite !append_assoc.
    + cbn [after_bytes]. by destruct d.
Qed.

(** One loop: its text, the base it leaves and the counter, while the
    counter stays an [int]. *)
Lemma put_entries_spec (label : string) (number : Z -> Z) (ds : list (list Z)) :
  forall (i : Z) (o : ostream),
    fieldwidth o = 0%nat ->
    INT_MIN <= i -> i + vsize ds <= INT_MAX ->
    let r := put_entries label number ds i o in
    r.1 = i + vsize ds /\
    text r.2 = text o +:+ entries_text (base o) label number ds i /\
    base r.2 = entries_base (base o) ds /\
    fieldwidth r.2 = 0%nat.
Proof.
  induction ds as [|d ds IH]; intros i o Hw Hi Hmax r; subst r.
  - cbn [put_entries entries_text entries_base fst snd].
    rewrite append_nil_r. unfold vsize. cbn [length]. split; [lia|done].
  - assert (vsize (d :: ds) = 1 + vsize ds) as Hlen
      by (unfold vsize; cbn [length]; lia).
    pose proof (vsize_nonneg ds) as Hnn.
    cbn [put_entries]. rewrite int_inc_small by lia.
    set (o1 := o << put_str label << put_int (number i) << put_str ": ").
    assert (fieldwidth o1 = 0%nat) as Hw1 by done.
    destruct (put_bytes_spec d o1 Hw1) as (Ht & Hb & Hw2).
    destruct (IH (i + 1) (o1 << put_bytes d << endl)) as (Hi' & Ht' & Hb' & Hw');
      [done|lia|lia|].
    cbv zeta in Hi', Ht', Hb', Hw'. rewrite Hi', Ht', Hb', Hw'.
    split; [lia|]. split; [|split; [|done]].
    + cbn [entries_text]. unfold endl at 1 2. cbn [text base].
      rewrite Ht, Hb. subst o1.
      unfold put_str, put_int, put_field. cbn [text base fill fieldwidth].
      rewrite Hw. cbn [Nat.sub replicate_char String.append].
      by rewrite !append_assoc.
    + cbn [entries_base]. unfold endl. cbn [base]. by rewrite Hb.
Qed.

Lemma entries_text_ext (bf : basefield) (label : string) (number number' : Z -> Z)
  (ds : list (list Z)) :
  forall (bf : basefield) (i : Z),
    (forall k, i <= k < i + vsize ds -> number k = number' k) ->
    entries_text bf label number ds i = entries_text bf label number' ds i.
Proof.
  induction ds as [|d ds IH]; intros bf' i Hext; [done|].
  assert (vsize (d :: ds) = 1 + vsize ds) as Hlen
    by (unfold vsize; cbn [length]; lia).
  pose proof (vsize_nonneg ds) as Hnn.
  cbn [entries_text]. rewrite Hext by lia. rewrite IH; [done|].
  intros k Hk. apply Hext. lia.
Qed.

(** What the command prints, for an encoded font whose dictionary and
    glyph counts are those of [int] counters: the numbers on the lines
    are 24, 25, ... through the RLE entries and on through the REF
    entries, and 0, 1, ... for the glyphs; they are written in the base
    the stream is in, hexadecimal once a byte has been printed. *)
Lemma show_encoded_spec (e : encoded_font_t) (o : ostream) :
  fieldwidth o = 0%nat ->
  24 + vsize (rle_dictionary e) + vsize (ref_dictionary e) <= INT_MAX ->
  vsize (glyphs e) <= INT_MAX ->
  text (show_encoded e o) = text o +:+ show_encoded_text (base o) e.
Proof.
  intros Hw Hdict Hglyphs. unfold show_encoded, show_encoded_text.
  pose proof (vsize_nonneg (rle_dictionary e)) as Hr.
  pose proof (vsize_nonneg (ref_dictionary e)) as Hf.
  destruct (put_entries_spec "Dict RLE " (fun i => wrap_int (24 + i))
              (rle_dictionary e) 0 o Hw) as (Hi1 & Ht1 & Hb1 & Hw1);
    [unfold INT_MIN; lia | lia |].
  destruct (put_entries "Dict RLE " (fun i => wrap_int (24 + i)) (rle_dictionary e) 0 o)
    as [i1 o1]. cbn [fst snd] in *. subst i1.
  destruct (put_entries_spec "Dict Ref " (fun i => wrap_int (24 + i))
              (ref_dictionary e) (0 + vsize (rle_dictionary e)) o1 Hw1)
    as (Hi2 & Ht2 & Hb2 & Hw2); [unfold INT_MIN; lia | lia |].
  destruct (put_entries "Dict Ref " (fun i => wrap_int (24 + i)) (ref_dictionary e)
              (0 + vsize (rle_dictionary e)) o1) as [i2 o2]. cbn [fst snd] in *.
  destruct (put_entries_spec "Glyph " (fun i => i) (glyphs e) 0 o2 Hw2)
    as (_ & Ht3 & _ & _); [unfold INT_MIN; lia | lia |].
  destruct (put_entries "Glyph " (fun i => i) (glyphs e) 0 o2) as [i3 o3].
  cbn [fst snd] in *.
  rewrite Ht3, Ht2, Ht1, Hb2, Hb1, !append_assoc. rewrite Z.add_0_l.
  assert (forall i n, 0 <= i -> 24 + i + n <= INT_MAX ->
            forall k, i <= k < i + n -> wrap_int (24 + k) = 24 + k) as Hwrap.
  { intros i n Hi Hn k Hk. unfold wrap_int, INT_MIN, INT_MAX in *.
    rewrite Z.mod_small by lia. lia. }
  rewrite (entries_text_ext (base o) "Dict RLE " (fun i => wrap_int (24 + i))
             (fun i => 24 + i)) by (apply Hwrap; lia).
  rewrite (entries_text_ext (base o) "Dict Ref " (fun i => wrap_int (24 + i))
             (fun i => 24 + i)) by (apply Hwrap; lia).
  done.
Qed.

(** The label of the second of two dictionary entries is in hexadecimal
    when the first has a byte: number 25 is written 19. *)
Lemma second_label_hex (v : Z) (d1 d2 : list Z) (ds : list (list Z)) :
  entries_text dec "Dict RLE " (fun i => 24 + i) ((v :: d1) :: d2 :: ds) 0
  = "Dict RLE 24: " +:+ bytes_text (v :: d1) +:+ newline +:+
    "Dict RLE 19: " +:+ bytes_text d2 +:+ newline +:+
    entries_text hex "Dict RLE " (fun i => 24 + i) ds 2.
Proof.
  destruct d2; reflexivity.
Qed.

Section WithBackend.
Context `{Backend}.

(** The command on a loadable file prints the encoded font and returns. *)
Lemma cmd_show_encoded_run (a0 src t : string) (f : DataFile) (w : world) :
  files w !! src = Some t -> DataFile_Load t = Some f ->
  cmd_show_encoded [a0; src] w
  = (Ok STATUS_OK,
     mk_world (files w) (show_encoded (encode_font f) (cout w)) (cerr w)
       (rnd w) (faults w) (nsaves w) (clock w) (nticks w) (events w)).
Proof.
  intros Hfile Hload. unfold cmd_show_encoded.
  rewrite bool_decide_eq_false_2 by (by vm_compute; intros []).
  rewrite SizeTheorems.at_1. unfold cbind at 1, lift at 1.
  unfold cbind at 1. rewrite (SizeTheorems.load_dat_ok src t f w Hfile Hload).
  reflexivity.
Qed.

(** With nothing printed before, a first dictionary entry that has a
    byte and a second entry: the second line is labelled 19. *)
Lemma cmd_show_encoded_second_label (a0 src t : string) (f : DataFile) (w : world)
  (v : Z) (d1 d2 : list Z) (ds : list (list Z)) :
  files w !! src = Some t -> DataFile_Load t = Some f ->
  cout w = fresh_stream ->
  rle_dictionary (encode_font f) = (v :: d1) :: d2 :: ds ->
  24 + vsize (rle_dictionary (encode_font f))
     + vsize (ref_dictionary (encode_font f)) <= INT_MAX ->
  vsize (glyphs (encode_font f)) <= INT_MAX ->
  exists tail : string,
    text (cout (cmd_show_encoded [a0; src] w).2)
    = "Dict RLE 24: " +:+ bytes_text (v :: d1) +:+ newline +:+
      "Dict RLE 19: " +:+ bytes_text d2 +:+ newline +:+ tail.
Proof.
  intros Hfile Hload Hcout Hrle Hdict Hglyphs.
  rewrite (cmd_show_encoded_run a0 src t f w Hfile Hload). cbn [snd cout].
  rewrite show_encoded_spec by (done || by rewrite Hcout).
  rewrite Hcout. cbn [text base fresh_stream].
  unfold show_encoded_text. rewrite Hrle, second_label_hex.
  eexists. change ("" +:+ ?x) with x. rewrite !append_assoc. reflexivity.
Qed.

End WithBackend.

(** C7 on the example font, with one RLE entry, one REF entry and
    three glyphs.  The first label is 24.  The bytes of the first entry
    are printed after [std::hex], which stays in force: the label of the
    second dictionary entry, number 25, comes out as 19. *)
Theorem show_encoded_demo :
  let r := cmd_show_encoded ["show_encoded"; "font.dat"] demo_world in
  r.1 = Ok STATUS_OK /\
  text (cout r.2)
  = "Dict RLE 24: 01 11 " +:+ newline +:+
    "Dict Ref 19: 18 18 " +:+ newline +:+
    "Glyph 0: 00 0f 0f 00 " +:+ newline +:+
    "Glyph 1: 0f 0f 00 00 " +:+ newline +:+
    "Glyph 2: 00 00 00 00 " +:+ newline.
Proof. by vm_compute. Qed.

(** With eleven glyphs the last label is [a]. *)
Example show_encoded_glyph_ten :
  text (show_encoded (mk_encoded_font [] [] (replicate 11 [1])) fresh_stream)
  = "Glyph 0: 01 " +:+ newline +:+ "Glyph 1: 01 " +:+ newline +:+
    "Glyph 2: 01 " +:+ newline +:+ "Glyph 3: 01 " +:+ newline +:+
    "Glyph 4: 01 " +:+ newline +:+ "Glyph 5: 01 " +:+ newline +:+
    "Glyph 6: 01 " +:+ newline +:+ "Glyph 7: 01 " +:+ newline +:+
    "Glyph 8: 01 " +:+ newline +:+ "Glyph 9: 01 " +:+ newline +:+
    "Glyph a: 01 " +:+ newline.
Proof. by vm_compute. Qed.

End ShowEncodedTheorems.

(** ** strip_extension *)

Module StripTheorems.
Import ShowEncodedTheorems.

Lemma find_last_of_none (c : ascii) (s : string) :
  find_last_of c s = None <-> find c s = None.
Proof.
  induction s as [|c' s IH]; simpl; [tauto|].
  destruct (find_last_of c s) as [p|] eqn:E.
  - split; [discriminate|].
    case_bool_decide; [discriminate|].
    destruct (find c s); [discriminate|]. intros _.
    assert (@None nat = None) as X by reflexivity. apply IH in X. discriminate.
  - case_bool_decide; split; try discriminate; try reflexivity.
    intros _. destruct IH as [IH _]. rewrite (IH eq_refl). reflexivity.
Qed.

Lemma find_last_of_app (c : ascii) (base ext : string) :
  find c ext = None ->
  find_last_of c (base +:+ String c ext) = Some (String.length base).
Proof.
  intros Hext. induction base as [|c' base IH].
  - change ("" +:+ String c ext) with (String c ext). simpl.
    apply find_last_of_none in Hext. rewrite Hext.
    rewrite bool_decide_true; reflexivity.
  - rewrite append_cons. simpl. rewrite IH. reflexivity.
Qed.

Lemma substr_to_app (s rest : string) :
  substr_to (String.length s) (s +:+ rest) = s.
Proof.
  induction s as [|c s IH].
  - destruct rest; reflexivity.
  - rewrite append_cons. simpl. rewrite IH. reflexivity.
Qed.

Lemma substr_split (pos : nat) (s : string) :
  substr_to pos s +:+ substr_from pos s = s.
Proof.
  revert s. induction pos as [|pos IH]; intros s.
  - destruct s; reflexivity.
  - destruct s as [|c s]; [reflexivity|].
    simpl. rewrite append_cons, IH. reflexivity.
Qed.

Lemma find_last_of_lt (c : ascii) (s : string) (pos : nat) :
  find_last_of c s = Some pos -> (pos < String.length s)%nat.
Proof.
  revert pos. induction s as [|c' s IH]; intros pos; simpl; [discriminate|].
  destruct (find_last_of c s) as [p|].
  - intros [= <-]. specialize (IH p eq_refl). lia.
  - case_bool_decide; [|discriminate]. intros [= <-]. lia.
Qed.

Lemma substr_to_length (pos : nat) (s : string) :
  (pos <= String.length s)%nat -> String.length (substr_to pos s) = pos.
Proof.
  revert s. induction pos as [|pos IH]; intros s Hle.
  - destruct s; reflexivity.
  - destruct s as [|c s]; simpl in *; [lia|]. rewrite IH; lia.
Qed.

(** X1: [strip_extension] cuts the file name at its last dot, whatever
    follows it: a name [base.ext] whose [ext] has no dot gives [base],
    also when [ext] holds a directory separator. *)
Theorem strip_extension_last_dot (base ext : string) :
  find "." ext = None ->
  strip_extension (base +:+ "." +:+ ext) = base.
Proof.
  intros Hext. unfold strip_extension.
  change ("." +:+ ext) with (String "." ext).
  rewrite (find_last_of_app _ _ _ Hext). apply substr_to_app.
Qed.

(** X2: [strip_extension] returns the file name unchanged exactly when
    the name has no dot, and its result is always a prefix of the
    name. *)
Theorem strip_extension_fixed (filename : string) :
  (strip_extension filename = filename <-> find "." filename = None) /\
  exists rest : string, filename = strip_extension filename +:+ rest.
Proof.
  unfold strip_extension.
  destruct (find_last_of "." filename) as [pos|] eqn:E.
  - split.
    + split.
      * intros Heq. apply find_last_of_lt in E.
        apply (f_equal String.length) in Heq.
        rewrite substr_to_length in Heq; lia.
      * intros Hn. apply find_last_of_none in Hn. congruence.
    + exists (substr_from pos filename). symmetry. apply substr_split.
  - split.
    + split; [|reflexivity]. intros _. apply find_last_of_none, E.
    + exists "". symmetry. apply append_nil_r.
Qed.

End StripTheorems.

(** ** Data files that cannot be read *)

Module FrontendTheorems.
Import SizeTheorems.

Section WithBackend.
Context `{Backend} `{Tools}.

Lemma load_dat_spec (src : string) (w : world) :
  load_dat src w
  = match files w !! src with
    | None => (Ok None, complain "Could not open " src w)
    | Some t =>
        match DataFile_Load t with
        | None => (Ok None, complain "Invalid format for .dat file: " src w)
        | Some f => (Ok (Some f), w)
        end
    end.
Proof.
  unfold load_dat, cbind, read_file.
  destruct (files w !! src) as [t|]; [destruct (DataFile_Load t)|]; reflexivity.
Qed.

Lemma load_dat_error (src msg : string) (w : world) :
  load_error src w = Some msg ->
  load_dat src w = (Ok None, complain msg src w).
Proof.
  unfold load_error. rewrite load_dat_spec.
  destruct (files w !! src) as [t|]; [destruct (DataFile_Load t)|];
    intros [= <-] || discriminate; reflexivity.
Qed.

Lemma at_2 {A} (a0 a1 a2 : A) (rest : list A) :
  at_ (a0 :: a1 :: a2 :: rest) 2 = Ok a2.
Proof.
  unfold at_. rewrite bool_decide_true; [reflexivity|].
  unfold vsize. simpl length. lia.
Qed.

Lemma vsize_cons {A} (a : A) (l : list A) : vsize (a :: l) = 1 + vsize l.
Proof. unfold vsize. simpl length. lia. Qed.

(** X3: when the data file is missing or [DataFile::Load] rejects it,
    every command that loads one (size, show_encoded, optimize with or
    without a limit, export, show_glyph, and filter once its character
    sets have parsed) returns [STATUS_ERROR] and changes nothing but
    [std::cerr], which gets the one line of [load_dat].  The limit of
    optimize is not read before that. *)
Theorem unreadable_file_status (src msg : string) (w : world) :
  load_error src w = Some msg ->
  let failed := (Ok STATUS_ERROR, complain msg src w) in
  (forall a0, cmd_size [a0; src] w = failed) /\
  (forall a0, cmd_show_encoded [a0; src] w = failed) /\
  (forall fuel a0, cmd_optimize fuel [a0; src] w = failed) /\
  (forall fuel a0 s, cmd_optimize fuel [a0; src; s] w = failed) /\
  (forall a0 dst, cmd_export [a0; src; dst] w = failed) /\
  (forall a0 a, cmd_show_glyph [a0; src; a] w = failed) /\
  (forall fuel a0 s rest allowed,
      parse_args fuel ∅ (s :: rest) = Ok allowed ->
      cmd_filter fuel (a0 :: src :: s :: rest) w = failed).
Proof.
  intros Herr failed. apply load_dat_error in Herr.
  repeat split; intros.
  - unfold cmd_size. rewrite bool_decide_false by (vm_compute; tauto).
    unfold cbind, lift. rewrite at_1, Herr. reflexivity.
  - unfold cmd_show_encoded. rewrite bool_decide_false by (vm_compute; tauto).
    unfold cbind, lift. rewrite at_1, Herr. reflexivity.
  - unfold cmd_optimize. rewrite bool_decide_false by (vm_compute; intuition discriminate).
    unfold cbind, lift. rewrite at_1, Herr. reflexivity.
  - unfold cmd_optimize. rewrite bool_decide_false by (vm_compute; intuition discriminate).
    unfold cbind, lift. rewrite at_1, Herr. reflexivity.
  - unfold cmd_export. rewrite bool_decide_false by (vm_compute; tauto).
    unfold cbind, lift. rewrite at_1, at_2, Herr. reflexivity.
  - unfold cmd_show_glyph. rewrite bool_decide_false by (vm_compute; tauto).
    unfold cbind, lift. rewrite at_1, Herr. reflexivity.
  - unfold cmd_filter. rewrite bool_decide_false by (rewrite !vsize_cons; pose proof (vsize_nonneg rest); lia).
    unfold cbind, lift. change (drop 2 (a0 :: src :: s :: rest)) with (s :: rest).
    rewrite H1, at_1, Herr. reflexivity.
Qed.

End WithBackend.

End FrontendTheorems.

(** ** The dispatch and the usage message *)

Module MainTheorems.

Section WithBackend.
Context `{Backend} `{Tools}.

Lemma never_returns_bind {A B} (bad : B) (c : cmd A) (k : A -> cmd B) :
  (forall a, never_returns bad (k a)) -> never_returns bad (cbind c k).
Proof.
  intros Hk w w'. unfold cbind.
  destruct (c w) as [[a| | |] w1]; [apply Hk|discriminate..].
Qed.

Lemma never_returns_cret {A} (bad a : A) : a <> bad -> never_returns bad (cret a).
Proof. intros Hne w w' [= Heq]. congruence. Qed.

Lemma never_returns_lift {A} (bad : A) (r : res A) :
  r <> Ok bad -> never_returns bad (lift r).
Proof. intros Hne w w' [= Heq]. congruence. Qed.

Ltac never_returns_step :=
  first
    [ apply never_returns_bind; intros
    | apply never_returns_cret; discriminate
    | apply never_returns_lift; discriminate
    | match goal with
      | |- never_returns _ (match ?x with _ => _ end) => destruct x
      | |- never_returns _ (if ?b then _ else _) => destruct b
      end ].

Ltac never_returns_tac := unfold never_invalid; repeat never_returns_step.

Lemma loop_step_status (src : string) (limit oldsize oldtime : Z) (st : loop_state) :
  never_returns (inl STATUS_INVALID) (loop_step src limit oldsize oldtime st).
Proof. unfold loop_step. never_returns_tac. Qed.

Lemma loop_steps_status (n : nat) (src : string) (limit oldsize oldtime : Z) :
  forall st : loop_state,
    never_returns (inl STATUS_INVALID) (loop_steps n src limit oldsize oldtime st).
Proof.
  induction n as [|n IH]; intros st; simpl.
  - never_returns_tac.
  - intros w w'. unfold cbind.
    pose proof (loop_step_status src limit oldsize oldtime st w) as Hs.
    destruct (loop_step src limit oldsize oldtime st w) as [[[status|st']| | |] w1];
      try discriminate.
    + intros [= -> ->]. apply (Hs w'). reflexivity.
    + apply IH.
Qed.

Lemma run_loop_status (fuel : nat) (src : string) (limit oldsize oldtime : Z)
  (st : loop_state) :
  never_invalid (run_loop fuel src limit oldsize oldtime st).
Proof.
  intros w w'. unfold run_loop, cbind.
  pose proof (loop_steps_status fuel src limit oldsize oldtime st w) as Hs.
  destruct (loop_steps fuel src limit oldsize oldtime st w) as [[[status|st']| | |] w1];
    try discriminate.
  intros [= -> ->]. apply (Hs w'). reflexivity.
Qed.

(** The commands return [STATUS_INVALID] from the check of the number
    of arguments and from nowhere else. *)
Lemma cmd_import_ttf_checked (args : list string) :
  vsize args = 3 \/ vsize args = 4 -> never_invalid (cmd_import_ttf args).
Proof.
  intros Hn. unfold cmd_import_ttf. rewrite bool_decide_false by lia.
  never_returns_tac.
Qed.

Lemma cmd_import_bdf_checked (args : list string) :
  vsize args = 2 -> never_invalid (cmd_import_bdf args).
Proof.
  intros Hn. unfold cmd_import_bdf. rewrite bool_decide_false by lia.
  never_returns_tac.
Qed.

Lemma cmd_export_checked (args : list string) :
  vsize args = 3 -> never_invalid (cmd_export args).
Proof.
  intros Hn. unfold cmd_export. rewrite bool_decide_false by lia.
  never_returns_tac.
Qed.

Lemma cmd_filter_checked (fuel : nat) (args : list string) :
  3 <= vsize args -> never_invalid (cmd_filter fuel args).
Proof.
  intros Hn. unfold cmd_filter. rewrite bool_decide_false by lia.
  never_returns_tac.
Qed.

Lemma cmd_size_checked (args : list string) :
  vsize args = 2 -> never_invalid (cmd_size args).
Proof.
  intros Hn. unfold cmd_size. rewrite bool_decide_false by lia.
  never_returns_tac.
Qed.

Lemma cmd_optimize_checked (fuel : nat) (args : list string) :
  vsize args = 2 \/ vsize args = 3 -> never_invalid (cmd_optimize fuel args).
Proof.
  intros Hn. unfold cmd_optimize. rewrite bool_decide_false by lia.
  unfold never_invalid.
  do 2 never_returns_step. destruct a0; [|never_returns_tac].
  do 6 never_returns_step. apply run_loop_status.
Qed.

Lemma cmd_show_encoded_checked (args : list string) :
  vsize args = 2 -> never_invalid (cmd_show_encoded args).
Proof.
  intros Hn. unfold cmd_show_encoded. rewrite bool_decide_false by lia.
  never_returns_tac.
Qed.

Lemma cmd_show_glyph_checked (args : list string) :
  vsize args = 3 -> never_invalid (cmd_show_glyph args).
Proof.
  intros Hn. unfold cmd_show_glyph. rewrite bool_decide_false by lia.
  never_returns_tac.
Qed.

Lemma command_list_lookup (fuel : nat) (name : string) :
  command_list fuel !! name
  = if bool_decide (name = "import_ttf") then Some cmd_import_ttf
    else if bool_decide (name = "import_bdf") then Some cmd_import_bdf
    else if bool_decide (name = "export") then Some cmd_export
    else if bool_decide (name = "filter") then Some (cmd_filter fuel)
    else if bool_decide (name = "size") then Some cmd_size
    else if bool_decide (name = "optimize") then Some (cmd_optimize fuel)
    else if bool_decide (name = "show_encoded") then Some cmd_show_encoded
    else if bool_decide (name = "show_glyph") then Some cmd_show_glyph
    else None.
Proof.
  unfold command_list, command_table.
  repeat (rewrite list_to_map_cons;
          case_bool_decide;
          [subst name; apply lookup_insert_eq
          |rewrite lookup_insert_ne by congruence]).
  apply lookup_empty.
Qed.

(** What the dispatch does with a command that is there. *)
Lemma main_dispatch (fuel : nat) (a0 : string) (rest args : list string)
  (command : cmd_t) (p : string) (w : world) :
  args = a0 :: rest ->
  command_list fuel !! a0 = Some command ->
  (forall w1, command args w = (Ok STATUS_INVALID, w1) ->
     main fuel (p :: args) w = (Ok 1, usage_shown w1)) /\
  (never_invalid (command args) -> forall w', main fuel (p :: args) w <> (Ok 1, w')).
Proof.
  intros -> Hl. unfold main, cmd_t in *.
  change (drop 1 (p :: a0 :: rest)) with (a0 :: rest).
  rewrite bool_decide_true by (rewrite FrontendTheorems.vsize_cons; pose proof (vsize_nonneg rest); lia).
  split.
  - intros w1 Hc. unfold cbind at 1 2. unfold cbind at 1. unfold lift.
    change (at_ (a0 :: rest) 0) with (Ok a0). cbv beta iota.
    rewrite Hl, Hc. reflexivity.
  - intros Hni w'. unfold cbind at 1 2. unfold cbind at 1. unfold lift.
    change (at_ (a0 :: rest) 0) with (Ok a0). cbv beta iota.
    rewrite Hl. specialize (Hni w).
    destruct (command (a0 :: rest) w) as [[[]| | |] w1]; try discriminate.
    exfalso. apply (Hni w1). reflexivity.
Qed.

Lemma main_unknown (fuel : nat) (argv : list string) (w : world) :
  match drop 1 argv with
  | [] => True
  | a0 :: _ => command_list fuel !! a0 = None
  end ->
  main fuel argv w = (Ok 1, usage_shown w).
Proof.
  unfold main, cmd_t in *. destruct (drop 1 argv) as [|a0 rest]; intros Hl.
  - reflexivity.
  - rewrite bool_decide_true
      by (rewrite FrontendTheorems.vsize_cons; pose proof (vsize_nonneg rest); lia).
    unfold cbind at 1 2. unfold cbind at 1. unfold lift.
    change (at_ (a0 :: rest) 0) with (Ok a0). cbv beta iota.
    rewrite Hl. reflexivity.
Qed.

Ltac dispatch_case Hl checked :=
  match goal with
  | |- context [main ?fuel (?p :: ?a0 :: ?rest) ?w] =>
      destruct (main_dispatch fuel a0 rest (a0 :: rest) _ p w eq_refl Hl)
        as [Hbad Hgood];
      split;
      [ intros Hu; apply negb_true_iff, bool_decide_eq_false in Hu;
        apply Hbad;
        unfold cmd_import_ttf, cmd_import_bdf, cmd_export, cmd_filter, cmd_size,
          cmd_optimize, cmd_show_encoded, cmd_show_glyph;
        rewrite bool_decide_true by lia; reflexivity
      | intros Hu; apply negb_false_iff, bool_decide_eq_true in Hu;
        apply Hgood, checked; lia ]
  end.

(** X4: [main] returns 1 exactly when there is no command, the command
    is not in the list, or the number of arguments does not pass the
    check at the head of the command; then the usage message on
    [std::cout] is all that has happened. *)
Theorem main_usage (fuel : nat) (argv : list string) (w : world) :
  (usage_error (drop 1 argv) = true ->
   main fuel argv w = (Ok 1, usage_shown w)) /\
  (usage_error (drop 1 argv) = false ->
   forall w', main fuel argv w <> (Ok 1, w')).
Proof.
  destruct argv as [|p [|a0 rest]]; [split; [reflexivity|discriminate]..|].
  change (drop 1 (p :: a0 :: rest)) with (a0 :: rest). unfold usage_error, accepts.
  pose proof (command_list_lookup fuel a0) as Hl.
  repeat (case_bool_decide;
          [ try (dispatch_case Hl cmd_import_ttf_checked);
            try (dispatch_case Hl cmd_import_bdf_checked);
            try (dispatch_case Hl cmd_export_checked);
            try (dispatch_case Hl (cmd_filter_checked fuel));
            try (dispatch_case Hl cmd_size_checked);
            try (dispatch_case Hl (cmd_optimize_checked fuel));
            try (dispatch_case Hl cmd_show_encoded_checked);
            try (dispatch_case Hl cmd_show_glyph_checked) | ]).
  split; [|discriminate]. intros _.
  apply (main_unknown fuel (p :: a0 :: rest)). exact Hl.
Qed.

End WithBackend.

End MainTheorems.

(** ** cmd_show_glyph *)

Module ShowGlyphTheorems.
Import SizeTheorems FrontendTheorems.

Lemma first_longest_nil : first_longest [] 0 0.
Proof.
  repeat split; try lia. intros g Hg. apply elem_of_nil in Hg. destruct Hg.
Qed.

Lemma first_longest_snoc_longer (pre : list (list Z)) (g : list Z) (index maxlen : Z) :
  first_longest pre index maxlen -> 0 <= maxlen -> vsize g > maxlen ->
  first_longest (pre ++ [g]) (vsize pre) (vsize g).
Proof.
  intros (Hall & Hzero & Hpos) Hnn Hg. repeat split.
  - intros g' Hin. apply elem_of_app in Hin as [Hin|Hin].
    + specialize (Hall g' Hin). lia.
    + apply list_elem_of_singleton in Hin. subst g'. lia.
  - lia.
  - apply vsize_nonneg.
  - assert (Z.to_nat (vsize pre) = length pre) as Hlen
      by (unfold vsize; apply Nat2Z.id).
    rewrite Hlen. exists g.
    split; [apply list_lookup_middle; reflexivity|]. split; [reflexivity|].
    intros j g' Hj Hl. rewrite lookup_app_l in Hl by exact Hj.
    apply list_elem_of_lookup_2 in Hl. specialize (Hall g' Hl). lia.
Qed.

Lemma first_longest_snoc_shorter (pre : list (list Z)) (g : list Z) (index maxlen : Z) :
  first_longest pre index maxlen -> ¬ vsize g > maxlen ->
  first_longest (pre ++ [g]) index maxlen.
Proof.
  intros (Hall & Hzero & Hpos) Hg. repeat split.
  - intros g' Hin. apply elem_of_app in Hin as [Hin|Hin].
    + apply Hall, Hin.
    + apply list_elem_of_singleton in Hin. subst g'. lia.
  - exact Hzero.
  - apply Hpos, H.
  - destruct (Hpos H) as (_ & g0 & Hl & Hlen & Hbefore).
    exists g0. split; [|split; [exact Hlen|]].
    + apply lookup_app_l_Some, Hl.
    + intros j g' Hj Hl'. apply (Hbefore j g' Hj).
      rewrite lookup_app_l in Hl'; [exact Hl'|].
      apply lookup_lt_Some in Hl. lia.
Qed.

Lemma largest_loop_inv (gs : list (list Z)) :
  forall (pre : list (list Z)) (maxlen index : Z),
    vsize (pre ++ gs) < SIZE_MOD ->
    first_longest pre index maxlen -> 0 <= maxlen ->
    let r := largest_loop gs maxlen index (vsize pre) in
    first_longest (pre ++ gs) r.1 r.2.
Proof.
  induction gs as [|g gs IH]; intros pre maxlen index Hsize Hinv Hnn; simpl.
  - rewrite app_nil_r. exact Hinv.
  - assert (size_inc (vsize pre) = vsize (pre ++ [g])) as Hinc.
    { rewrite vsize_app. change (vsize [g]) with 1.
      apply size_inc_small; [apply vsize_nonneg|].
      rewrite vsize_app in Hsize. unfold vsize in Hsize |- *.
      simpl length in Hsize. lia. }
    rewrite Hinc.
    replace (pre ++ g :: gs) with ((pre ++ [g]) ++ gs) in Hsize |- *
      by (rewrite <- app_assoc; reflexivity).
    case_bool_decide as Hg.
    + apply IH; [exact Hsize| |pose proof (vsize_nonneg g); lia].
      apply (first_longest_snoc_longer pre g index maxlen); assumption.
    + apply IH; [exact Hsize| |exact Hnn].
      apply first_longest_snoc_shorter; assumption.
Qed.

(** X12: the loop of show_glyph over the encoded glyphs ends with the
    greatest length and the index of the first glyph of that length,
    index 0 when every glyph is empty or there is none. *)
Theorem largest_first_longest (gs : list (list Z)) :
  vsize gs < SIZE_MOD ->
  first_longest gs (largest_loop gs 0 0 0).1 (largest_loop gs 0 0 0).2.
Proof.
  intros Hsize.
  apply (largest_loop_inv gs [] 0 0); [exact Hsize|apply first_longest_nil|lia].
Qed.

Lemma first_longest_in_range (gs : list (list Z)) (index maxlen : Z) :
  first_longest gs index maxlen -> gs <> [] -> 0 <= maxlen ->
  0 <= index < vsize gs.
Proof.
  intros (_ & Hzero & Hpos) Hne Hnn.
  destruct (decide (maxlen = 0)) as [Hz|Hz].
  - rewrite (Hzero Hz). destruct gs; [congruence|].
    rewrite vsize_cons. pose proof (vsize_nonneg gs). lia.
  - destruct Hpos as (Hi & g & Hl & _); [lia|].
    apply lookup_lt_Some in Hl. unfold vsize. lia.
Qed.

Lemma largest_loop_nonneg (gs : list (list Z)) :
  forall maxlen index i, 0 <= maxlen -> 0 <= (largest_loop gs maxlen index i).2.
Proof.
  induction gs as [|g gs IH]; intros maxlen index i Hnn; simpl; [exact Hnn|].
  case_bool_decide; apply IH; [apply vsize_nonneg|exact Hnn].
Qed.

Lemma strtol_range (s : string) (b : Z) : LONG_MIN <= strtol s b <= LONG_MAX.
Proof.
  unfold strtol.
  destruct (read_sign (skip_space s)) as [neg s1].
  destruct (read_prefix b s1) as [b' s2].
  destruct (read_digits b' s2) as [|d ds]; [vm_compute; split; discriminate|].
  repeat case_bool_decide; try lia; vm_compute; split; discriminate.
Qed.

Lemma strtol_stoi (s : string) (b : Z) :
  (forall v, stoi s b = Ok v -> strtol s b = v) /\
  (stoi s b = Throw invalid_argument -> strtol s b = 0).
Proof.
  unfold stoi, strtol.
  destruct (read_sign (skip_space s)) as [neg s1].
  destruct (read_prefix b s1) as [b' s2].
  destruct (read_digits b' s2) as [|d ds]; [split; [discriminate|reflexivity]|].
  split.
  - intros v. case_bool_decide as Hr; [|discriminate]. intros [= <-].
    unfold INT_MIN, INT_MAX in Hr. unfold LONG_MIN, LONG_MAX.
    rewrite !bool_decide_false by lia. reflexivity.
  - case_bool_decide; discriminate.
Qed.

Section WithBackend.
Context `{Backend} `{Tools}.

(** X13: show_glyph with [largest], on a loaded font whose encoding has
    one string per glyph: it prints the index and length of the first
    longest glyph and then the text of that glyph, with [STATUS_OK];
    on a font without glyphs it prints [Index 0, length 0], then [No
    such glyph 0] on [std::cerr], and returns [STATUS_ERROR]. *)
Theorem show_glyph_largest (a0 src t : string) (f : DataFile) (w : world) :
  files w !! src = Some t -> DataFile_Load t = Some f ->
  vsize (glyphs (encode_font f)) = GetGlyphCount f ->
  GetGlyphCount f < SIZE_MOD ->
  let r := largest_loop (glyphs (encode_font f)) 0 0 0 in
  let w1 := printed (fun o => o << put_str "Index " << put_size r.1
                                << put_str ", length " << put_size r.2 << endl) w in
  first_longest (glyphs (encode_font f)) r.1 r.2 /\
  (GetGlyphCount f = 0 ->
   r = (0, 0) /\
   cmd_show_glyph [a0; src; "largest"] w
   = (Ok STATUS_ERROR,
      eprinted (fun o => o << put_str "No such glyph " << put_size 0 << endl) w1)) /\
  (GetGlyphCount f <> 0 ->
   0 <= r.1 < GetGlyphCount f /\
   cmd_show_glyph [a0; src; "largest"] w
   = (Ok STATUS_OK, printed (fun o => o << put_str (GlyphToText f r.1)) w1)).
Proof.
  intros Hfile Hload Hcount Hsize r w1.
  assert (first_longest (glyphs (encode_font f)) r.1 r.2) as Hfl
      by (apply (largest_loop_inv _ [] 0 0);
          [change (vsize (glyphs (encode_font f)) < SIZE_MOD); lia
          |apply first_longest_nil|lia]).
  assert (cmd_show_glyph [a0; src; "largest"] w
          = if bool_decide (r.1 < 0 \/ r.1 >= GetGlyphCount f)
            then (Ok STATUS_ERROR,
                  eprinted (fun o => o << put_str "No such glyph "
                                       << put_size r.1 << endl) w1)
            else (Ok STATUS_OK,
                  printed (fun o => o << put_str (GlyphToText f r.1)) w1)) as Hrun.
  { unfold cmd_show_glyph. rewrite bool_decide_false by (vm_compute; tauto).
    unfold cbind at 1 2. unfold lift at 1. rewrite at_1.
    rewrite (load_dat_ok src t f w Hfile Hload).
    unfold cbind at 1. unfold lift at 1. rewrite at_2.
    rewrite bool_decide_true by reflexivity.
    unfold cbind at 1 2. fold r. unfold print at 1. unfold cret at 1.
    fold (printed (fun o => o << put_str "Index " << put_size r.1
                              << put_str ", length " << put_size r.2 << endl) w).
    fold w1. case_bool_decide; reflexivity. }
  split; [exact Hfl|]. split.
  - intros Hz.
    assert (glyphs (encode_font f) = []) as Hnil.
    { destruct (glyphs (encode_font f)) as [|g0 gs0]; [reflexivity|].
      exfalso. rewrite vsize_cons in Hcount. pose proof (vsize_nonneg gs0). lia. }
    assert (r = (0, 0)) as Hr by (unfold r; rewrite Hnil; reflexivity).
    split; [exact Hr|]. rewrite Hrun, Hr. simpl fst.
    rewrite bool_decide_true by lia. reflexivity.
  - intros Hnz.
    assert (0 <= r.1 < GetGlyphCount f) as Hin.
    { rewrite <- Hcount. apply (first_longest_in_range _ _ _ Hfl).
      - intros Hnil. rewrite Hnil in Hcount. apply Hnz. rewrite <- Hcount. reflexivity.
      - apply largest_loop_nonneg. lia. }
    split; [exact Hin|]. rewrite Hrun. rewrite bool_decide_false by lia. reflexivity.
Qed.

Lemma cmd_show_glyph_by_index (a0 src t a : string) (f : DataFile) (w : world) :
  files w !! src = Some t -> DataFile_Load t = Some f ->
  a <> "largest" ->
  cmd_show_glyph [a0; src; a] w
  = let index := wrap_size (strtol a 0) in
    if bool_decide (index < 0 \/ index >= GetGlyphCount f)
    then (Ok STATUS_ERROR,
          eprinted (fun o => o << put_str "No such glyph "
                               << put_size index << endl) w)
    else (Ok STATUS_OK,
          printed (fun o => o << put_str (GlyphToText f index)) w).
Proof.
  intros Hfile Hload Ha.
  unfold cmd_show_glyph. rewrite bool_decide_false by (vm_compute; tauto).
  unfold cbind at 1 2. unfold lift at 1. rewrite at_1.
  rewrite (load_dat_ok src t f w Hfile Hload).
  unfold cbind at 1. unfold lift at 1. rewrite at_2.
  rewrite bool_decide_false by exact Ha.
  unfold cbind at 1. unfold cret at 1. cbv zeta.
  case_bool_decide; reflexivity.
Qed.

Lemma wrap_size_long (v : Z) :
  LONG_MIN <= v <= LONG_MAX ->
  wrap_size v = if bool_decide (v < 0) then v + 2 ^ 64 else v.
Proof.
  unfold LONG_MIN, LONG_MAX, wrap_size, SIZE_MOD. intros Hv. case_bool_decide.
  - symmetry. apply (Z.mod_unique _ _ (-1)); lia.
  - apply Z.mod_small. lia.
Qed.

(** X14: show_glyph with an index argument prints the glyph and returns
    [STATUS_OK] exactly when the number [strtol] reads is from 0 to
    the glyph count less one; otherwise it returns [STATUS_ERROR] and
    [std::cerr] names the index as the unsigned number it has become,
    a negative one increased by [2^64]. *)
Theorem show_glyph_index (a0 src t a : string) (f : DataFile) (w : world) :
  files w !! src = Some t -> DataFile_Load t = Some f ->
  a <> "largest" ->
  GetGlyphCount f <= LONG_MAX ->
  let v := strtol a 0 in
  (0 <= v < GetGlyphCount f ->
   cmd_show_glyph [a0; src; a] w
   = (Ok STATUS_OK, printed (fun o => o << put_str (GlyphToText f v)) w)) /\
  (¬ (0 <= v < GetGlyphCount f) ->
   cmd_show_glyph [a0; src; a] w
   = (Ok STATUS_ERROR,
      eprinted (fun o => o << put_str "No such glyph "
                           << put_size (if bool_decide (v < 0) then v + 2 ^ 64 else v)
                           << endl) w)).
Proof.
  intros Hfile Hload Ha Hcount v.
  pose proof (strtol_range a 0) as Hv. fold v in Hv.
  rewrite (cmd_show_glyph_by_index a0 src t a f w Hfile Hload Ha).
  fold v. cbv zeta. rewrite (wrap_size_long v Hv).
  unfold LONG_MIN, LONG_MAX in *. split; intros Hr.
  - rewrite (bool_decide_false (v < 0)) by lia.
    rewrite bool_decide_false by lia. reflexivity.
  - destruct (decide (v < 0)) as [Hn|Hn];
      [rewrite !(bool_decide_true (v < 0)) by exact Hn
      |rewrite !(bool_decide_false (v < 0)) by exact Hn];
      rewrite bool_decide_true by lia; reflexivity.
Qed.

(** X15: an index argument of show_glyph that [std::stoi] would reject
    as no number is read as 0 by [strtol]: the command shows the first
    glyph and returns [STATUS_OK]. *)
Theorem show_glyph_not_a_number (a0 src t a : string) (f : DataFile) (w : world) :
  files w !! src = Some t -> DataFile_Load t = Some f ->
  a <> "largest" ->
  stoi a 0 = Throw invalid_argument ->
  0 < GetGlyphCount f ->
  strtol a 0 = 0 /\
  cmd_show_glyph [a0; src; a] w
  = (Ok STATUS_OK, printed (fun o => o << put_str (GlyphToText f 0)) w).
Proof.
  intros Hfile Hload Ha Hstoi Hcount.
  destruct (strtol_stoi a 0) as [_ Hzero]. specialize (Hzero Hstoi).
  split; [exact Hzero|].
  rewrite (cmd_show_glyph_by_index a0 src t a f w Hfile Hload Ha).
  rewrite Hzero. change (wrap_size 0) with 0. cbv zeta.
  rewrite bool_decide_false by lia. reflexivity.
Qed.

End WithBackend.

End ShowGlyphTheorems.

(** ** cmd_import_ttf, cmd_import_bdf and cmd_export *)

Module ImportExportTheorems.
Import SizeTheorems FrontendTheorems StripTheorems.

Lemma at_3 {A} (a0 a1 a2 a3 : A) (rest : list A) :
  at_ (a0 :: a1 :: a2 :: a3 :: rest) 3 = Ok a3.
Proof.
  unfold at_. rewrite bool_decide_true; [reflexivity|].
  unfold vsize. simpl length. lia.
Qed.

Section WithBackend.
Context `{Backend} `{Tools}.

(** The command past the parsing of its arguments. *)
Lemma cmd_import_ttf_parsed (a0 src s : string) (more : list string)
  (size : Z) (w : world) :
  (more = [] \/ exists x, more = [x]) ->
  stoi s 10 = Ok size ->
  let bw := bool_decide (more = ["bw"]) in
  let dest := import_ttf_dest src size bw in
  cmd_import_ttf (a0 :: src :: s :: more) w
  = match files w !! src with
    | None => (Ok STATUS_ERROR, complain "Could not open " src w)
    | Some t =>
        let f := init_dictionary (LoadFreetype t size bw) in
        let w1 := printed (fun o => o << put_str "Importing " << put_str src
                                      << put_str " to " << put_str dest << endl) w in
        match save_dat dest f w1 with
        | (Ok true, w2) =>
            (Ok STATUS_OK,
             printed (fun o => o << put_str "Done: " << put_size (GetGlyphCount f)
                                 << put_str " unique glyphs." << endl) w2)
        | (Ok false, w2) => (Ok STATUS_ERROR, w2)
        | (Throw e, w2) => (Throw e, w2)
        | (DivideError, w2) => (DivideError, w2)
        | (OutOfFuel, w2) => (OutOfFuel, w2)
        end
    end.
Proof.
  intros Hmore Hsize bw dest. unfold cmd_import_ttf.
  rewrite bool_decide_false
    by (destruct Hmore as [->|[x ->]]; vm_compute; intuition discriminate).
  unfold cbind at 1. unfold lift at 1. rewrite at_1.
  unfold cbind at 1. unfold lift at 1. rewrite at_2.
  unfold cbind at 1. unfold lift at 1. rewrite Hsize.
  assert ((if bool_decide (vsize (a0 :: src :: s :: more) = 4)
           then let! a := lift (at_ (a0 :: src :: s :: more) 3) in
                cret (bool_decide (a = "bw"))
           else cret false) w = (Ok bw, w)) as Hbw.
  { destruct Hmore as [->|[x ->]].
    - rewrite bool_decide_false by (vm_compute; discriminate). reflexivity.
    - rewrite bool_decide_true by reflexivity.
      unfold cbind, lift. rewrite at_3. unfold cret. f_equal. f_equal.
      unfold bw. apply bool_decide_ext. split; [intros ->; reflexivity|].
      intros [= ->]. reflexivity. }
  unfold cbind at 1. rewrite Hbw.
  unfold cbind at 1. unfold read_file at 1. cbv beta iota. fold dest.
  destruct (files w !! src) as [t|]; [|reflexivity].
  unfold cbind at 1. unfold print at 1.
  fold (printed (fun o => o << put_str "Importing " << put_str src
                            << put_str " to " << put_str dest << endl) w).
  cbv zeta. unfold cbind at 1.
  destruct (save_dat dest _ _) as [[[]| | |] w2]; reflexivity.
Qed.

Lemma cmd_import_bdf_parsed (a0 src : string) (w : world) :
  let dest := strip_extension src +:+ ".dat" in
  cmd_import_bdf [a0; src] w
  = match files w !! src with
    | None => (Ok STATUS_ERROR, complain "Could not open " src w)
    | Some t =>
        let f := init_dictionary (LoadBDF t) in
        let w1 := printed (fun o => o << put_str "Importing " << put_str src
                                      << put_str " to " << put_str dest << endl) w in
        match save_dat dest f w1 with
        | (Ok true, w2) =>
            (Ok STATUS_OK,
             printed (fun o => o << put_str "Done: " << put_size (GetGlyphCount f)
                                 << put_str " unique glyphs." << endl) w2)
        | (Ok false, w2) => (Ok STATUS_ERROR, w2)
        | (Throw e, w2) => (Throw e, w2)
        | (DivideError, w2) => (DivideError, w2)
        | (OutOfFuel, w2) => (OutOfFuel, w2)
        end
    end.
Proof.
  intros dest. unfold cmd_import_bdf.
  rewrite bool_decide_false by (vm_compute; tauto).
  unfold cbind at 1. unfold lift at 1. rewrite at_1.
  unfold cbind at 1. unfold lift at 1.
  unfold cbind at 1. unfold read_file at 1. cbv beta iota. fold dest.
  destruct (files w !! src) as [t|]; [|reflexivity].
  unfold cbind at 1. unfold print at 1.
  fold (printed (fun o => o << put_str "Importing " << put_str src
                            << put_str " to " << put_str dest << endl) w).
  cbv zeta. unfold cbind at 1.
  destruct (save_dat dest _ _) as [[[]| | |] w2]; reflexivity.
Qed.

(** X6: a fourth argument of import_ttf other than [bw] is accepted and
    ignored: the command does what it does without it. *)
Theorem import_ttf_fourth_argument (a0 src s x : string) (w : world) :
  x <> "bw" ->
  cmd_import_ttf [a0; src; s; x] w = cmd_import_ttf [a0; src; s] w.
Proof.
  intros Hx. destruct (stoi s 10) as [size| | |] eqn:Hs.
  - rewrite (cmd_import_ttf_parsed a0 src s [x] size w) by eauto.
    rewrite (cmd_import_ttf_parsed a0 src s [] size w) by eauto.
    rewrite (bool_decide_false ([x] = ["bw"])) by congruence.
    rewrite (bool_decide_false ([] = ["bw"])) by discriminate.
    reflexivity.
  - unfold cmd_import_ttf.
    rewrite !bool_decide_false by (vm_compute; intuition discriminate).
    unfold cbind, lift. rewrite !at_1, !at_2, Hs. reflexivity.
  - unfold cmd_import_ttf.
    rewrite !bool_decide_false by (vm_compute; intuition discriminate).
    unfold cbind, lift. rewrite !at_1, !at_2, Hs. reflexivity.
  - unfold cmd_import_ttf.
    rewrite !bool_decide_false by (vm_compute; intuition discriminate).
    unfold cbind, lift. rewrite !at_1, !at_2, Hs. reflexivity.
Qed.

(** X7: the size of import_ttf is read before the font file is opened:
    when [std::stoi] throws on it, the exception leaves the command
    with nothing printed and no file touched, whether the font file is
    there or not. *)
Theorem import_ttf_bad_size (a0 src s : string) (e : exception) (w : world) :
  stoi s 10 = Throw e ->
  cmd_import_ttf [a0; src; s] w = (Throw e, w) /\
  forall x, cmd_import_ttf [a0; src; s; x] w = (Throw e, w).
Proof.
  intros Hs. split; [|intros x]; unfold cmd_import_ttf;
    rewrite !bool_decide_false by (vm_compute; intuition discriminate);
    unfold cbind, lift; rewrite !at_1, !at_2, Hs; reflexivity.
Qed.

(** X8: import_ttf of [base.ext] with a size that reads as [size], when
    the font file is there and the save goes well, writes the imported
    font with its initial dictionary to [base], the decimal numeral of
    [size], [bw] if asked for, and [.dat]; it reports the import and
    the number of glyphs and returns [STATUS_OK]. *)
Theorem import_ttf_run (a0 base ext s : string) (more : list string) (size : Z)
  (t : string) (w : world) :
  find "." ext = None ->
  (more = [] \/ exists x, more = [x]) ->
  stoi s 10 = Ok size ->
  files w !! (base +:+ "." +:+ ext) = Some t ->
  faults w (nsaves w) = NoFault ->
  let src := base +:+ "." +:+ ext in
  let bw := bool_decide (more = ["bw"]) in
  let dest := base +:+ to_string size +:+ (if bw then "bw" else "") +:+ ".dat" in
  let f := init_dictionary (LoadFreetype t size bw) in
  cmd_import_ttf (a0 :: src :: s :: more) w
  = (Ok STATUS_OK,
     mk_world (<[dest := DataFile_Save f]> (files w))
       (cout w << put_str "Importing " << put_str src
               << put_str " to " << put_str dest << endl
               << put_str "Done: " << put_size (GetGlyphCount f)
               << put_str " unique glyphs." << endl)
       (cerr w) (rnd w) (faults w) (S (nsaves w)) (clock w) (nticks w)
       (events w ++ [EvSave dest f true])).
Proof.
  intros Hext Hmore Hs Hfile Hfault src bw dest f.
  rewrite (cmd_import_ttf_parsed a0 src s more size w Hmore Hs).
  fold bw. assert (files w !! src = Some t) as -> by exact Hfile. cbv zeta.
  assert (import_ttf_dest src size bw = dest) as ->.
  { unfold import_ttf_dest, src, strip_extension.
    change ("." +:+ ext) with (String "." ext).
    rewrite (find_last_of_app _ _ _ Hext), substr_to_app. reflexivity. }
  rewrite save_dat_spec. simpl faults. simpl nsaves. rewrite Hfault.
  reflexivity.
Qed.

(** X9: import_bdf of a font file that is there saves the imported font
    to the name stripped of its extension plus [.dat].  When the save
    goes well the file holds the font, the number of glyphs is
    reported and the status is [STATUS_OK]; when the file cannot be
    opened or written the status is [STATUS_ERROR], [Done] is not
    printed, and the file is untouched or holds what was written. *)
Theorem import_bdf_run (a0 src t : string) (w : world) :
  files w !! src = Some t ->
  let dest := strip_extension src +:+ ".dat" in
  let f := init_dictionary (LoadBDF t) in
  let importing := fun o => o << put_str "Importing " << put_str src
                              << put_str " to " << put_str dest << endl in
  let r := cmd_import_bdf [a0; src] w in
  match faults w (nsaves w) with
  | NoFault =>
      r.1 = Ok STATUS_OK /\
      files r.2 = <[dest := DataFile_Save f]> (files w) /\
      cout r.2 = cout w << importing << put_str "Done: "
                        << put_size (GetGlyphCount f)
                        << put_str " unique glyphs." << endl /\
      cerr r.2 = cerr w /\
      events r.2 = events w ++ [EvSave dest f true]
  | OpenFails =>
      r.1 = Ok STATUS_ERROR /\
      files r.2 = files w /\
      cout r.2 = cout w << importing /\
      cerr r.2 = cerr w << put_str "Could not open " << put_str dest << endl /\
      events r.2 = events w ++ [EvSave dest f false]
  | WriteFails partial =>
      r.1 = Ok STATUS_ERROR /\
      files r.2 = <[dest := partial]> (files w) /\
      cout r.2 = cout w << importing /\
      cerr r.2 = cerr w << put_str "Could not write to " << put_str dest << endl /\
      events r.2 = events w ++ [EvSave dest f false]
  end.
Proof.
  intros Hfile dest f importing r. unfold r.
  rewrite (cmd_import_bdf_parsed a0 src w). fold dest. rewrite Hfile. cbv zeta.
  fold f. rewrite save_dat_spec. simpl faults. simpl nsaves.
  destruct (faults w (nsaves w)); simpl; repeat split; reflexivity.
Qed.

(** X10: import_bdf, and import_ttf with a size that reads, of a font
    file that is not there return [STATUS_ERROR] with the line [Could
    not open] on [std::cerr] and nothing else changed. *)
Theorem import_missing_source (a0 src : string) (w : world) :
  files w !! src = None ->
  let failed := (Ok STATUS_ERROR, complain "Could not open " src w) in
  cmd_import_bdf [a0; src] w = failed /\
  (forall s size more,
      stoi s 10 = Ok size -> (more = [] \/ exists x, more = [x]) ->
      cmd_import_ttf (a0 :: src :: s :: more) w = failed).
Proof.
  intros Hfile failed. split.
  - rewrite (cmd_import_bdf_parsed a0 src w), Hfile. reflexivity.
  - intros s size more Hs Hmore.
    rewrite (cmd_import_ttf_parsed a0 src s more size w Hmore Hs), Hfile.
    reflexivity.
Qed.

(** X11: once the data file is loaded, export returns [STATUS_OK] and
    prints [Wrote] for the header and for the source whatever becomes
    of the two output streams, whose state is never looked at: when
    neither can be opened no file has changed, when both work the two
    files hold what [write_header] and [write_source] wrote. *)
Theorem export_reports_success (a0 src dst t : string) (f : DataFile) (w : world) :
  files w !! src = Some t -> DataFile_Load t = Some f ->
  let r := cmd_export [a0; src; dst] w in
  r.1 = Ok STATUS_OK /\
  cerr r.2 = cerr w /\
  cout r.2 = cout w << put_str "Wrote " << put_str dst << put_str ".h" << endl
                    << put_str "Wrote " << put_str dst << put_str ".c" << endl /\
  files r.2
  = written (faults w (S (nsaves w))) (dst +:+ ".c") (write_source dst f)
      (written (faults w (nsaves w)) (dst +:+ ".h") (write_header dst f) (files w)) /\
  (faults w (nsaves w) = OpenFails -> faults w (S (nsaves w)) = OpenFails ->
   files r.2 = files w) /\
  (faults w (nsaves w) = NoFault -> faults w (S (nsaves w)) = NoFault ->
   files r.2 = <[dst +:+ ".c" := write_source dst f]>
                 (<[dst +:+ ".h" := write_header dst f]> (files w))).
Proof.
  intros Hfile Hload r.
  assert (r = (Ok STATUS_OK,
               mk_world
                 (written (faults w (S (nsaves w))) (dst +:+ ".c") (write_source dst f)
                    (written (faults w (nsaves w)) (dst +:+ ".h")
                       (write_header dst f) (files w)))
                 (cout w << put_str "Wrote " << put_str dst << put_str ".h" << endl
                         << put_str "Wrote " << put_str dst << put_str ".c" << endl)
                 (cerr w) (rnd w) (faults w) (S (S (nsaves w))) (clock w) (nticks w)
                 (events w))) as ->.
  { unfold r, cmd_export. rewrite bool_decide_false by (vm_compute; tauto).
    unfold cbind at 1. unfold lift at 1. rewrite at_1.
    unfold cbind at 1. unfold lift at 1. rewrite at_2.
    unfold cbind at 1. rewrite (load_dat_ok src t f w Hfile Hload).
    reflexivity. }
  simpl. repeat split; try reflexivity.
  - intros -> ->. reflexivity.
  - intros -> ->. reflexivity.
Qed.

End WithBackend.

End ImportExportTheorems.

(** ** The filter as an operation on data files *)

Module FilterAlgebra.
Import Filter FilterTheorems SizeTheorems FrontendTheorems.

Lemma allowed_codes_set_chars (allowed : gset Z) (g : glyphentry_t) (cs : list Z) :
  allowed_codes allowed (set_chars g cs) = filter (λ c, c ∈ allowed) cs.
Proof. reflexivity. Qed.

Lemma set_chars_set_chars (g : glyphentry_t) (cs cs' : list Z) :
  set_chars (set_chars g cs) cs' = set_chars g cs'.
Proof. reflexivity. Qed.

Lemma allowed_codes_inter (A B : gset Z) (g : glyphentry_t) :
  filter (λ c, c ∈ B) (allowed_codes A g) = allowed_codes (A ∩ B) g.
Proof.
  unfold allowed_codes. rewrite list_filter_filter.
  apply list_filter_iff. intros c. rewrite elem_of_intersection. tauto.
Qed.

Lemma keep_glyph_inter (A B : gset Z) (g : glyphentry_t) :
  keep_glyph A g ≫= keep_glyph B = keep_glyph (A ∩ B) g.
Proof.
  unfold keep_glyph. rewrite <- (allowed_codes_inter A B g).
  destruct (allowed_codes A g) as [|c cs]; [reflexivity|].
  simpl. rewrite allowed_codes_set_chars.
  destruct (filter (λ c0, c0 ∈ B) (c :: cs)); reflexivity.
Qed.

Lemma omap_keep_inter (A B : gset Z) (gl : list glyphentry_t) :
  omap (keep_glyph B) (omap (keep_glyph A) gl) = omap (keep_glyph (A ∩ B)) gl.
Proof.
  induction gl as [|g gl IH]; [reflexivity|].
  cbn [omap list_omap]. fold (omap (keep_glyph A) gl).
  fold (omap (keep_glyph (A ∩ B)) gl).
  rewrite <- keep_glyph_inter.
  destruct (keep_glyph A g) as [g'|]; simpl.
  - fold (omap (keep_glyph B) (omap (keep_glyph A) gl)).
    rewrite IH. reflexivity.
  - exact IH.
Qed.

Lemma length_omap_le {A B} (f : A -> option B) (l : list A) :
  (length (omap f l) <= length l)%nat.
Proof.
  induction l as [|x l IH]; [reflexivity|].
  cbn [omap list_omap]. fold (omap f l). destruct (f x); simpl; lia.
Qed.

Lemma filtered_representable (allowed : gset Z) (f : DataFile) :
  representable f ->
  representable (mk_DataFile (GetDictionary f)
                   (omap (keep_glyph allowed) (GetGlyphTable f)) (GetFontInfo f)).
Proof.
  intros [Hn Hall]. split; simpl.
  - pose proof (length_omap_le (keep_glyph allowed) (GetGlyphTable f)).
    unfold vsize in *. lia.
  - apply Forall_forall. intros g' Hin.
    apply omap_keep_origin in Hin as (g & Hg & _ & Hc).
    rewrite Forall_forall in Hall. specialize (Hall g Hg).
    rewrite Hc. unfold allowed_codes.
    pose proof (length_filter (λ c, c ∈ allowed) (chars g)).
    unfold vsize in *. lia.
Qed.

Lemma filter_all {A} (P : A -> Prop) `{!∀ x, Decision (P x)} (l : list A) :
  Forall P l -> filter P l = l.
Proof.
  induction 1 as [|x l Hx _ IH]; [reflexivity|].
  rewrite filter_cons_True by exact Hx. rewrite IH. reflexivity.
Qed.

Lemma omap_keep_all (allowed : gset Z) (gl : list glyphentry_t) :
  Forall (fun g => chars g <> [] /\ Forall (λ c, c ∈ allowed) (chars g)) gl ->
  omap (keep_glyph allowed) gl = gl.
Proof.
  induction 1 as [|g gl [Hne Hall] _ IH]; [reflexivity|].
  cbn [omap list_omap]. fold (omap (keep_glyph allowed) gl). rewrite IH.
  unfold keep_glyph, allowed_codes. rewrite (filter_all _ _ Hall).
  destruct g as [d wd ht adv cs]. simpl in *.
  destruct cs; [congruence|reflexivity].
Qed.

(** X16: filtering a data file by [A] and the result by [B] is
    filtering it by the intersection of [A] and [B]; filtering the
    result by [A] again changes nothing. *)
Theorem filter_compose (A B : gset Z) (f : DataFile) :
  representable f ->
  exists f1 f2 : DataFile,
    filter_datafile A f = Ok f1 /\
    filter_datafile B f1 = Ok f2 /\
    filter_datafile (A ∩ B) f = Ok f2 /\
    filter_datafile A f1 = Ok f1.
Proof.
  intros Hrep.
  pose proof (filtered_representable A f Hrep) as Hrep1.
  eexists. eexists.
  split; [apply filter_datafile_spec, Hrep|].
  split; [apply filter_datafile_spec, Hrep1|].
  split.
  - rewrite (filter_datafile_spec _ _ Hrep). simpl.
    rewrite omap_keep_inter. reflexivity.
  - rewrite (filter_datafile_spec _ _ Hrep1). simpl.
    rewrite omap_keep_inter.
    replace (A ∩ A) with A by (apply set_eq; intros x; rewrite elem_of_intersection; tauto).
    reflexivity.
Qed.

(** X17: a filter that allows every code of a data file in which each
    glyph has a code returns the data file as it is. *)
Theorem filter_all_allowed (allowed : gset Z) (f : DataFile) :
  representable f ->
  Forall (fun g => chars g <> [] /\ Forall (λ c, c ∈ allowed) (chars g))
    (GetGlyphTable f) ->
  filter_datafile allowed f = Ok f.
Proof.
  intros Hrep Hall. rewrite (filter_datafile_spec _ _ Hrep).
  rewrite (omap_keep_all _ _ Hall). destruct f; reflexivity.
Qed.

Section WithBackend.
Context `{Backend}.

(** The command past the parsing and the loading. *)
Lemma cmd_filter_loaded (fuel : nat) (a0 src s : string) (rest : list string)
  (allowed : gset Z) (t : string) (f : DataFile) (w : world) :
  parse_args fuel ∅ (s :: rest) = Ok allowed ->
  files w !! src = Some t -> DataFile_Load t = Some f ->
  representable f ->
  let f' := mk_DataFile (GetDictionary f)
              (omap (keep_glyph allowed) (GetGlyphTable f)) (GetFontInfo f) in
  let w1 := printed (fun o => o << put_str "Font originally had "
                                << put_size (GetGlyphCount f)
                                << put_str " glyphs." << endl
                                << put_str "After filtering, "
                                << put_size (GetGlyphCount f')
                                << put_str " glyphs remain." << endl) w in
  cmd_filter fuel (a0 :: src :: s :: rest) w
  = match save_dat src f' w1 with
    | (Ok true, w2) => (Ok STATUS_OK, w2)
    | (Ok false, w2) => (Ok STATUS_ERROR, w2)
    | (Throw e, w2) => (Throw e, w2)
    | (DivideError, w2) => (DivideError, w2)
    | (OutOfFuel, w2) => (OutOfFuel, w2)
    end.
Proof.
  intros Hparse Hfile Hload Hrep f' w1. unfold cmd_filter.
  rewrite bool_decide_false
    by (rewrite !vsize_cons; pose proof (vsize_nonneg rest); lia).
  change (drop 2 (a0 :: src :: s :: rest)) with (s :: rest).
  unfold cbind at 1. unfold lift at 1. rewrite Hparse.
  unfold cbind at 1. unfold lift at 1. rewrite at_1.
  unfold cbind at 1. rewrite (load_dat_ok src t f w Hfile Hload).
  unfold cbind at 1. unfold print at 1.
  unfold cbind at 1. unfold lift at 1. rewrite (filter_datafile_spec _ _ Hrep).
  fold f'. unfold cbind at 1. unfold print at 1. cbn [files cout cerr rnd faults nsaves clock nticks events].
  fold (printed (fun o => o << put_str "Font originally had "
                            << put_size (GetGlyphCount f)
                            << put_str " glyphs." << endl
                            << put_str "After filtering, "
                            << put_size (GetGlyphCount f')
                            << put_str " glyphs remain." << endl) w).
  fold w1. unfold cbind at 1.
  destruct (save_dat src f' w1) as [[[]| | |] w2]; reflexivity.
Qed.

(** X18: filter rewrites the data file in place.  When the file cannot
    be opened for writing the command returns [STATUS_ERROR] and the
    file is as before; when the writing fails it returns
    [STATUS_ERROR] and the file holds what was written, the font it
    held is gone. *)
Theorem filter_save_failure (fuel : nat) (a0 src s : string) (rest : list string)
  (allowed : gset Z) (t : string) (f : DataFile) (w : world) :
  parse_args fuel ∅ (s :: rest) = Ok allowed ->
  files w !! src = Some t -> DataFile_Load t = Some f ->
  representable f ->
  let r := cmd_filter fuel (a0 :: src :: s :: rest) w in
  (faults w (nsaves w) = OpenFails ->
   r.1 = Ok STATUS_ERROR /\ files r.2 = files w /\
   cerr r.2 = cerr w << put_str "Could not open " << put_str src << endl) /\
  (forall partial,
   faults w (nsaves w) = WriteFails partial ->
   r.1 = Ok STATUS_ERROR /\ files r.2 = <[src := partial]> (files w) /\
   cerr r.2 = cerr w << put_str "Could not write to " << put_str src << endl).
Proof.
  intros Hparse Hfile Hload Hrep r. unfold r.
  rewrite (cmd_filter_loaded fuel a0 src s rest allowed t f w Hparse Hfile Hload Hrep).
  rewrite save_dat_spec. simpl faults. simpl nsaves.
  split; [intros ->|intros partial ->]; repeat split; reflexivity.
Qed.

(** X19: with a data file format that loads what it saved, running
    filter a second time with the same arguments succeeds and leaves
    the files as the first run left them. *)
Theorem filter_twice (fuel : nat) (a0 src s : string) (rest : list string)
  (allowed : gset Z) (t : string) (f : DataFile) (w : world) :
  parse_args fuel ∅ (s :: rest) = Ok allowed ->
  files w !! src = Some t -> DataFile_Load t = Some f ->
  representable f ->
  faults w (nsaves w) = NoFault -> faults w (S (nsaves w)) = NoFault ->
  let f' := mk_DataFile (GetDictionary f)
              (omap (keep_glyph allowed) (GetGlyphTable f)) (GetFontInfo f) in
  DataFile_Load (DataFile_Save f') = Some f' ->
  let r1 := cmd_filter fuel (a0 :: src :: s :: rest) w in
  let r2 := cmd_filter fuel (a0 :: src :: s :: rest) r1.2 in
  r1.1 = Ok STATUS_OK /\ r2.1 = Ok STATUS_OK /\ files r2.2 = files r1.2.
Proof.
  intros Hparse Hfile Hload Hrep Hf1 Hf2 f' Hround r1 r2.
  pose proof (cmd_filter_run fuel a0 src s rest allowed t f w
                Hparse Hfile Hload Hrep Hf1) as Hrun1.
  cbv zeta in Hrun1. fold f' in Hrun1. fold r1 in Hrun1.
  assert (files r1.2 !! src = Some (DataFile_Save f')) as Hfile1
      by (rewrite Hrun1; simpl; apply lookup_insert_eq).
  assert (faults r1.2 (nsaves r1.2) = NoFault) as Hfault1
      by (rewrite Hrun1; simpl; exact Hf2).
  pose proof (cmd_filter_run fuel a0 src s rest allowed _ f' r1.2
                Hparse Hfile1 Hround (filtered_representable allowed f Hrep) Hfault1)
    as Hrun2.
  cbv zeta in Hrun2. fold r2 in Hrun2.
  assert (omap (keep_glyph allowed) (GetGlyphTable f') = GetGlyphTable f') as Hidem.
  { unfold f'. simpl. rewrite omap_keep_inter.
    replace (allowed ∩ allowed) with allowed
      by (apply set_eq; intros x; rewrite elem_of_intersection; tauto).
    reflexivity. }
  rewrite Hidem in Hrun2.
  split; [rewrite Hrun1; reflexivity|]. split; [rewrite Hrun2; reflexivity|].
  rewrite Hrun2. simpl. rewrite Hrun1. simpl.
  rewrite insert_insert_eq. reflexivity.
Qed.

End WithBackend.

End FilterAlgebra.

(** ** The loop of cmd_optimize when a save fails *)

Module OptimizeFailures.
Import ParseTheorems SizeTheorems OptimizeTheorems.

(** Line 290 in numbers. *)
Lemma bytes_per_min_cases (oldsize newsize oldtime newtime : Z) :
  bytes_per_min oldsize newsize oldtime newtime
  = if bool_decide (wrap_size (newtime - oldtime + 1) = 0) then DivideError
    else Ok (wrap_int (wrap_size (wrap_size (oldsize - newsize) * 60)
                       / wrap_size (newtime - oldtime + 1))).
Proof.
  unfold bytes_per_min, size_div. case_bool_decide; reflexivity.
Qed.

(** X21: the speed of line 290 is a division error exactly when the
    clock reads the second before the start of the loop, modulo
    [2^64]; with a clock that has not gone back and a size that has not
    grown it is the saved bytes times 60 over the seconds passed plus
    one, as long as the product is an [int]. *)
Theorem bytes_per_min_defined (oldsize newsize oldtime newtime : Z) :
  (bytes_per_min oldsize newsize oldtime newtime = DivideError
   <-> (newtime - oldtime + 1) mod 2 ^ 64 = 0) /\
  (0 <= newtime - oldtime < 2 ^ 64 - 1 ->
   0 <= oldsize - newsize -> (oldsize - newsize) * 60 <= INT_MAX ->
   bytes_per_min oldsize newsize oldtime newtime
   = Ok ((oldsize - newsize) * 60 / (newtime - oldtime + 1))).
Proof.
  rewrite bytes_per_min_cases. split.
  - unfold wrap_size at 1, SIZE_MOD. case_bool_decide; split; try tauto; discriminate.
  - intros Ht Hs Hmax. unfold INT_MAX in Hmax.
    assert (wrap_size (newtime - oldtime + 1) = newtime - oldtime + 1) as ->
        by (apply Z.mod_small; unfold SIZE_MOD; lia).
    assert (wrap_size (oldsize - newsize) = oldsize - newsize) as ->
        by (apply Z.mod_small; unfold SIZE_MOD; lia).
    assert (wrap_size ((oldsize - newsize) * 60) = (oldsize - newsize) * 60) as ->
        by (apply Z.mod_small; unfold SIZE_MOD; lia).
    rewrite bool_decide_false by lia. f_equal.
    assert (0 <= (oldsize - newsize) * 60 / (newtime - oldtime + 1)
            <= (oldsize - newsize) * 60) as Hq.
    { split; [apply Z.div_pos; lia|].
      apply Z.div_le_upper_bound; [lia|]. nia. }
    unfold wrap_int, INT_MIN.
    rewrite Z.mod_small by lia. lia.
Qed.

Section WithBackend.
Context `{Backend}.

Variables (src : string) (limit oldsize oldtime : Z).

(** One iteration whose save succeeds. *)
Lemma loop_iteration_saved (f : DataFile) (i : Z) (w : world) :
  limit = 0 \/ i < limit ->
  faults w (nsaves w) = NoFault ->
  wrap_size (clock w (nticks w) - oldtime + 1) <> 0 ->
  let f' := (optimize f (rnd w)).1 in
  exists w',
    loop_steps 2 src limit oldsize oldtime (mk_loop_state f i AtTest) w
    = (Ok (inr (mk_loop_state f' (int_inc i) AtTest)), w') /\
    faults w' = faults w /\ clock w' = clock w /\
    nsaves w' = S (nsaves w) /\ nticks w' = S (nticks w) /\
    events w' = events w ++ [EvOptimize f f'; EvSave src f' true] /\
    files w' = <[src := DataFile_Save f']> (files w).
Proof.
  intros Hcond Hfault Hspeed f'.
  destruct (loop_step_test src limit oldsize oldtime f i w Hcond)
    as (_ & Hres & Hev & Hfiles & Hfaults & Hclock & Hns & Hnt).
  specialize (Hres Hspeed).
  destruct (loop_step src limit oldsize oldtime (mk_loop_state f i AtTest) w)
    as [r1 w1] eqn:E1. cbn [fst snd] in *. subst r1.
  destruct (loop_step_save src limit oldsize oldtime f' (int_inc i) w1)
    as (Hsave & Hfaults' & Hclock' & Hns' & Hnt'). cbv zeta in *.
  assert (faults w1 (nsaves w1) = NoFault) as Hno by (rewrite Hfaults, Hns; exact Hfault).
  rewrite Hno in Hsave. destruct Hsave as (Hres' & Hfiles' & Hev').
  destruct (loop_step src limit oldsize oldtime
              (mk_loop_state f' (int_inc i) AtSave) w1)
    as [r2 w2] eqn:E2. cbn [fst snd] in *. subst r2.
  exists w2. split.
  - change 2%nat with (1 + 1)%nat.
    rewrite loop_steps_add, loop_steps_one, E1. fold f'.
    rewrite loop_steps_one. exact E2.
  - repeat split; try congruence.
    + rewrite Hev', Hev. rewrite <- app_assoc. reflexivity.
Qed.

(** One iteration whose save fails. *)
Lemma loop_iteration_failed (f : DataFile) (i : Z) (w : world) :
  limit = 0 \/ i < limit ->
  faults w (nsaves w) <> NoFault ->
  wrap_size (clock w (nticks w) - oldtime + 1) <> 0 ->
  let f' := (optimize f (rnd w)).1 in
  exists w',
    loop_steps 2 src limit oldsize oldtime (mk_loop_state f i AtTest) w
    = (Ok (inl STATUS_ERROR), w') /\
    events w' = events w ++ [EvOptimize f f'; EvSave src f' false] /\
    (faults w (nsaves w) = OpenFails -> files w' = files w) /\
    (forall partial, faults w (nsaves w) = WriteFails partial ->
                     files w' = <[src := partial]> (files w)).
Proof.
  intros Hcond Hfault Hspeed f'.
  destruct (loop_step_test src limit oldsize oldtime f i w Hcond)
    as (_ & Hres & Hev & Hfiles & Hfaults & Hclock & Hns & Hnt).
  specialize (Hres Hspeed).
  destruct (loop_step src limit oldsize oldtime (mk_loop_state f i AtTest) w)
    as [r1 w1] eqn:E1. cbn [fst snd] in *. subst r1.
  destruct (loop_step_save src limit oldsize oldtime f' (int_inc i) w1)
    as (Hsave & _). cbv zeta in *.
  rewrite Hfaults, Hns in Hsave.
  destruct (loop_step src limit oldsize oldtime
              (mk_loop_state f' (int_inc i) AtSave) w1)
    as [r2 w2] eqn:E2. cbn [fst snd] in *.
  exists w2.
  assert (loop_steps 2 src limit oldsize oldtime (mk_loop_state f i AtTest) w
          = (r2, w2)) as Hrun.
  { change 2%nat with (1 + 1)%nat.
    rewrite loop_steps_add, loop_steps_one, E1. fold f'.
    rewrite loop_steps_one. exact E2. }
  rewrite Hrun.
  destruct (faults w (nsaves w)) as [| |partial] eqn:Ef; [congruence| |];
    destruct Hsave as (-> & Hfiles' & Hev').
  - split; [reflexivity|]. split; [|split; [congruence|discriminate]].
    rewrite Hev', Hev, <- app_assoc. reflexivity.
  - split; [reflexivity|]. split; [|split; [discriminate|]].
    + rewrite Hev', Hev, <- app_assoc. reflexivity.
    + intros p [= <-]. congruence.
Qed.

(** [m] whole iterations while the saves succeed. *)
Lemma loop_iterations_saved (m : nat) :
  forall (f : DataFile) (i : Z) (w : world),
    limit = 0 \/ (0 <= i /\ i + Z.of_nat m <= limit /\ limit <= INT_MAX) ->
    (forall k, (k < m)%nat -> faults w (nsaves w + k)%nat = NoFault) ->
    speed_defined w oldtime ->
    exists f' i' w' tr,
      loop_steps (2 * m) src limit oldsize oldtime (mk_loop_state f i AtTest) w
      = (Ok (inr (mk_loop_state f' i' AtTest)), w') /\
      (limit <> 0 -> i' = i + Z.of_nat m) /\
      faults w' = faults w /\ clock w' = clock w /\
      nsaves w' = (nsaves w + m)%nat /\
      events w' = events w ++ tr /\
      count_optimize tr = m /\ count_save tr = m /\
      match m with
      | O => files w' = files w
      | S _ => files w' !! src = Some (DataFile_Save f')
      end.
Proof.
  induction m as [|m IH]; intros f i w Hlim Hfaults Hspeed.
  - exists f, i, w, []. rewrite app_nil_r. repeat split; try reflexivity; try lia.
  - destruct (loop_iteration_saved f i w)
      as (w1 & Hrun & Hf1 & Hc1 & Hn1 & _ & He1 & Hfiles1).
    { destruct Hlim as [?|?]; [left; assumption|right; lia]. }
    { rewrite <- (Hfaults 0%nat) by lia. f_equal. lia. }
    { apply Hspeed. }
    set (f1 := (optimize f (rnd w)).1) in *.
    destruct (IH f1 (int_inc i) w1)
      as (f' & i' & w' & tr & Hrun' & Hi' & Hf' & Hc' & Hn' & He' & Hco & Hcs & Hfiles').
    { destruct Hlim as [?|(Hi & Hm & Hmax)]; [left; assumption|right].
      rewrite int_inc_small by (unfold INT_MIN; lia). lia. }
    { intros k Hk. rewrite Hf1, Hn1. rewrite <- (Hfaults (S k)) by lia.
      f_equal. lia. }
    { intros j. rewrite Hc1. apply Hspeed. }
    exists f', i', w', ([EvOptimize f f1; EvSave src f1 true] ++ tr).
    split; [|split; [|split; [congruence|split; [congruence|split; [lia|split; [|split; [|split]]]]]]].
    + replace (2 * S m)%nat with (2 + 2 * m)%nat by lia.
      rewrite loop_steps_add, Hrun. exact Hrun'.
    + intros Hnz. rewrite (Hi' Hnz).
      destruct Hlim as [?|(Hi & Hm & Hmax)]; [congruence|].
      rewrite int_inc_small by (unfold INT_MIN; lia). lia.
    + rewrite He', He1, <- app_assoc. reflexivity.
    + rewrite count_optimize_app, Hco. reflexivity.
    + rewrite count_save_app, Hcs. reflexivity.
    + destruct m as [|m'].
      * assert (f' = f1) as ->.
        { simpl in Hrun'. unfold cret in Hrun'. congruence. }
        rewrite Hfiles', Hfiles1. apply lookup_insert_eq.
      * exact Hfiles'.
Qed.

(** The loop when the save of iteration [m + 1] is the first to fail. *)
Lemma run_loop_failing_save (m fuel : nat) (f : DataFile) (w : world) :
  limit = 0 \/ (Z.of_nat m < limit /\ limit <= INT_MAX) ->
  (forall k, (k < m)%nat -> faults w (nsaves w + k)%nat = NoFault) ->
  faults w (nsaves w + m)%nat <> NoFault ->
  speed_defined w oldtime ->
  (2 * m + 2 <= fuel)%nat ->
  exists w' tr fs fl,
    run_loop fuel src limit oldsize oldtime (mk_loop_state f 0 AtTest) w
    = (Ok STATUS_ERROR, w') /\
    events w' = events w ++ tr ++ [EvOptimize fs fl; EvSave src fl false] /\
    count_optimize tr = m /\ count_save tr = m /\
    (faults w (nsaves w + m)%nat = OpenFails ->
     match m with
     | O => files w' = files w
     | S _ => files w' !! src = Some (DataFile_Save fs)
     end) /\
    (forall partial, faults w (nsaves w + m)%nat = WriteFails partial ->
                     files w' !! src = Some partial).
Proof.
  intros Hlim Hgood Hbad Hspeed Hfuel.
  destruct (loop_iterations_saved m f 0 w)
    as (f1 & i1 & w1 & tr & Hrun & Hi1 & Hf1 & Hc1 & Hn1 & He1 & Hco & Hcs & Hfiles1).
  { destruct Hlim as [?|[? ?]]; [left; assumption|right; lia]. }
  { exact Hgood. } { exact Hspeed. }
  destruct (loop_iteration_failed f1 i1 w1)
    as (w2 & Hrun2 & He2 & Hopen & Hwrite).
  { destruct Hlim as [?|[? ?]]; [left; assumption|right].
    rewrite Hi1 by lia. lia. }
  { rewrite Hf1, Hn1. exact Hbad. }
  { rewrite Hc1. apply Hspeed. }
  set (f2 := (optimize f1 (rnd w1)).1) in *.
  exists w2, tr, f1, f2.
  split; [|split; [|split; [|split; [|split]]]].
  - unfold run_loop, cbind.
    replace fuel with ((2 * m + 2) + (fuel - (2 * m + 2)))%nat by lia.
    rewrite loop_steps_add.
    rewrite (loop_steps_add src limit oldsize oldtime (2 * m) 2), Hrun, Hrun2.
    reflexivity.
  - rewrite He2, He1, <- !app_assoc. reflexivity.
  - exact Hco.
  - exact Hcs.
  - intros Hof. rewrite <- Hn1, <- Hf1 in Hof. specialize (Hopen Hof).
    destruct m as [|m']; congruence.
  - intros partial Hp. rewrite <- Hn1, <- Hf1 in Hp.
    rewrite (Hwrite partial Hp). apply lookup_insert_eq.
Qed.

End WithBackend.

End OptimizeFailures.

(** ** The order of the arguments of cmd_filter *)

Module ParseOrder.
Import ParseTheorems SizeTheorems FrontendTheorems.

Ltac union_eq :=
  apply set_eq; intro; rewrite ?elem_of_union, ?elem_of_empty; tauto.

(** What a loop or an argument adds does not depend on the set it is
    added to. *)
Lemma range_loop_frame (fuel : nat) :
  forall (allowed : gset Z) (j e : Z),
    range_loop fuel allowed j e
    = match range_loop fuel ∅ j e with
      | Ok added => Ok (added ∪ allowed)
      | Throw x => Throw x
      | DivideError => DivideError
      | OutOfFuel => OutOfFuel
      end.
Proof.
  induction fuel as [|fuel IH]; intros allowed j e; simpl.
  - case_bool_decide; [reflexivity|]. f_equal. union_eq.
  - case_bool_decide; [|f_equal; union_eq].
    rewrite (IH ({[j]} ∪ allowed)), (IH ({[j]} ∪ ∅)).
    destruct (range_loop fuel ∅ (int_inc j) e); try reflexivity.
    f_equal. union_eq.
Qed.

Lemma parse_arg_frame (fuel : nat) (allowed : gset Z) (s : string) :
  parse_arg fuel allowed s
  = match parse_arg fuel ∅ s with
    | Ok added => Ok (added ∪ allowed)
    | Throw x => Throw x
    | DivideError => DivideError
    | OutOfFuel => OutOfFuel
    end.
Proof.
  unfold parse_arg. destruct (find "-" s) as [pos|].
  - destruct (stoi (substr_to pos s) 0) as [start| | |]; try reflexivity.
    destruct (stoi (substr_from (S pos) s) 0) as [end_| | |]; try reflexivity.
    simpl. apply range_loop_frame.
  - destruct (stoi s 0) as [v| | |]; try reflexivity.
    simpl. f_equal. union_eq.
Qed.

Lemma parse_args_perm (fuel : nat) (args args' : list string) :
  Permutation args args' ->
  forall allowed got : gset Z,
    parse_args fuel allowed args = Ok got -> parse_args fuel allowed args' = Ok got.
Proof.
  induction 1 as [|x l l' _ IH|x y l|l l' l'' _ IH1 _ IH2]; intros allowed got.
  - exact id.
  - simpl. destruct (parse_arg fuel allowed x) as [A'| | |]; try discriminate.
    simpl. apply IH.
  - simpl.
    rewrite (parse_arg_frame fuel allowed y), (parse_arg_frame fuel allowed x).
    destruct (parse_arg fuel ∅ y) as [Sy| | |] eqn:Ey; try discriminate.
    simpl. rewrite (parse_arg_frame fuel (Sy ∪ allowed) x).
    destruct (parse_arg fuel ∅ x) as [Sx| | |] eqn:Ex; try discriminate.
    simpl. rewrite (parse_arg_frame fuel (Sx ∪ allowed) y), Ey. simpl.
    replace (Sy ∪ (Sx ∪ allowed)) with (Sx ∪ (Sy ∪ allowed)) by union_eq.
    exact id.
  - intros Hp. apply IH2, IH1, Hp.
Qed.

Section WithBackend.
Context `{Backend}.

(** X20: the order of the character sets of filter does not matter:
    when the arguments parse, any rearrangement of them parses to the
    same set and the command does the same. *)
Theorem filter_order_irrelevant (fuel : nat) (a0 src : string)
  (rest rest' : list string) (allowed : gset Z) (w : world) :
  Permutation rest rest' ->
  parse_args fuel ∅ rest = Ok allowed ->
  parse_args fuel ∅ rest' = Ok allowed /\
  cmd_filter fuel (a0 :: src :: rest') w = cmd_filter fuel (a0 :: src :: rest) w.
Proof.
  intros Hperm Hparse.
  pose proof (parse_args_perm fuel rest rest' Hperm ∅ allowed Hparse) as Hparse'.
  split; [exact Hparse'|].
  unfold cmd_filter.
  assert (vsize (a0 :: src :: rest') = vsize (a0 :: src :: rest)) as Hlen.
  { rewrite !vsize_cons. unfold vsize. rewrite (Permutation_length Hperm). reflexivity. }
  rewrite Hlen. case_bool_decide; [reflexivity|].
  change (drop 2 (a0 :: src :: rest')) with rest'.
  change (drop 2 (a0 :: src :: rest)) with rest.
  unfold cbind at 1 3. unfold lift at 1 3. rewrite Hparse, Hparse'.
  unfold cbind at 1 3. unfold lift at 1 3. rewrite !at_1. reflexivity.
Qed.

End WithBackend.

End ParseOrder.

(** ** cmd_optimize with failing saves; the format of cmd_show_encoded *)

Module OptimizeCommand.
Import ParseTheorems SizeTheorems OptimizeTheorems OptimizeFailures.

Section WithBackend.
Context `{Backend}.

(** The command up to its loop, with the count of saves. *)
Lemma cmd_optimize_start (fuel : nat) (args : list string) (a0 src t : string)
  (f : DataFile) (limit : Z) (w : world) :
  files w !! src = Some t -> DataFile_Load t = Some f ->
  (args = [a0; src] /\ limit = 100) \/
  (exists s, args = [a0; src; s] /\ stoi s 10 = Ok limit) ->
  exists w1,
    cmd_optimize fuel args w
    = run_loop fuel src limit (get_encoded_size f) (clock w (nticks w))
        (mk_loop_state f 0 AtTest) w1 /\
    events w1 = events w /\ files w1 = files w /\
    faults w1 = faults w /\ clock w1 = clock w /\ nsaves w1 = nsaves w.
Proof.
  intros Hfile Hload Hargs. unfold cmd_optimize.
  destruct Hargs as [[-> ->]|(s & -> & Hs)].
  - rewrite bool_decide_false by (vm_compute; intros [? ?]; congruence).
    rewrite at_1. unfold cbind at 1, lift at 1.
    unfold cbind at 1. rewrite (load_dat_ok src t f w Hfile Hload).
    rewrite (bool_decide_false (vsize _ = 3)) by (vm_compute; discriminate).
    unfold cbind, print, cret, time. cbn [fst snd].
    rewrite (bool_decide_true (100 > 0)) by lia.
    eexists (mk_world (files w) _ (cerr w) (rnd w) (faults w) (nsaves w) (clock w)
               (S (nticks w)) (events w)).
    split; [reflexivity|]. cbn [events files faults clock nsaves].
    repeat split; reflexivity.
  - rewrite bool_decide_false by (vm_compute; intros [? ?]; congruence).
    rewrite at_1. unfold cbind at 1, lift at 1.
    unfold cbind at 1. rewrite (load_dat_ok src t f w Hfile Hload).
    rewrite (bool_decide_true (vsize _ = 3)) by reflexivity.
    assert (at_ [a0; src; s] 2 = Ok s) as -> by reflexivity.
    unfold cbind, print, cret, time, lift. cbn [fst snd].
    rewrite Hs.
    destruct (decide (limit > 0)).
    + rewrite bool_decide_true by assumption.
      eexists (mk_world (files w) _ (cerr w) (rnd w) (faults w) (nsaves w) (clock w)
                 (S (nticks w)) (events w)).
      split; [reflexivity|]. cbn [events files faults clock nsaves].
      repeat split; reflexivity.
    + rewrite bool_decide_false by assumption.
      eexists (mk_world (files w) _ (cerr w) (rnd w) (faults w) (nsaves w) (clock w)
                 (S (nticks w)) (events w)).
      split; [reflexivity|]. cbn [events files faults clock nsaves].
      repeat split; reflexivity.
Qed.

(** X22: when the first [m] saves of optimize go well and the next one
    fails, with the limit not yet reached, the command returns
    [STATUS_ERROR] after [m] whole iterations, one more call of the
    optimizer and the failed save.  If the file could not be opened it
    still holds what the last whole iteration saved; if the writing
    failed it holds what was written. *)
Theorem optimize_failing_save (m fuel : nat) (args : list string)
  (a0 src t : string) (f : DataFile) (limit : Z) (w : world) :
  files w !! src = Some t -> DataFile_Load t = Some f ->
  (args = [a0; src] /\ limit = 100) \/
  (exists s, args = [a0; src; s] /\ stoi s 10 = Ok limit) ->
  limit = 0 \/ Z.of_nat m < limit ->
  (forall k, (k < m)%nat -> faults w (nsaves w + k)%nat = NoFault) ->
  faults w (nsaves w + m)%nat <> NoFault ->
  speed_defined w (clock w (nticks w)) ->
  (2 * m + 2 <= fuel)%nat ->
  exists w' tr fs fl,
    cmd_optimize fuel args w = (Ok STATUS_ERROR, w') /\
    events w' = events w ++ tr ++ [EvOptimize fs fl; EvSave src fl false] /\
    count_optimize tr = m /\ count_save tr = m /\
    (faults w (nsaves w + m)%nat = OpenFails ->
     match m with
     | O => files w' = files w
     | S _ => files w' !! src = Some (DataFile_Save fs)
     end) /\
    (forall partial, faults w (nsaves w + m)%nat = WriteFails partial ->
                     files w' !! src = Some partial).
Proof.
  intros Hfile Hload Hargs Hlim Hgood Hbad Hspeed Hfuel.
  assert (limit <= INT_MAX) as Hmax.
  { destruct Hargs as [[_ ->]|(s & _ & Hs)]; [vm_compute; discriminate|].
    apply stoi_in_int in Hs. lia. }
  destruct (cmd_optimize_start fuel args a0 src t f limit w Hfile Hload Hargs)
    as (w1 & -> & He & Hfi & Hfa & Hcl & Hns).
  destruct (run_loop_failing_save src limit (get_encoded_size f) (clock w (nticks w))
              m fuel f w1)
    as (w' & tr & fs & fl & Hrun & Hev & Hco & Hcs & Hopen & Hwrite).
  { destruct Hlim as [?|?]; [left; assumption|right; lia]. }
  { intros k Hk. rewrite Hfa, Hns. apply Hgood, Hk. }
  { rewrite Hfa, Hns. exact Hbad. }
  { intros k. rewrite Hcl. apply Hspeed. }
  { exact Hfuel. }
  exists w', tr, fs, fl. rewrite Hfa, Hns, He, Hfi in *.
  repeat split; assumption.
Qed.

End WithBackend.

End OptimizeCommand.

Module ShowEncodedFormat.
Import ShowEncodedTheorems.

(** X25: on a stream whose field width is 0, show_encoded appends
    [show_encoded_text]: a line per dictionary entry and glyph, the
    number after the label in the base the stream is in, which is
    hexadecimal from the first byte printed on, every byte as two
    hexadecimal digits and a space; the field width is 0 again at the
    end. *)
Theorem show_encoded_output (e : encoded_font_t) (o : ostream) :
  fieldwidth o = 0%nat ->
  24 + vsize (rle_dictionary e) + vsize (ref_dictionary e) <= INT_MAX ->
  vsize (glyphs e) <= INT_MAX ->
  text (show_encoded e o) = text o +:+ show_encoded_text (base o) e /\
  fieldwidth (show_encoded e o) = 0%nat.
Proof.
  intros Hw Hdict Hglyphs. split; [apply show_encoded_spec; assumption|].
  unfold show_encoded.
  pose proof (vsize_nonneg (rle_dictionary e)) as Hr.
  pose proof (vsize_nonneg (ref_dictionary e)) as Hf.
  pose proof (put_entries_spec "Dict RLE " (fun i => wrap_int (24 + i))
                (rle_dictionary e) 0 o Hw) as H1.
  destruct (put_entries "Dict RLE " _ (rle_dictionary e) 0 o) as [i1 o1].
  destruct H1 as (Hi1 & _ & _ & Hw1); [unfold INT_MIN; lia|lia|].
  cbn [fst snd] in *.
  pose proof (put_entries_spec "Dict Ref " (fun i => wrap_int (24 + i))
                (ref_dictionary e) i1 o1 Hw1) as H2.
  destruct (put_entries "Dict Ref " _ (ref_dictionary e) i1 o1) as [i2 o2].
  destruct H2 as (_ & _ & _ & Hw2); [unfold INT_MIN; lia|lia|].
  cbn [fst snd] in *.
  pose proof (put_entries_spec "Glyph " (fun i => i) (glyphs e) 0 o2 Hw2) as H3.
  destruct (put_entries "Glyph " _ (glyphs e) 0 o2) as [i3 o3].
  destruct H3 as (_ & _ & _ & Hw3); [unfold INT_MIN; lia|lia|].
  exact Hw3.
Qed.

End ShowEncodedFormat.

(** ** Numerals *)

Module NumeralTheorems.
Import ParseTheorems ShowEncodedTheorems.

Lemma numeral_app (ds1 ds2 : list Z) :
  numeral (ds1 ++ ds2) = numeral ds1 +:+ numeral ds2.
Proof.
  induction ds1 as [|d ds1 IH]; [reflexivity|].
  simpl. rewrite IH, append_cons. reflexivity.
Qed.

Lemma digits_value_snoc (b : Z) (ds : list Z) (d : Z) :
  digits_value b (ds ++ [d]) = digits_value b ds * b + d.
Proof. unfold digits_value. rewrite foldl_app. reflexivity. Qed.

(** The digits [render_digits] puts before [acc]. *)
Lemma render_digits_spec (b : Z) (fuel : nat) :
  2 <= b ->
  forall (n : Z) (acc : string),
    0 <= n < b ^ Z.of_nat (S fuel) ->
    exists ds : list Z,
      render_digits (S fuel) b n acc = numeral ds +:+ acc /\
      ds <> [] /\ Forall (fun d => 0 <= d < b) ds /\
      digits_value b ds = n /\
      (n <> 0 -> exists d ds', ds = d :: ds' /\ d <> 0).
Proof.
  intros Hb. induction fuel as [|fuel IH]; intros n acc Hn.
  - exists [n]. change (b ^ Z.of_nat 1) with (b ^ 1) in Hn. rewrite Z.pow_1_r in Hn.
    simpl render_digits. rewrite Z.mod_small by lia.
    assert (n / b = 0) as Hq by (apply Z.div_small; lia).
    rewrite bool_decide_true by exact Hq.
    split; [reflexivity|]. split; [discriminate|]. split; [repeat constructor; lia|].
    split; [unfold digits_value; simpl; lia|].
    intros Hnz. exists n, []. split; [reflexivity|exact Hnz].
  - change (render_digits (S (S fuel)) b n acc)
      with (let acc' := String (digit_char (n mod b)) acc in
            if bool_decide (n / b = 0) then acc'
            else render_digits (S fuel) b (n / b) acc').
    cbv zeta. pose proof (Z.mod_pos_bound n b ltac:(lia)) as Hm.
    pose proof (Z.div_mod n b ltac:(lia)) as Hdm.
    case_bool_decide as Hq.
    + exists [n mod b]. split; [reflexivity|]. split; [discriminate|].
      split; [repeat constructor; lia|].
      split; [unfold digits_value; simpl; lia|].
      intros Hnz. exists (n mod b), []. split; [reflexivity|lia].
    + assert (0 <= n / b < b ^ Z.of_nat (S fuel)) as Hrange.
      { split; [apply Z.div_pos; lia|].
        apply Z.div_lt_upper_bound; [lia|].
        replace (Z.of_nat (S (S fuel))) with (Z.of_nat (S fuel) + 1) in Hn by lia.
        rewrite Z.pow_add_r, Z.pow_1_r in Hn by lia. lia. }
      destruct (IH (n / b) (String (digit_char (n mod b)) acc) Hrange)
        as (ds & Hrender & Hne & Hall & Hval & Hlead).
      exists (ds ++ [n mod b]).
      split; [|split; [|split; [|split]]].
      * rewrite Hrender, numeral_app, append_assoc. reflexivity.
      * destruct ds; discriminate.
      * apply Forall_app. split; [exact Hall|repeat constructor; lia].
      * rewrite digits_value_snoc, Hval. lia.
      * intros _. destruct (Hlead Hq) as (d & ds' & -> & Hd).
        exists d, (ds' ++ [n mod b]). split; [reflexivity|exact Hd].
Qed.

Lemma render_unsigned_spec (n : Z) :
  0 <= n ->
  exists ds : list Z,
    render_unsigned 10 n = numeral ds /\
    ds <> [] /\ Forall (fun d => 0 <= d < 10) ds /\
    digits_value 10 ds = n /\
    (n <> 0 -> exists d ds', ds = d :: ds' /\ d <> 0).
Proof.
  intros Hn. unfold render_unsigned.
  destruct (render_digits_spec 10 (Z.to_nat (Z.log2 n)) ltac:(lia) n "")
    as (ds & Hr & Hrest).
  - split; [exact Hn|].
    destruct (decide (n = 0)) as [->|Hnz]; [reflexivity|].
    pose proof (Z.log2_spec n ltac:(lia)) as [_ Hlt].
    pose proof (Z.log2_nonneg n) as Hl.
    eapply Z.lt_le_trans; [exact Hlt|].
    replace (Z.of_nat (S (Z.to_nat (Z.log2 n)))) with (Z.succ (Z.log2 n)) by lia.
    apply Z.pow_le_mono_l. lia.
  - exists ds. rewrite Hr, append_nil_r. exact (conj eq_refl Hrest).
Qed.

Lemma read_prefix_ten (s : string) : read_prefix 10 s = (10, s).
Proof.
  unfold read_prefix.
  destruct s as [|c [|x [|h s]]]; try reflexivity;
    destruct (Ascii.ascii_dec c "0") as [->|Hc]; try reflexivity.
  - destruct c as [[] [] [] [] [] [] [] []]; try reflexivity; congruence.
  - destruct c as [[] [] [] [] [] [] [] []]; try reflexivity; congruence.
  - destruct c as [[] [] [] [] [] [] [] []]; try reflexivity; congruence.
Qed.

(** X26: the decimal numeral that [std::to_string] gives for an [int],
    as in the file name of import_ttf, is read back by [std::stoi] in
    base 10 as the same number. *)
Theorem to_string_stoi (n : Z) :
  INT_MIN <= n <= INT_MAX -> stoi (to_string n) 10 = Ok n.
Proof.
  intros Hn. unfold to_string, render.
  case_bool_decide as Hneg.
  - destruct (render_unsigned_spec (- n) ltac:(lia))
      as (ds & -> & Hne & Hall & Hval & _).
    unfold stoi. change ("-" +:+ numeral ds) with (String "-" (numeral ds)).
    change (skip_space (String "-" (numeral ds))) with (String "-" (numeral ds)).
    change (read_sign (String "-" (numeral ds))) with (true, numeral ds).
    cbv beta iota. rewrite read_prefix_ten.
    rewrite (read_digits_numeral 10 ds ltac:(lia) Hall).
    destruct ds as [|d ds]; [congruence|].
    rewrite Hval, bool_decide_true by lia. f_equal. lia.
  - destruct (render_unsigned_spec n ltac:(lia))
      as (ds & -> & Hne & Hall & Hval & _).
    destruct ds as [|d ds]; [congruence|].
    rewrite <- Hval.
    apply (stoi_digits (numeral (d :: ds)) 10 10 (d :: ds)).
    + assert (0 <= d < 16) as Hd by (inversion Hall; lia).
      destruct (digit_char_plain d Hd) as (Hsp & Hm & Hp & _).
      cbn [numeral skip_space]. rewrite Hsp.
      apply read_sign_plain; assumption.
    + apply read_prefix_ten.
    + discriminate.
    + lia.
    + exact Hall.
    + rewrite Hval. lia.
Qed.

End NumeralTheorems.

(** ** The exit code, limits in hexadecimal, save and load *)

Module DispatchTheorems.
Import ParseTheorems SizeTheorems OptimizeTheorems FrontendTheorems MainTheorems
  NumeralTheorems.

Section WithBackend.
Context `{Backend} `{Tools}.

Lemma main_known (fuel : nat) (p a0 : string) (rest : list string)
  (command : cmd_t) (w : world) :
  command_list fuel !! a0 = Some command ->
  main fuel (p :: a0 :: rest) w
  = match command (a0 :: rest) w with
    | (Ok STATUS_INVALID, w1) => (Ok 1, usage_shown w1)
    | (Ok status, w1) => (Ok (status_code status), w1)
    | (Throw e, w1) => (Throw e, w1)
    | (DivideError, w1) => (DivideError, w1)
    | (OutOfFuel, w1) => (OutOfFuel, w1)
    end.
Proof.
  intros Hl. unfold main, cmd_t in *.
  change (drop 1 (p :: a0 :: rest)) with (a0 :: rest).
  rewrite bool_decide_true by (rewrite vsize_cons; pose proof (vsize_nonneg rest); lia).
  unfold cbind at 1 2. unfold cbind at 1. unfold lift.
  change (at_ (a0 :: rest) 0) with (Ok a0). cbv beta iota.
  rewrite Hl. destruct (command (a0 :: rest) w) as [[[]| | |] w1]; reflexivity.
Qed.

(** X5: for a command of the list, [main] returns the status of the
    command as the exit code, 0 for [STATUS_OK] and 2 for
    [STATUS_ERROR], in the world the command left, adds the usage
    message only for [STATUS_INVALID], and catches nothing: an
    exception or a division error of the command is the end of
    [main]. *)
Theorem main_passes_on (fuel : nat) (p a0 : string) (rest : list string)
  (command : cmd_t) (w : world) :
  command_list fuel !! a0 = Some command ->
  let outcome := command (a0 :: rest) w in
  let exit := main fuel (p :: a0 :: rest) w in
  match outcome.1 with
  | Ok STATUS_OK => exit = (Ok 0, outcome.2)
  | Ok STATUS_ERROR => exit = (Ok 2, outcome.2)
  | Ok STATUS_INVALID => exit = (Ok 1, usage_shown outcome.2)
  | Throw e => exit = (Throw e, outcome.2)
  | DivideError => exit = (DivideError, outcome.2)
  | OutOfFuel => exit = (OutOfFuel, outcome.2)
  end.
Proof.
  intros Hl. cbv zeta. rewrite (main_known fuel p a0 rest command w Hl).
  destruct (command (a0 :: rest) w) as [[[]| | |] w1]; reflexivity.
Qed.

(** X23: optimize reads its limit in base 10, so a limit that starts
    with [0x] reads as 0: the command never returns [STATUS_OK], and
    with saves that succeed and a clock that does not go back the loop
    does not end. *)
Theorem optimize_hex_limit (fuel : nat) (a0 src t digits : string) (f : DataFile)
  (w : world) :
  files w !! src = Some t -> DataFile_Load t = Some f ->
  stoi ("0x" +:+ digits) 10 = Ok 0 /\
  (cmd_optimize fuel [a0; src; "0x" +:+ digits] w).1 <> Ok STATUS_OK /\
  (saves_succeed w -> speed_defined w (clock w (nticks w)) ->
   (cmd_optimize fuel [a0; src; "0x" +:+ digits] w).1 = OutOfFuel).
Proof.
  intros Hfile Hload.
  assert (stoi ("0x" +:+ digits) 10 = Ok 0) as Hs.
  { change ("0x" +:+ digits) with (String "0" (String "x" digits)).
    unfold stoi.
    change (skip_space (String "0" (String "x" digits)))
      with (String "0" (String "x" digits)).
    change (read_sign (String "0" (String "x" digits)))
      with (false, String "0" (String "x" digits)).
    cbv beta iota. rewrite read_prefix_ten.
    change (read_digits 10 (String "0" (String "x" digits))) with [0].
    reflexivity. }
  split; [exact Hs|].
  destruct (cmd_optimize_prelude fuel [a0; src; "0x" +:+ digits] a0 src t f 0 w
              Hfile Hload) as (w1 & -> & _ & _ & Hfa & Hcl).
  { right. eexists. split; [reflexivity|exact Hs]. }
  split.
  - apply run_loop_unlimited_not_ok. reflexivity.
  - intros Hsaves Hspeed. apply run_loop_unlimited; [reflexivity| |].
    + intros k. rewrite Hfa. apply Hsaves.
    + intros k. rewrite Hcl. apply Hspeed.
Qed.

End WithBackend.

Section SaveLoad.
Context `{Backend}.

(** X24: [save_dat] returns true exactly when neither the opening nor
    the writing fails; then [load_dat] of the same path gives back the
    data file, for a format that loads what it saved.  When the file
    cannot be opened [load_dat] finds what it would have found
    before. *)
Theorem save_then_load (dest : string) (f : DataFile) (w : world) :
  let r := save_dat dest f w in
  (r.1 = Ok true ->
   DataFile_Load (DataFile_Save f) = Some f ->
   load_dat dest r.2 = (Ok (Some f), r.2)) /\
  (faults w (nsaves w) = OpenFails ->
   r.1 = Ok false /\ (load_dat dest r.2).1 = (load_dat dest w).1) /\
  (r.1 = Ok true <-> faults w (nsaves w) = NoFault).
Proof.
  intros r. unfold r. rewrite save_dat_spec.
  destruct (faults w (nsaves w)) as [| |partial] eqn:Ef; cbn [fst snd].
  - split; [|split; [discriminate|tauto]].
    intros _ Hround. apply (load_dat_ok dest (DataFile_Save f) f); [|exact Hround].
    simpl. apply lookup_insert_eq.
  - split; [discriminate|]. split; [|split; discriminate].
    intros _. split; [reflexivity|].
    rewrite !load_dat_spec. simpl.
    destruct (files w !! dest) as [t|]; [destruct (DataFile_Load t)|]; reflexivity.
  - split; [discriminate|]. split; [discriminate|]. split; discriminate.
Qed.

End SaveLoad.

End DispatchTheorems.

(** ** Examples for the front end *)

Module FrontendWitness.
Import Filter Demo FrontendDemo.
Import StripTheorems FrontendTheorems MainTheorems ShowGlyphTheorems
  ImportExportTheorems FilterAlgebra OptimizeFailures ParseOrder OptimizeCommand
  ShowEncodedFormat NumeralTheorems DispatchTheorems.

Lemma strip_extension_last_dot_witness :
  find "." "d/six" = None /\
  strip_extension ("fonts" +:+ "." +:+ "d/six") = "fonts".
Proof.
  split; [reflexivity|].
  apply (strip_extension_last_dot "fonts" "d/six"). reflexivity.
Defined.

Lemma strip_extension_fixed_witness :
  (strip_extension "README" = "README" <-> find "." "README" = None) /\
  exists rest : string, "README" = strip_extension "README" +:+ rest.
Proof. apply (strip_extension_fixed "README"). Defined.

Lemma unreadable_file_status_witness :
  load_error "none.dat" demo_world = Some "Could not open " /\
  cmd_size ["size"; "none.dat"] demo_world
  = (Ok STATUS_ERROR, complain "Could not open " "none.dat" demo_world) /\
  cmd_optimize 0 ["optimize"; "none.dat"; "many"] demo_world
  = (Ok STATUS_ERROR, complain "Could not open " "none.dat" demo_world).
Proof.
  split; [reflexivity|].
  destruct (unreadable_file_status "none.dat" "Could not open " demo_world eq_refl)
    as (Hsize & _ & _ & Hopt & _).
  split; [apply Hsize|apply Hopt].
Defined.

Lemma main_usage_witness :
  usage_error (drop 1 ["mcufont"; "size"]) = true /\
  main 0 ["mcufont"; "size"] demo_world = (Ok 1, usage_shown demo_world) /\
  usage_error (drop 1 ["mcufont"; "size"; "font.dat"]) = false /\
  (forall w', main 0 ["mcufont"; "size"; "font.dat"] demo_world <> (Ok 1, w')).
Proof.
  split; [reflexivity|]. split.
  - apply (main_usage 0 ["mcufont"; "size"] demo_world). reflexivity.
  - split; [reflexivity|].
    apply (main_usage 0 ["mcufont"; "size"; "font.dat"] demo_world). reflexivity.
Defined.

Lemma largest_first_longest_witness :
  vsize [[1]; [2; 3]; [4; 5]; [6]] < SIZE_MOD /\
  first_longest [[1]; [2; 3]; [4; 5]; [6]] 1 2.
Proof.
  split; [reflexivity|].
  apply (largest_first_longest [[1]; [2; 3]; [4; 5]; [6]]). reflexivity.
Defined.

Lemma show_glyph_largest_witness :
  files demo_world !! "font.dat" = Some "demo" /\
  DataFile_Load "demo" = Some demo_font /\
  vsize (glyphs (encode_font demo_font)) = GetGlyphCount demo_font /\
  GetGlyphCount demo_font < SIZE_MOD /\
  GetGlyphCount demo_font <> 0 /\
  first_longest (glyphs (encode_font demo_font)) 0 4 /\
  (cmd_show_glyph ["show_glyph"; "font.dat"; "largest"] demo_world).1 = Ok STATUS_OK.
Proof.
  assert (GetGlyphCount demo_font <> 0) as Hnz by discriminate.
  destruct (show_glyph_largest "show_glyph" "font.dat" "demo" demo_font demo_world
              eq_refl eq_refl eq_refl eq_refl) as (Hfl & _ & Hrun).
  destruct (Hrun Hnz) as [_ Hcmd].
  split; [reflexivity|]. split; [reflexivity|]. split; [reflexivity|].
  split; [reflexivity|]. split; [exact Hnz|]. split; [exact Hfl|].
  rewrite Hcmd. reflexivity.
Defined.

Lemma show_glyph_index_witness :
  files demo_world !! "font.dat" = Some "demo" /\
  DataFile_Load "demo" = Some demo_font /\
  "1" <> "largest" /\ "-1" <> "largest" /\
  GetGlyphCount demo_font <= LONG_MAX /\
  0 <= strtol "1" 0 < GetGlyphCount demo_font /\
  ¬ (0 <= strtol "-1" 0 < GetGlyphCount demo_font) /\
  cmd_show_glyph ["show_glyph"; "font.dat"; "1"] demo_world
  = (Ok STATUS_OK,
     printed (fun o => o << put_str (GlyphToText demo_font 1)) demo_world) /\
  cmd_show_glyph ["show_glyph"; "font.dat"; "-1"] demo_world
  = (Ok STATUS_ERROR,
     eprinted (fun o => o << put_str "No such glyph "
                          << put_size 18446744073709551615 << endl) demo_world).
Proof.
  assert ("1" <> "largest") as H1 by discriminate.
  assert ("-1" <> "largest") as H2 by discriminate.
  assert (GetGlyphCount demo_font <= LONG_MAX) as Hc by discriminate.
  assert (0 <= strtol "1" 0 < GetGlyphCount demo_font) as Hin
      by (split; [discriminate|reflexivity]).
  assert (¬ (0 <= strtol "-1" 0 < GetGlyphCount demo_font)) as Hout
      by (intros [Hlo _]; apply Hlo; reflexivity).
  split; [reflexivity|]. split; [reflexivity|].
  split; [exact H1|]. split; [exact H2|]. split; [exact Hc|].
  split; [exact Hin|]. split; [exact Hout|]. split.
  - apply (show_glyph_index "show_glyph" "font.dat" "demo" "1" demo_font demo_world
             eq_refl eq_refl H1 Hc). exact Hin.
  - apply (show_glyph_index "show_glyph" "font.dat" "demo" "-1" demo_font demo_world
             eq_refl eq_refl H2 Hc). exact Hout.
Defined.

Lemma show_glyph_not_a_number_witness :
  files demo_world !! "font.dat" = Some "demo" /\
  DataFile_Load "demo" = Some demo_font /\
  "first" <> "largest" /\
  stoi "first" 0 = Throw invalid_argument /\
  0 < GetGlyphCount demo_font /\
  strtol "first" 0 = 0 /\
  cmd_show_glyph ["show_glyph"; "font.dat"; "first"] demo_world
  = (Ok STATUS_OK,
     printed (fun o => o << put_str (GlyphToText demo_font 0)) demo_world).
Proof.
  assert ("first" <> "largest") as H1 by discriminate.
  split; [reflexivity|]. split; [reflexivity|]. split; [exact H1|].
  split; [reflexivity|]. split; [reflexivity|].
  apply (show_glyph_not_a_number "show_glyph" "font.dat" "demo" "first" demo_font
           demo_world eq_refl eq_refl H1 eq_refl eq_refl).
Defined.

Lemma import_ttf_fourth_argument_witness :
  "BW" <> "bw" /\
  cmd_import_ttf ["import_ttf"; "sans.ttf"; "16"; "BW"] front_world
  = cmd_import_ttf ["import_ttf"; "sans.ttf"; "16"] front_world.
Proof.
  assert ("BW" <> "bw") as H1 by discriminate.
  split; [exact H1|].
  apply (import_ttf_fourth_argument "import_ttf" "sans.ttf" "16" "BW" front_world H1).
Defined.

Lemma import_ttf_bad_size_witness :
  stoi "large" 10 = Throw invalid_argument /\
  cmd_import_ttf ["import_ttf"; "none.ttf"; "large"] front_world
  = (Throw invalid_argument, front_world) /\
  (forall x, cmd_import_ttf ["import_ttf"; "none.ttf"; "large"; x] front_world
             = (Throw invalid_argument, front_world)).
Proof.
  split; [reflexivity|].
  apply (import_ttf_bad_size "import_ttf" "none.ttf" "large" invalid_argument
           front_world eq_refl).
Defined.

Lemma import_ttf_run_witness :
  find "." "ttf" = None /\
  stoi "016" 10 = Ok 16 /\
  files front_world !! ("sans" +:+ "." +:+ "ttf") = Some "ttf" /\
  faults front_world (nsaves front_world) = NoFault /\
  exists w',
    cmd_import_ttf ["import_ttf"; "sans.ttf"; "016"; "bw"] front_world
    = (Ok STATUS_OK, w') /\
    files w' = <["sans16bw.dat" := "demo"]> (files front_world).
Proof.
  split; [reflexivity|]. split; [reflexivity|]. split; [reflexivity|].
  split; [reflexivity|].
  eexists. split.
  - apply (import_ttf_run "import_ttf" "sans" "ttf" "016" ["bw"] 16 "ttf" front_world
             eq_refl (or_intror (ex_intro _ "bw" eq_refl)) eq_refl eq_refl eq_refl).
  - reflexivity.
Defined.

Lemma import_bdf_run_witness :
  files front_world !! "fonts.d/six" = Some "bdf" /\
  (cmd_import_bdf ["import_bdf"; "fonts.d/six"] front_world).1 = Ok STATUS_OK /\
  files (cmd_import_bdf ["import_bdf"; "fonts.d/six"] front_world).2
  = <["fonts.dat" := "demo"]> (files front_world) /\
  (cmd_import_bdf ["import_bdf"; "fonts.d/six"] readonly_world).1 = Ok STATUS_ERROR /\
  files (cmd_import_bdf ["import_bdf"; "fonts.d/six"] readonly_world).2
  = files readonly_world.
Proof.
  split; [reflexivity|].
  pose proof (import_bdf_run "import_bdf" "fonts.d/six" "bdf" front_world eq_refl)
    as (Hok & Hfiles & _).
  pose proof (import_bdf_run "import_bdf" "fonts.d/six" "bdf" readonly_world eq_refl)
    as (Herr & Hfiles' & _).
  split; [exact Hok|]. split; [exact Hfiles|]. split; [exact Herr|exact Hfiles'].
Defined.

Lemma import_missing_source_witness :
  files front_world !! "none.bdf" = None /\
  cmd_import_bdf ["import_bdf"; "none.bdf"] front_world
  = (Ok STATUS_ERROR, complain "Could not open " "none.bdf" front_world) /\
  stoi "16" 10 = Ok 16 /\
  cmd_import_ttf ["import_ttf"; "none.bdf"; "16"] front_world
  = (Ok STATUS_ERROR, complain "Could not open " "none.bdf" front_world).
Proof.
  split; [reflexivity|].
  destruct (import_missing_source "import_ttf" "none.bdf" front_world eq_refl)
    as [_ Httf].
  destruct (import_missing_source "import_bdf" "none.bdf" front_world eq_refl)
    as [Hbdf _].
  split; [exact Hbdf|]. split; [reflexivity|].
  apply (Httf "16" 16 [] eq_refl (or_introl eq_refl)).
Defined.

Lemma export_reports_success_witness :
  files readonly_world !! "font.dat" = Some "demo" /\
  DataFile_Load "demo" = Some demo_font /\
  faults readonly_world (nsaves readonly_world) = OpenFails /\
  faults readonly_world (S (nsaves readonly_world)) = OpenFails /\
  (cmd_export ["export"; "font.dat"; "out"] readonly_world).1 = Ok STATUS_OK /\
  files (cmd_export ["export"; "font.dat"; "out"] readonly_world).2
  = files readonly_world /\
  files (cmd_export ["export"; "font.dat"; "out"] front_world).2
  = <["out.c" := "source out"]> (<["out.h" := "header out"]> (files front_world)).
Proof.
  destruct (export_reports_success "export" "font.dat" "out" "demo" demo_font
              readonly_world eq_refl eq_refl) as (Hok & _ & _ & _ & Hro & _).
  destruct (export_reports_success "export" "font.dat" "out" "demo" demo_font
              front_world eq_refl eq_refl) as (_ & _ & _ & _ & _ & Hrw).
  split; [reflexivity|]. split; [reflexivity|]. split; [reflexivity|].
  split; [reflexivity|]. split; [exact Hok|].
  split; [exact (Hro eq_refl eq_refl)|exact (Hrw eq_refl eq_refl)].
Defined.

Lemma filter_compose_witness :
  representable demo_font /\
  exists f1 f2 : DataFile,
    filter_datafile {[65; 66; 97]} demo_font = Ok f1 /\
    filter_datafile {[97; 32]} f1 = Ok f2 /\
    filter_datafile ({[65; 66; 97]} ∩ {[97; 32]}) demo_font = Ok f2 /\
    filter_datafile {[65; 66; 97]} f1 = Ok f1.
Proof.
  split; [exact FilterWitness.demo_font_representable|].
  apply (filter_compose {[65; 66; 97]} {[97; 32]} demo_font
           FilterWitness.demo_font_representable).
Defined.

Lemma demo_font_all_allowed :
  Forall (fun g => chars g <> [] /\
                   Forall (λ c, c ∈ ({[32; 65; 66; 67; 97; 160]} : gset Z)) (chars g))
    (GetGlyphTable demo_font).
Proof.
  repeat constructor; try discriminate;
    apply bool_decide_unpack; vm_compute; exact I.
Defined.

Lemma filter_all_allowed_witness :
  representable demo_font /\
  filter_datafile {[32; 65; 66; 67; 97; 160]} demo_font = Ok demo_font.
Proof.
  split; [exact FilterWitness.demo_font_representable|].
  apply (filter_all_allowed _ demo_font FilterWitness.demo_font_representable
           demo_font_all_allowed).
Defined.

Lemma filter_save_failure_witness :
  parse_args 0 ∅ ["65"] = Ok ({[65]} ∪ ∅) /\
  files readonly_world !! "font.dat" = Some "demo" /\
  faults readonly_world (nsaves readonly_world) = OpenFails /\
  (cmd_filter 0 ["filter"; "font.dat"; "65"] readonly_world).1 = Ok STATUS_ERROR /\
  files (cmd_filter 0 ["filter"; "font.dat"; "65"] readonly_world).2
  = files readonly_world.
Proof.
  destruct (filter_save_failure 0 "filter" "font.dat" "65" [] ({[65]} ∪ ∅) "demo"
              demo_font readonly_world eq_refl eq_refl eq_refl
              FilterWitness.demo_font_representable) as [Hopen _].
  destruct (Hopen eq_refl) as (Hst & Hfiles & _).
  split; [reflexivity|]. split; [reflexivity|]. split; [reflexivity|].
  split; [exact Hst|exact Hfiles].
Defined.

Lemma filter_twice_witness :
  parse_args 0 ∅ ["5"] = Ok ({[5]} ∪ ∅) /\
  (let r1 := cmd_filter 0 ["filter"; "font.dat"; "5"] demo_world in
   let r2 := cmd_filter 0 ["filter"; "font.dat"; "5"] r1.2 in
   r1.1 = Ok STATUS_OK /\ r2.1 = Ok STATUS_OK /\ files r2.2 = files r1.2).
Proof.
  split; [reflexivity|].
  apply (filter_twice 0 "filter" "font.dat" "5" [] ({[5]} ∪ ∅) "demo" demo_font
           demo_world eq_refl eq_refl eq_refl FilterWitness.demo_font_representable
           eq_refl eq_refl).
  vm_compute. reflexivity.
Defined.

Lemma filter_order_irrelevant_witness :
  Permutation ["65"; "97-98"] ["97-98"; "65"] /\
  (exists allowed,
     parse_args 5 ∅ ["65"; "97-98"] = Ok allowed /\
     parse_args 5 ∅ ["97-98"; "65"] = Ok allowed) /\
  cmd_filter 5 ["filter"; "font.dat"; "97-98"; "65"] demo_world
  = cmd_filter 5 ["filter"; "font.dat"; "65"; "97-98"] demo_world.
Proof.
  assert (Permutation ["65"; "97-98"] ["97-98"; "65"]) as Hp by apply perm_swap.
  split; [exact Hp|].
  destruct (parse_args 5 ∅ ["65"; "97-98"]) as [allowed| | |] eqn:E;
    try (exfalso; vm_compute in E; discriminate).
  destruct (filter_order_irrelevant 5 "filter" "font.dat" _ _ allowed demo_world Hp E)
    as [Hparse Hrun].
  split; [|exact Hrun]. exists allowed. split; [reflexivity|exact Hparse].
Defined.

Lemma bytes_per_min_defined_witness :
  bytes_per_min 30 29 1000 1001 = Ok 30 /\
  (bytes_per_min 30 29 1000 999 = DivideError <-> (999 - 1000 + 1) mod 2 ^ 64 = 0).
Proof.
  split.
  - apply (bytes_per_min_defined 30 29 1000 1001); vm_compute;
      try split; discriminate || reflexivity.
  - apply (bytes_per_min_defined 30 29 1000 999).
Defined.

Lemma flaky_speed_defined :
  speed_defined flaky_world (clock flaky_world (nticks flaky_world)).
Proof.
  intros k. cbn [clock flaky_world nticks]. unfold demo_clock, wrap_size, SIZE_MOD.
  rewrite Z.mod_small; lia.
Defined.

Lemma optimize_failing_save_witness :
  exists w' tr fs fl,
    cmd_optimize 6 ["optimize"; "font.dat"; "5"] flaky_world = (Ok STATUS_ERROR, w') /\
    events w' = events flaky_world ++ tr ++ [EvOptimize fs fl; EvSave "font.dat" fl false] /\
    count_optimize tr = 2%nat /\ count_save tr = 2%nat /\
    files w' !! "font.dat" = Some (DataFile_Save fs).
Proof.
  destruct (optimize_failing_save 2 6 ["optimize"; "font.dat"; "5"] "optimize"
              "font.dat" "demo" demo_font 5 flaky_world eq_refl eq_refl)
    as (w' & tr & fs & fl & Hrun & Hev & Hco & Hcs & Hopen & _).
  - right. exists "5". split; reflexivity.
  - right. reflexivity.
  - intros [|[|k]] Hk; [reflexivity|reflexivity|lia].
  - discriminate.
  - exact flaky_speed_defined.
  - lia.
  - exists w', tr, fs, fl. repeat (split; [assumption|]). apply Hopen. reflexivity.
Defined.

Lemma show_encoded_output_witness :
  text (show_encoded (encode_font demo_font) fresh_stream)
  = text fresh_stream +:+ show_encoded_text dec (encode_font demo_font) /\
  fieldwidth (show_encoded (encode_font demo_font) fresh_stream) = 0%nat.
Proof.
  apply (show_encoded_output (encode_font demo_font) fresh_stream);
    [reflexivity|vm_compute; discriminate|vm_compute; discriminate].
Defined.

Lemma to_string_stoi_witness :
  INT_MIN <= -42 <= INT_MAX /\ to_string (-42) = "-42" /\
  stoi (to_string (-42)) 10 = Ok (-42).
Proof.
  assert (INT_MIN <= -42 <= INT_MAX) as Hr by (split; discriminate).
  split; [exact Hr|]. split; [reflexivity|].
  apply (to_string_stoi (-42) Hr).
Defined.

Lemma main_passes_on_witness :
  command_list 0 !! "size" = Some cmd_size /\
  main 0 ["mcufont"; "size"; "font.dat"] demo_world
  = (Ok 0, (cmd_size ["size"; "font.dat"] demo_world).2) /\
  main 0 ["mcufont"; "size"; "font.dat"] empty_world
  = (DivideError, (cmd_size ["size"; "font.dat"] empty_world).2).
Proof.
  assert (command_list 0 !! "size" = Some cmd_size) as Hl by reflexivity.
  split; [exact Hl|]. split.
  - apply (main_passes_on 0 "mcufont" "size" ["font.dat"] cmd_size demo_world Hl).
  - apply (main_passes_on 0 "mcufont" "size" ["font.dat"] cmd_size empty_world Hl).
Defined.

Lemma optimize_hex_limit_witness :
  files demo_world !! "font.dat" = Some "demo" /\
  stoi ("0x" +:+ "10") 10 = Ok 0 /\
  (cmd_optimize 50 ["optimize"; "font.dat"; "0x" +:+ "10"] demo_world).1 = OutOfFuel.
Proof.
  split; [reflexivity|].
  destruct (optimize_hex_limit 50 "optimize" "font.dat" "demo" "10" demo_font
              demo_world eq_refl eq_refl) as (Hs & _ & Hrun).
  split; [exact Hs|].
  apply Hrun; [exact OptimizeWitness.demo_saves_succeed
              |exact OptimizeWitness.demo_speed_defined].
Defined.

Lemma save_then_load_witness :
  (save_dat "copy.dat" demo_font demo_world).1 = Ok true /\
  DataFile_Load (DataFile_Save demo_font) = Some demo_font /\
  load_dat "copy.dat" (save_dat "copy.dat" demo_font demo_world).2
  = (Ok (Some demo_font), (save_dat "copy.dat" demo_font demo_world).2).
Proof.
  split; [reflexivity|]. split; [reflexivity|].
  apply (save_then_load "copy.dat" demo_font demo_world); reflexivity.
Defined.

End FrontendWitness.

(** ** What size and filter print *)

Module ReportTheorems.
Import Filter FilterTheorems SizeTheorems ShowEncodedTheorems FrontendTheorems
  FilterAlgebra.

(** Insertions into a stream that has no field width set and prints
    numbers in decimal. *)
Lemma put_str_plain (s : string) (o : ostream) :
  plain o -> text (put_str s o) = text o +:+ s /\ plain (put_str s o).
Proof.
  intros [Hw Hb]. unfold put_str, put_field, plain. simpl. rewrite Hw. simpl.
  split; [reflexivity|]. split; [reflexivity|exact Hb].
Qed.

Lemma put_int_plain (n : Z) (o : ostream) :
  plain o -> text (put_int n o) = text o +:+ render dec 32 n /\ plain (put_int n o).
Proof.
  intros [Hw Hb]. unfold put_int, put_field, plain. simpl. rewrite Hw, Hb. simpl.
  split; [reflexivity|]. split; reflexivity.
Qed.

Lemma put_size_plain (n : Z) (o : ostream) :
  plain o -> text (put_size n o) = text o +:+ render dec 64 n /\ plain (put_size n o).
Proof.
  intros [Hw Hb]. unfold put_size, put_field, plain. simpl. rewrite Hw, Hb. simpl.
  split; [reflexivity|]. split; reflexivity.
Qed.

Lemma endl_plain (o : ostream) :
  plain o -> text (endl o) = text o +:+ newline /\ plain (endl o).
Proof. intros [Hw Hb]. unfold endl, plain. simpl. tauto. Qed.

(** The text of a chain of insertions, innermost first. *)
Ltac plain_text :=
  repeat match goal with
  | Hp : plain ?o |- _ =>
      match goal with
      | |- context [put_str ?s o] =>
          lazymatch goal with
          | _ : plain (put_str s o) |- _ => fail
          | _ => pose proof (put_str_plain s o Hp) as [? ?]
          end
      | |- context [put_int ?n o] =>
          lazymatch goal with
          | _ : plain (put_int n o) |- _ => fail
          | _ => pose proof (put_int_plain n o Hp) as [? ?]
          end
      | |- context [put_size ?n o] =>
          lazymatch goal with
          | _ : plain (put_size n o) |- _ => fail
          | _ => pose proof (put_size_plain n o Hp) as [? ?]
          end
      | |- context [endl o] =>
          lazymatch goal with
          | _ : plain (endl o) |- _ => fail
          | _ => pose proof (endl_plain o Hp) as [? ?]
          end
      end
  end.

Section WithBackend.
Context `{Backend}.

(** X27: size on a loaded font with glyphs, dimensions that are not
    negative and fewer than [2^64] pixels, on a stream in decimal
    without field width, prints five lines: the glyph count, the
    bounding box, half the number of pixels rounded down as the
    uncompressed size, the encoded size, and the encoded size over the
    glyph count rounded down. *)
Theorem size_report (a0 src t : string) (f : DataFile) (w : world) :
  files w !! src = Some t -> DataFile_Load t = Some f ->
  plain (cout w) ->
  GetGlyphCount f <> 0 ->
  0 <= max_width (GetFontInfo f) -> 0 <= max_height (GetFontInfo f) ->
  GetGlyphCount f * max_width (GetFontInfo f) * max_height (GetFontInfo f) < SIZE_MOD ->
  let r := cmd_size [a0; src] w in
  r.1 = Ok STATUS_OK /\
  text (cout r.2)
  = text (cout w)
    +:+ "Glyph count:       " +:+ render dec 64 (GetGlyphCount f) +:+ newline
    +:+ "Glyph bbox:        " +:+ render dec 32 (max_width (GetFontInfo f))
    +:+ "x" +:+ render dec 32 (max_height (GetFontInfo f)) +:+ " pixels" +:+ newline
    +:+ "Uncompressed size: "
    +:+ render dec 64 (GetGlyphCount f * max_width (GetFontInfo f)
                       * max_height (GetFontInfo f) / 2)
    +:+ " bytes" +:+ newline
    +:+ "Compressed size:   " +:+ render dec 64 (get_encoded_size f)
    +:+ " bytes" +:+ newline
    +:+ "Bytes per glyph:   "
    +:+ render dec 64 (get_encoded_size f / GetGlyphCount f) +:+ newline.
Proof.
  intros Hfile Hload Hplain Hnz Hw Hh Hfit r.
  pose proof (vsize_nonneg (GetGlyphTable f)) as Hc. fold (GetGlyphCount f) in Hc.
  assert (wrap_size (wrap_size (GetGlyphCount f * max_width (GetFontInfo f))
                     * max_height (GetFontInfo f))
          = GetGlyphCount f * max_width (GetFontInfo f) * max_height (GetFontInfo f))
    as Hprod.
  { unfold wrap_size.
    destruct (decide (max_height (GetFontInfo f) = 0)) as [Hz|Hz].
    - rewrite Hz, !Z.mul_0_r. reflexivity.
    - rewrite (Z.mod_small (GetGlyphCount f * _)) by nia.
      apply Z.mod_small. nia. }
  assert (r = (Ok STATUS_OK,
               printed (fun o =>
                 o << put_str "Glyph count:       "
                   << put_size (GetGlyphCount f) << endl
                   << put_str "Glyph bbox:        "
                   << put_int (max_width (GetFontInfo f)) << put_str "x"
                   << put_int (max_height (GetFontInfo f))
                   << put_str " pixels" << endl
                   << put_str "Uncompressed size: "
                   << put_size (GetGlyphCount f * max_width (GetFontInfo f)
                                * max_height (GetFontInfo f) / 2)
                   << put_str " bytes" << endl
                   << put_str "Compressed size:   "
                   << put_size (get_encoded_size f) << put_str " bytes" << endl
                   << put_str "Bytes per glyph:   "
                   << put_size (get_encoded_size f / GetGlyphCount f) << endl) w))
    as ->.
  { unfold r, cmd_size. rewrite bool_decide_false by (vm_compute; tauto).
    unfold cbind at 1. unfold lift at 1. rewrite at_1.
    unfold cbind at 1. rewrite (load_dat_ok src t f w Hfile Hload).
    cbv zeta. rewrite Hprod.
    unfold size_div. rewrite bool_decide_false by exact Hnz.
    reflexivity. }
  split; [reflexivity|]. unfold printed. cbn [snd cout].
  plain_text.
  repeat match goal with Ht : text _ = _ |- _ => rewrite Ht; clear Ht end.
  rewrite !append_assoc. reflexivity.
Qed.

Lemma omap_keep_count (allowed : gset Z) (gl : list glyphentry_t) :
  vsize (omap (keep_glyph allowed) gl) = vsize (filter (survives allowed) gl).
Proof.
  unfold vsize. f_equal.
  rewrite <- (length_fmap bitmap (omap (keep_glyph allowed) gl)).
  rewrite omap_keep_bitmaps, length_fmap. reflexivity.
Qed.

(** X28: filter prints the number of glyphs before and after, the
    second being the number of glyphs that keep a code and never more
    than the first; both lines are printed before the save, whatever
    becomes of it. *)
Theorem filter_report (fuel : nat) (a0 src s : string) (rest : list string)
  (allowed : gset Z) (t : string) (f : DataFile) (w : world) :
  parse_args fuel ∅ (s :: rest) = Ok allowed ->
  files w !! src = Some t -> DataFile_Load t = Some f ->
  representable f ->
  plain (cout w) ->
  let r := cmd_filter fuel (a0 :: src :: s :: rest) w in
  let remaining := vsize (filter (survives allowed) (GetGlyphTable f)) in
  remaining <= GetGlyphCount f /\
  text (cout r.2)
  = text (cout w)
    +:+ "Font originally had " +:+ render dec 64 (GetGlyphCount f)
    +:+ " glyphs." +:+ newline
    +:+ "After filtering, " +:+ render dec 64 remaining
    +:+ " glyphs remain." +:+ newline.
Proof.
  intros Hparse Hfile Hload Hrep Hplain r remaining. split.
  - unfold remaining, GetGlyphCount, vsize.
    pose proof (length_filter (survives allowed) (GetGlyphTable f)). lia.
  - unfold r.
    rewrite (cmd_filter_loaded fuel a0 src s rest allowed t f w Hparse Hfile Hload Hrep).
    rewrite save_dat_spec. cbn [faults nsaves printed].
    set (o := cout w << put_str "Font originally had "
                     << put_size (GetGlyphCount f) << put_str " glyphs." << endl
                     << put_str "After filtering, "
                     << put_size (GetGlyphCount
                                    (mk_DataFile (GetDictionary f)
                                       (omap (keep_glyph allowed) (GetGlyphTable f))
                                       (GetFontInfo f)))
                     << put_str " glyphs remain." << endl).
    assert (text o
            = text (cout w)
              +:+ "Font originally had " +:+ render dec 64 (GetGlyphCount f)
              +:+ " glyphs." +:+ newline
              +:+ "After filtering, " +:+ render dec 64 remaining
              +:+ " glyphs remain." +:+ newline) as Htext.
    { unfold o.
      change (GetGlyphCount
                (mk_DataFile (GetDictionary f)
                   (omap (keep_glyph allowed) (GetGlyphTable f)) (GetFontInfo f)))
        with (vsize (omap (keep_glyph allowed) (GetGlyphTable f))).
      rewrite omap_keep_count. fold remaining.
      plain_text.
      repeat match goal with Ht : text _ = _ |- _ => rewrite Ht; clear Ht end.
      rewrite !append_assoc. reflexivity. }
    destruct (faults w (nsaves w)); cbn [snd cout]; exact Htext.
Qed.

End WithBackend.

End ReportTheorems.

Module ReportWitness.
Import Filter Demo FrontendDemo ReportTheorems.

Lemma demo_cout_plain : plain (cout demo_world).
Proof. split; reflexivity. Defined.

Lemma size_report_witness :
  (cmd_size ["size"; "font.dat"] demo_world).1 = Ok STATUS_OK /\
  text (cout (cmd_size ["size"; "font.dat"] demo_world).2)
  = "Glyph count:       3" +:+ newline +:+
    "Glyph bbox:        2x2 pixels" +:+ newline +:+
    "Uncompressed size: 6 bytes" +:+ newline +:+
    "Compressed size:   30 bytes" +:+ newline +:+
    "Bytes per glyph:   10" +:+ newline.
Proof.
  destruct (size_report "size" "font.dat" "demo" demo_font demo_world
              eq_refl eq_refl demo_cout_plain) as [Hst Htext];
    [discriminate|discriminate|discriminate|reflexivity|].
  split; [exact Hst|]. rewrite Htext. reflexivity.
Defined.

Lemma filter_report_witness :
  parse_args 0 ∅ ["97"; "160"] = Ok ({[160]} ∪ ({[97]} ∪ ∅)) /\
  text (cout (cmd_filter 0 ["filter"; "font.dat"; "97"; "160"] demo_world).2)
  = "Font originally had 3 glyphs." +:+ newline +:+
    "After filtering, 2 glyphs remain." +:+ newline.
Proof.
  split; [reflexivity|].
  destruct (filter_report 0 "filter" "font.dat" "97" ["160"] ({[160]} ∪ ({[97]} ∪ ∅))
              "demo" demo_font demo_world eq_refl eq_refl eq_refl
              FilterWitness.demo_font_representable demo_cout_plain) as [_ Htext].
  rewrite Htext. vm_compute. reflexivity.
Defined.

End ReportWitness.

(** ** The optimize loop stopped between two of its steps *)

Module InterruptTheorems.
Import ParseTheorems SizeTheorems OptimizeTheorems.

Section WithBackend.
Context `{Backend}.

Variables (src : string) (limit oldsize oldtime : Z).















(** Line 290 divides by zero when the clock shows the second before
    [oldtime]. *)
Lemma loop_step_divide (f : DataFile) (i : Z) (w : world) :
  limit = 0 \/ i < limit ->
  wrap_size (clock w (nticks w) - oldtime + 1) = 0 ->
  let r := loop_step src limit oldsize oldtime (mk_loop_state f i AtTest) w in
  r.1 = DivideError /\
  events r.2 = events w ++ [EvOptimize f (optimize f (rnd w)).1] /\
  files r.2 = files w.
Proof.
  intros Hcond Hz r. subst r.
  unfold loop_step. cbn [ls_pc ls_file ls_i].
  rewrite bool_decide_eq_true_2 by done.
  unfold cbind, call_optimize, time, lift, print, cret, bytes_per_min, size_div.
  destruct (optimize f (rnd w)) as [f' r'] eqn:E. cbn.
  rewrite bool_decide_eq_true_2 by done. cbn. done.
Qed.

Lemma run_loop_divide (fuel : nat) (f : DataFile) (i : Z) (w : world) :
  limit = 0 \/ i < limit ->
  wrap_size (clock w (nticks w) - oldtime + 1) = 0 ->
  let r := run_loop (S fuel) src limit oldsize oldtime (mk_loop_state f i AtTest) w in
  r.1 = DivideError /\
  events r.2 = events w ++ [EvOptimize f (optimize f (rnd w)).1] /\
  files r.2 = files w.
Proof.
  intros Hcond Hz r. subst r.
  destruct (loop_step_divide f i w Hcond Hz) as (Hres & Hev & Hfi).
  unfold run_loop. cbn [loop_steps]. unfold cbind.
  destruct (loop_step src limit oldsize oldtime (mk_loop_state f i AtTest) w)
    as [r1 w1]. cbn [fst snd] in *. subst r1. cbn [fst snd]. done.
Qed.

End WithBackend.

Section Command.
Context `{Backend}.

(** The command up to its loop, for every amount of fuel at once. *)
Lemma cmd_optimize_loop (a0 src s t : string) (f : DataFile) (limit : Z)
  (w : world) :
  files w !! src = Some t -> DataFile_Load t = Some f ->
  stoi s 10 = Ok limit ->
  exists w1,
    (forall fuel,
        cmd_optimize fuel [a0; src; s] w
        = run_loop fuel src limit (get_encoded_size f) (clock w (nticks w))
            (mk_loop_state f 0 AtTest) w1) /\
    events w1 = events w /\ files w1 = files w /\
    faults w1 = faults w /\ clock w1 = clock w /\
    nsaves w1 = nsaves w /\ nticks w1 = S (nticks w) /\ rnd w1 = rnd w.
Proof.
  intros Hfile Hload Hs.
  exists (mk_world (files w)
            ((if bool_decide (limit > 0)
              then fun o => o << put_str "Limit is " << put_int limit
                              << put_str " iterations" << endl
              else fun o => o)
               (cout w << put_str "Original size is "
                       << put_size (get_encoded_size f)
                       << put_str " bytes" << endl
                       << put_str "Press ctrl-C at any time to stop." << endl
                       << put_str "Results are saved automatically after each iteration."
                       << endl))
            (cerr w) (rnd w) (faults w) (nsaves w) (clock w)
            (S (nticks w)) (events w)).
  split; [|cbn [events files faults clock nsaves nticks rnd]; done].
  intros fuel. unfold cmd_optimize.
  rewrite bool_decide_false by (vm_compute; intros [? ?]; congruence).
  rewrite at_1. unfold cbind at 1, lift at 1.
  unfold cbind at 1. rewrite (load_dat_ok src t f w Hfile Hload).
  rewrite (bool_decide_true (vsize _ = 3)) by reflexivity.
  assert (at_ [a0; src; s] 2 = Ok s) as -> by reflexivity.
  unfold cbind, print, cret, time, lift. cbn [fst snd].
  rewrite Hs.
  destruct (decide (limit > 0)).
  - rewrite !bool_decide_true by assumption. reflexivity.
  - rewrite !bool_decide_false by assumption. reflexivity.
Qed.

End Command.

End InterruptTheorems.

(** The loop on the example font, stopped inside a save, and the two
    runs that do not end as a run usually does. *)
Module InterruptExamples.
Import ParseTheorems OptimizeTheorems InterruptTheorems Demo FrontendDemo.



(** The command [optimize font.dat 2] where every save succeeds and the
    clock goes back by a second after the loop's start: line 290 divides
    by zero in the first iteration. *)
Lemma optimize_iteration_count_counterexample :
  saves_succeed rewind_world /\
  files rewind_world !! "font.dat" = Some "demo" /\
  DataFile_Load "demo" = Some demo_font /\
  stoi "2" 10 = Ok 2 /\
  clock rewind_world 0 = 1000 /\ clock rewind_world 1 = 999 /\
  (forall fuel,
      (cmd_optimize fuel ["optimize"; "font.dat"; "2"] rewind_world).1
      <> Ok STATUS_OK) /\
  (forall fuel,
      let r := cmd_optimize (S fuel) ["optimize"; "font.dat"; "2"] rewind_world in
      r.1 = DivideError /\
      count_optimize (events r.2) = 1%nat /\ count_save (events r.2) = 0%nat).
Proof.
  split; [intros k; reflexivity|].
  split; [reflexivity|]. split; [reflexivity|]. split; [reflexivity|].
  split; [reflexivity|]. split; [reflexivity|].
  destruct (cmd_optimize_loop (H := demo_backend) "optimize" "font.dat" "2" "demo"
              demo_font 2 rewind_world eq_refl eq_refl eq_refl)
    as (w1 & Hrun & Hev & Hfi & Hfa & Hcl & Hns & Hnt & Hrnd).
  assert (forall fuel,
             let r := run_loop (S fuel) "font.dat" 2 (get_encoded_size demo_font)
                        (clock rewind_world (nticks rewind_world))
                        (mk_loop_state demo_font 0 AtTest) w1 in
             r.1 = DivideError /\
             count_optimize (events r.2) = 1%nat /\
             count_save (events r.2) = 0%nat) as Hdiv.
  { intros fuel.
    destruct (run_loop_divide "font.dat" 2 (get_encoded_size demo_font)
                (clock rewind_world (nticks rewind_world)) fuel demo_font 0 w1)
      as (Hres & Hev' & _).
    - right. lia.
    - rewrite Hcl, Hnt. reflexivity.
    - cbv zeta. rewrite Hres, Hev', Hev. done. }
  split.
  - intros [|fuel]; rewrite Hrun.
    + discriminate.
    + destruct (Hdiv fuel) as [-> _]. discriminate.
  - intros fuel. cbv zeta. rewrite Hrun. apply Hdiv.
Qed.

(** The argument [0-2147483647] of the filter command: the counter of
    the loop of lines 186-189 is an [int] and never passes the upper
    end. *)
Lemma filter_charset_parsing_counterexample :
  find "-" "0" = None /\ stoi "0" 0 = Ok 0 /\
  stoi "2147483647" 0 = Ok 2147483647 /\ INT_MAX = 2147483647 /\
  (forall fuel allowed,
      parse_arg fuel allowed "0-2147483647" = OutOfFuel) /\
  (forall fuel status,
      (cmd_filter fuel ["filter"; "font.dat"; "0-2147483647"] demo_world).1
      <> Ok status).
Proof.
  assert (stoi "2147483647" 0 = Ok INT_MAX) as Hmax by (by vm_compute).
  assert (forall fuel allowed,
             parse_arg fuel allowed "0-2147483647" = OutOfFuel) as Hloop.
  { intros fuel allowed.
    apply (parse_arg_range_int_max fuel allowed "0" "2147483647" 0);
      [reflexivity | reflexivity | exact Hmax]. }
  split; [reflexivity|]. split; [reflexivity|]. split; [exact Hmax|].
  split; [reflexivity|]. split; [exact Hloop|].
  intros fuel status. unfold cmd_filter.
  rewrite bool_decide_eq_false_2 by (by vm_compute).
  change (drop 2 ["filter"; "font.dat"; "0-2147483647"]) with ["0-2147483647"].
  cbn [parse_args]. rewrite Hloop. cbn. discriminate.
Qed.


End InterruptExamples.
